(** * The edge lexer: statements, character buckets and the tokenizer

    A shallow embedding of the TypeScript sources of [packages/lexer]:

    - [CharBucket]         (src/CharBucket/index.ts)
    - [TagStatement]       (src/TagStatement/index.ts)
    - [MustacheStatement]  (src/MustacheStatement/index.ts)
    - [Tokenizer]          (src/Tokenizer/index.ts)

    JavaScript strings are modelled as lists of 8-bit code units
    ([list ascii]); mutable objects become records that are threaded
    through the calls; a thrown [Error] becomes the [Err] branch of
    [result].

    The embedding comes first, module by module as in the sources. The
    part called Properties follows, with the notions its statements need:
    the buckets in CONTROLLED mode, the flags and the errors of a tag
    statement, the closing of a mustache statement, and what [parse]
    returns for plain text, unterminated statements, open blocks, tags
    without arguments and nested blocks. The part after it has further
    properties of the buckets, of the two statements line by line, and of
    the tokenizer: the lines of tags and of expressions, the statements it
    keeps, where it fails and its line numbers. The last part is about the
    end of the template: the text of a statement that is still open, and
    the templates that read back from their tokens. *)

From Stdlib Require Import Ascii String ZArith Lia.
From Equations Require Import Equations.
From stdpp Require Import base option list gmap strings.

Local Open Scope Z_scope.
Local Open Scope nat_scope.

(** ** Strings *)

(** A JS string, as the array [line.split('')] of its code units. *)
Abbreviation str := (list ascii).

(** String literals. *)
Abbreviation js s := (list_ascii_of_string s).

(** The character class [\s] of JavaScript regular expressions, which is
    also the set that [String.prototype.trim] removes, restricted to the
    code units below 256: TAB, LF, VT, FF, CR, SPACE and NBSP. *)
Definition is_space (c : ascii) : bool :=
  let n := nat_of_ascii c in
  ((9 <=? n) && (n <=? 13)) || (n =? 32) || (n =? 160).

(** [is-whitespace-character]: [/\s/.test(character.charAt(0))]; the
    argument is a string, and the test fails on the empty string. *)
Definition whitespace (character : option ascii) : bool :=
  match character with
  | Some c => is_space c
  | None => false
  end.

(** ** Contracts *)

Inductive WhiteSpaceModes := NONE | ALL | CONTROLLED.

(** ** CharBucket *)

Module CharBucket.

Record t := mk {
  mode : WhiteSpaceModes;
  chars : str;
  (** [lastChar] is [''] ([None]) until a character has been kept in
      CONTROLLED mode. *)
  lastChar : option ascii
}.

Definition new (m : WhiteSpaceModes) : t :=
  {| mode := m; chars := []; lastChar := None |}.

Definition get (b : t) : str := chars b.

Definition feed (b : t) (char : ascii) : t :=
  match mode b with
  | CONTROLLED =>
      if whitespace (Some char) && whitespace (lastChar b) then b
      else {| mode := mode b; chars := chars b ++ [char]; lastChar := Some char |}
  | NONE =>
      if whitespace (Some char) then b
      else {| mode := mode b; chars := chars b ++ [char]; lastChar := lastChar b |}
  | ALL =>
      {| mode := mode b; chars := chars b ++ [char]; lastChar := lastChar b |}
  end.

(** Feeding the characters of a sequence one call at a time. *)
Definition feedAll (b : t) (cs : str) : t := fold_left feed cs b.

End CharBucket.

(** The specification of CONTROLLED mode, in the words of the
    documentation: every maximal run of consecutive whitespace characters
    is replaced by the first character of that run. *)
Fixpoint skipSpaces (cs : str) : str :=
  match cs with
  | c :: rest => if is_space c then skipSpaces rest else cs
  | [] => []
  end.

Lemma skipSpaces_length cs : length (skipSpaces cs) <= length cs.
Proof.
  induction cs as [|c rest IH]; simpl; [lia|].
  destruct (is_space c); simpl; lia.
Qed.

Equations? collapseRuns (cs : str) : str by wf (length cs) lt :=
  collapseRuns [] := [];
  collapseRuns (c :: rest) with is_space c := {
    | true := c :: collapseRuns (skipSpaces rest);
    | false := c :: collapseRuns rest }.
Proof.
  all: try pose proof (skipSpaces_length rest); simpl; lia.
Qed.

Example collapseRuns_ex :
  collapseRuns (js "a  b   c  ") = js "a b c ".
Proof. vm_compute. reflexivity. Qed.

(** ** Errors *)

(** The exceptions the lexer can raise, one constructor per message
    template of the sources; [TypeError] is the runtime error of a
    property access on [null] or [undefined]. *)
Inductive Error :=
| WriteInNewLine (token : str)
    (** [Unexpected token {token}. Write in a new line] *)
| WrapStatement (char : ascii)
    (** [Unexpected token char. Wrap statement inside ()] *)
| UnexpectedToken (line : str)
    (** [Unexpected token {line}] *)
| TypeError
| OutOfFuel.

Inductive result (A : Type) :=
| Ok (a : A)
| Err (e : Error).
Arguments Ok {A} a.
Arguments Err {A} e.

Definition bind {A B} (r : result A) (k : A -> result B) : result B :=
  match r with
  | Ok a => k a
  | Err e => Err e
  end.

Notation "'let*' x := r 'in' k" := (bind r (fun x => k))
  (at level 10, x name, r at level 100, k at level 200).

(** ** String helpers of the JavaScript runtime *)

Definition trimStart (s : str) : str := skipSpaces s.
Definition trimEnd (s : str) : str := rev (skipSpaces (rev s)).

(** [String.prototype.trim] *)
Definition trim (s : str) : str := trimEnd (trimStart s).

(** [os.EOL], on a POSIX system: the line feed. *)
Definition EOL : ascii := "010"%char.

(** [template.split(EOL)]: the pieces between the line terminators;
    the empty string gives one empty line. *)
Fixpoint splitEOL (s : str) : list str :=
  match s with
  | [] => [[]]
  | c :: rest =>
      if Ascii.eqb c EOL then [] :: splitEOL rest
      else match splitEOL rest with
           | l :: ls => (c :: l) :: ls
           | [] => [[c]]
           end
  end.

(** The properties a statement collects ([Prop] in Contracts). *)
Module Props.
Record t := mk { name : str; jsArg : str; raw : str }.
End Props.

(** ** TagStatement *)

Module TagStatement.

Definition OPENING_BRACE : nat := 40.
Definition CLOSING_BRACE : nat := 41.

(** The two values [currentProp] takes. *)
Inductive PropName := name | jsArg.

Record InternalProps := mkInternal {
  i_name : CharBucket.t;
  i_jsArg : CharBucket.t
}.

Record t := mk {
  startPosition : nat;
  seekable : bool;
  started : bool;
  ended : bool;
  props : Props.t;
  currentProp : PropName;
  internalParens : Z;
  internalProps : option InternalProps
}.

(** [new TagStatement(startPosition, seekable = true)] *)
Definition new (startPosition : nat) (seekable : bool) : t :=
  {| startPosition := startPosition;
     seekable := seekable;
     started := false;
     ended := false;
     props := Props.mk [] [] [];
     currentProp := name;
     internalParens := 0%Z;
     internalProps := Some (mkInternal (CharBucket.new NONE) (CharBucket.new CONTROLLED)) |}.

Definition seeking (s : t) : bool := negb (started s) || negb (ended s).

Definition isStartOfStatement (s : t) (charcode : nat) : bool :=
  (charcode =? OPENING_BRACE) &&
  match currentProp s with name => true | jsArg => false end.

Definition isEndOfStatement (s : t) (charcode : nat) : bool :=
  (charcode =? CLOSING_BRACE) && (internalParens s =? 0)%Z.

Definition set_started (v : bool) (s : t) : t :=
  mk (startPosition s) (seekable s) v (ended s) (props s)
     (currentProp s) (internalParens s) (internalProps s).
Definition set_ended (v : bool) (s : t) : t :=
  mk (startPosition s) (seekable s) (started s) v (props s)
     (currentProp s) (internalParens s) (internalProps s).
Definition set_props (v : Props.t) (s : t) : t :=
  mk (startPosition s) (seekable s) (started s) (ended s) v
     (currentProp s) (internalParens s) (internalProps s).
Definition set_currentProp (v : PropName) (s : t) : t :=
  mk (startPosition s) (seekable s) (started s) (ended s) (props s)
     v (internalParens s) (internalProps s).
Definition set_internalParens (v : Z) (s : t) : t :=
  mk (startPosition s) (seekable s) (started s) (ended s) (props s)
     (currentProp s) v (internalProps s).
Definition set_internalProps (v : option InternalProps) (s : t) : t :=
  mk (startPosition s) (seekable s) (started s) (ended s) (props s)
     (currentProp s) (internalParens s) v.

(** [this.props[this.currentProp] = this.internalProps[this.currentProp].get()] *)
Definition setProp (s : t) : result t :=
  match internalProps s with
  | None => Err TypeError
  | Some ip =>
      let p := props s in
      Ok (set_props
            match currentProp s with
            | name => Props.mk (CharBucket.get (i_name ip)) (Props.jsArg p) (Props.raw p)
            | jsArg => Props.mk (Props.name p) (CharBucket.get (i_jsArg ip)) (Props.raw p)
            end s)
  end.

Definition startStatement (s : t) : result t :=
  let* s := setProp s in
  Ok (set_started true (set_currentProp jsArg s)).

Definition endStatement (s : t) (char : ascii) : result t :=
  if negb (started s) then Err (WrapStatement char)
  else
    let* s := setProp (set_ended true s) in
    Ok (set_internalProps None s).

Definition feedChar (s : t) (char : ascii) (charCode : nat) : result t :=
  let s := if charCode =? OPENING_BRACE
           then set_internalParens (internalParens s + 1)%Z s else s in
  let s := if charCode =? CLOSING_BRACE
           then set_internalParens (internalParens s - 1)%Z s else s in
  match internalProps s with
  | None => Err TypeError
  | Some ip =>
      Ok (set_internalProps
            (Some match currentProp s with
                  | name => mkInternal (CharBucket.feed (i_name ip) char) (i_jsArg ip)
                  | jsArg => mkInternal (i_name ip) (CharBucket.feed (i_jsArg ip) char)
                  end) s)
  end.

Definition ensureNoMoreCharsToFeed (chars : str) : result unit :=
  match chars with
  | [] => Ok tt
  | _ :: _ => Err (WriteInNewLine chars)
  end.

Definition recordRaw (s : t) (line : str) : t :=
  let p := props s in
  match Props.raw p with
  | [] => set_props (Props.mk (Props.name p) (Props.jsArg p) (Props.raw p ++ line)) s
  | _ :: _ =>
      set_props (Props.mk (Props.name p) (Props.jsArg p) (Props.raw p ++ EOL :: line)) s
  end.

Definition feedNonSeekable (s : t) (line : str) : t :=
  let p := props s in
  set_internalProps None
    (set_started true
       (set_ended true
          (set_props (Props.mk (trim line) (Props.jsArg p) (Props.raw p)) s))).

(** The [while (chars.length)] loop of [feedSeekable]; [chars] is what
    is left of the line. *)
Fixpoint feedSeekableChars (s : t) (chars : str) : result t :=
  match chars with
  | [] => Ok s
  | char :: chars =>
      let charCode := nat_of_ascii char in
      if isStartOfStatement s charCode then
        let* s := startStatement s in feedSeekableChars s chars
      else if isEndOfStatement s charCode then
        let* _ := ensureNoMoreCharsToFeed chars in
        endStatement s char
      else
        let* s := feedChar s char charCode in feedSeekableChars s chars
  end.

Definition feedSeekable (s : t) (line : str) : result t :=
  let* s := feedSeekableChars s line in
  Ok (if negb (seeking s) then set_internalProps None s else s).

Definition feed (s : t) (line : str) : result t :=
  if ended s then Err (WriteInNewLine line)
  else
    let s := recordRaw s line in
    if negb (seekable s) then Ok (feedNonSeekable s line)
    else feedSeekable s line.

End TagStatement.

(** The [seeking] getter of the compiled file build/TagStatement/index.js,
    which differs from the TypeScript source. *)
Module TagStatementBuild.
Definition seeking (s : TagStatement.t) : bool :=
  TagStatement.started s && negb (TagStatement.ended s).
End TagStatementBuild.

Example tag_feed_ex :
  (let* s := TagStatement.feed (TagStatement.new 1 true) (js "if(") in
   let* s := TagStatement.feed s (js "username") in
   let* s := TagStatement.feed s (js ")") in
   Ok (TagStatement.props s, TagStatement.seeking s))
  = Ok (Props.mk (js "if") (js "username")
          (js "if(" ++ EOL :: js "username" ++ EOL :: js ")"), false).
Proof. vm_compute. reflexivity. Qed.

(** ** MustacheStatement *)

(** [MustacheProp] in Contracts. *)
Module MustacheProp.
Record t := mk {
  name : str;
  jsArg : str;
  raw : str;
  textLeft : str;
  textRight : str
}.
End MustacheProp.

Module MustacheStatement.

Definition OPENING_BRACE : nat := 123.
Definition CLOSING_BRACE : nat := 125.

Definition mustache : str := js "mustache".
Definition emustache : str := js "emustache".

(** The three values [currentProp] takes. *)
Inductive PropName := textLeft | jsArg | textRight.

Record InternalProps := mkInternal {
  i_jsArg : CharBucket.t;
  i_textLeft : CharBucket.t;
  i_textRight : CharBucket.t
}.

Record t := mk {
  startPosition : nat;
  started : bool;
  ended : bool;
  props : MustacheProp.t;
  currentProp : PropName;
  internalBraces : Z;
  internalProps : option InternalProps
}.

Definition new (startPosition : nat) : t :=
  {| startPosition := startPosition;
     started := false;
     ended := false;
     props := MustacheProp.mk [] [] [] [] [];
     currentProp := textLeft;
     internalBraces := 0%Z;
     internalProps :=
       Some (mkInternal (CharBucket.new CONTROLLED) (CharBucket.new ALL)
               (CharBucket.new ALL)) |}.

Definition set_started (v : bool) (s : t) : t :=
  mk (startPosition s) v (ended s) (props s) (currentProp s)
     (internalBraces s) (internalProps s).
Definition set_ended (v : bool) (s : t) : t :=
  mk (startPosition s) (started s) v (props s) (currentProp s)
     (internalBraces s) (internalProps s).
Definition set_props (v : MustacheProp.t) (s : t) : t :=
  mk (startPosition s) (started s) (ended s) v (currentProp s)
     (internalBraces s) (internalProps s).
Definition set_currentProp (v : PropName) (s : t) : t :=
  mk (startPosition s) (started s) (ended s) (props s) v
     (internalBraces s) (internalProps s).
Definition set_internalBraces (v : Z) (s : t) : t :=
  mk (startPosition s) (started s) (ended s) (props s) (currentProp s)
     v (internalProps s).
Definition set_internalProps (v : option InternalProps) (s : t) : t :=
  mk (startPosition s) (started s) (ended s) (props s) (currentProp s)
     (internalBraces s) v.

Definition set_name (v : str) (p : MustacheProp.t) : MustacheProp.t :=
  MustacheProp.mk v (MustacheProp.jsArg p) (MustacheProp.raw p)
    (MustacheProp.textLeft p) (MustacheProp.textRight p).
Definition set_raw (v : str) (p : MustacheProp.t) : MustacheProp.t :=
  MustacheProp.mk (MustacheProp.name p) (MustacheProp.jsArg p) v
    (MustacheProp.textLeft p) (MustacheProp.textRight p).

(** [this.props.raw += more] *)
Definition appendRaw (more : str) (s : t) : t :=
  set_props (set_raw (MustacheProp.raw (props s) ++ more) (props s)) s.

(** [getName] shifts the braces it recognises off [chars] and records
    them in [props.raw]: the result carries the name found, what is
    left of [chars], and the statement. *)
Definition getName (s : t) (chars : str) (charCode : nat)
  : option str * str * t :=
  if negb (charCode =? OPENING_BRACE) then (None, chars, s)
  else
    match chars with
    | [] => (None, chars, s)
    | next :: chars1 =>
        if negb (nat_of_ascii next =? OPENING_BRACE) then (None, chars, s)
        else
          let s := appendRaw (js "{{") s in
          match chars1 with
          | [] => (Some mustache, chars1, s)
          | next :: chars2 =>
              if negb (nat_of_ascii next =? OPENING_BRACE)
              then (Some mustache, chars1, s)
              else (Some emustache, chars2, appendRaw (js "{") s)
          end
    end.

Definition str_eqb (a b : str) : bool := bool_decide (a = b).

(** [isClosing] likewise shifts the closing braces it accepts. *)
Definition isClosing (s : t) (chars : str) (charCode : nat)
  : bool * str * t :=
  if negb (charCode =? CLOSING_BRACE) || negb (internalBraces s =? 0)%Z
  then (false, chars, s)
  else if str_eqb (MustacheProp.name (props s)) emustache && (2 <=? length chars)
  then
    match chars with
    | next :: nextToNext :: chars2 =>
        if (nat_of_ascii next =? CLOSING_BRACE)
           && (nat_of_ascii nextToNext =? CLOSING_BRACE)
        then (true, chars2, appendRaw (js "}}") s)
        else (false, chars, s)
    | _ => (false, chars, s)
    end
  else if str_eqb (MustacheProp.name (props s)) mustache && (1 <=? length chars)
  then
    match chars with
    | next :: chars1 =>
        if nat_of_ascii next =? CLOSING_BRACE
        then (true, chars1, appendRaw (js "}") s)
        else (false, chars, s)
    | _ => (false, chars, s)
    end
  else (false, chars, s).

Definition seeking (s : t) : bool := started s && negb (ended s).

(** [this.props[this.currentProp] = this.internalProps[this.currentProp].get()] *)
Definition setProp (s : t) : result t :=
  match internalProps s with
  | None => Err TypeError
  | Some ip =>
      let p := props s in
      Ok (set_props
            match currentProp s with
            | textLeft =>
                MustacheProp.mk (MustacheProp.name p) (MustacheProp.jsArg p)
                  (MustacheProp.raw p) (CharBucket.get (i_textLeft ip))
                  (MustacheProp.textRight p)
            | jsArg =>
                MustacheProp.mk (MustacheProp.name p) (CharBucket.get (i_jsArg ip))
                  (MustacheProp.raw p) (MustacheProp.textLeft p)
                  (MustacheProp.textRight p)
            | textRight =>
                MustacheProp.mk (MustacheProp.name p) (MustacheProp.jsArg p)
                  (MustacheProp.raw p) (MustacheProp.textLeft p)
                  (CharBucket.get (i_textRight ip))
            end s)
  end.

(** [this.internalProps[this.currentProp].feed(char)] *)
Definition feedBucket (s : t) (char : ascii) : result t :=
  match internalProps s with
  | None => Err TypeError
  | Some ip =>
      Ok (set_internalProps
            (Some match currentProp s with
                  | textLeft =>
                      mkInternal (i_jsArg ip) (CharBucket.feed (i_textLeft ip) char)
                        (i_textRight ip)
                  | jsArg =>
                      mkInternal (CharBucket.feed (i_jsArg ip) char) (i_textLeft ip)
                        (i_textRight ip)
                  | textRight =>
                      mkInternal (i_jsArg ip) (i_textLeft ip)
                        (CharBucket.feed (i_textRight ip) char)
                  end) s)
  end.

(** [processChar(chars, char)]: [chars] is what follows [char] on the
    line; the result carries what is left of it. *)
Definition processChar (s : t) (chars : str) (char : ascii) : result (t * str) :=
  let charCode := nat_of_ascii char in
  let s := match currentProp s with
           | jsArg => appendRaw [char] s
           | _ => s
           end in
  let '(name, chars, s) :=
    if negb (started s) then getName s chars charCode else (None, chars, s) in
  match name with
  | Some name =>
      let s := set_started true (set_props (set_name name (props s)) s) in
      let* s := setProp s in
      Ok (set_currentProp jsArg s, chars)
  | None =>
      let '(closing, chars, s) :=
        if started s && negb (ended s) then isClosing s chars charCode
        else (false, chars, s) in
      if closing then
        let* s := setProp s in
        Ok (set_ended true (set_currentProp textRight s), chars)
      else
        let s := if charCode =? OPENING_BRACE
                 then set_internalBraces (internalBraces s + 1)%Z s else s in
        let s := if charCode =? CLOSING_BRACE
                 then set_internalBraces (internalBraces s - 1)%Z s else s in
        let* s := feedBucket s char in
        Ok (s, chars)
  end.

Lemma getName_length s chars code n chars' s' :
  getName s chars code = (n, chars', s') -> length chars' <= length chars.
Proof.
  unfold getName. intros H.
  repeat case_match; simplify_eq; simpl; lia.
Qed.

Lemma isClosing_length s chars code b chars' s' :
  isClosing s chars code = (b, chars', s') -> length chars' <= length chars.
Proof.
  unfold isClosing. intros H.
  repeat case_match; simplify_eq; simpl; lia.
Qed.

Lemma processChar_length s chars char s' chars' :
  processChar s chars char = Ok (s', chars') -> length chars' <= length chars.
Proof.
  unfold processChar. intros H.
  destruct (negb (started _)) eqn:Hst.
  - destruct (getName _ chars _) as [[n c1] s1] eqn:Hn.
    apply getName_length in Hn.
    destruct n as [n|].
    + destruct (setProp _); simpl in H; simplify_eq. lia.
    + destruct (started s1 && negb (ended s1)).
      * destruct (isClosing s1 c1 _) as [[b c2] s2] eqn:Hc.
        apply isClosing_length in Hc.
        destruct b.
        -- destruct (setProp _); simpl in H; simplify_eq. lia.
        -- destruct (feedBucket _ _); simpl in H; simplify_eq. lia.
      * destruct (feedBucket _ _); simpl in H; simplify_eq. lia.
  - match type of H with context [started ?x && _] => destruct (started x && negb (ended x)) end.
    + match type of H with context [isClosing ?a ?b ?c] =>
        destruct (isClosing a b c) as [[b0 c2] s2] eqn:Hc end.
      apply isClosing_length in Hc.
      destruct b0.
      * destruct (setProp _); simpl in H; simplify_eq. lia.
      * destruct (feedBucket _ _); simpl in H; simplify_eq. lia.
    + destruct (feedBucket _ _); simpl in H; simplify_eq. lia.
Qed.

Definition inspect {A} (a : A) : {b : A | a = b} := exist _ a eq_refl.

(** The [while (chars.length)] loop of [feed]: [processChar] may take
    further characters off [chars], never put any back. *)
Equations? feedChars (s : t) (chars : str) : result t by wf (length chars) lt :=
  feedChars s [] := Ok s;
  feedChars s (char :: chars) with inspect (processChar s chars char) := {
    | exist _ (Ok (s', chars')) H := feedChars s' chars';
    | exist _ (Err e) _ := Err e }.
Proof.
  all: try apply processChar_length in H; simpl; lia.
Qed.

Definition feed (s : t) (line : str) : result t :=
  if ended s then Err (UnexpectedToken line)
  else
    let s := match MustacheProp.raw (props s) with
             | [] => s
             | _ :: _ => appendRaw [EOL] s
             end in
    let* s := feedChars s line in
    if negb (seeking s) then
      let* s := setProp s in
      Ok (set_internalProps None s)
    else Ok s.

End MustacheStatement.

Example mustache_feed_ex :
  (let* s := MustacheStatement.feed (MustacheStatement.new 1) (js "Hello {{ username }}!") in
   Ok (MustacheStatement.props s, MustacheStatement.seeking s))
  = Ok (MustacheProp.mk (js "mustache") (js " username ") (js "{{ username }}")
          (js "Hello ") (js "!"), false).
Proof. vm_compute. reflexivity. Qed.

(** ** Nodes *)

(** The four node types of Contracts. A block node carries its children;
    [Newline] is the node of type [NodeType.NEWLINE]. *)
#[local] Unset Elimination Schemes.
Inductive Node :=
| Raw (value : str) (lineno : nat)
| Newline (lineno : nat)
| Mustache (properties : Props.t) (lineno : nat)
| Block (properties : Props.t) (lineno : nat) (children : list Node).
#[local] Set Elimination Schemes.

(** A block node while it is kept on [openedTags]. *)
Module BlockNode.
Record t := mk {
  properties : Props.t;
  lineno : nat;
  children : list Node
}.
Definition node (b : t) : Node := Block (properties b) (lineno b) (children b).
(** [children.push(tag)] *)
Definition push (tag : Node) (b : t) : t :=
  mk (properties b) (lineno b) (children b ++ [tag]).
End BlockNode.

(** A tag definition, as the tokenizer reads it: every field optional. *)
Module TagDefinition.
Record t := mk {
  block : option bool;
  seekable : option bool;
  escaped : option bool
}.
End TagDefinition.

(** JavaScript truthiness of an optional boolean field. *)
Definition truthy (v : option bool) : bool :=
  match v with
  | Some b => b
  | None => false
  end.

(** ** The regular expressions of the tokenizer *)

(** [\w] *)
Definition is_word (c : ascii) : bool :=
  let n := nat_of_ascii c in
  ((48 <=? n) && (n <=? 57)) || ((65 <=? n) && (n <=? 90))
  || ((97 <=? n) && (n <=? 122)) || (n =? 95).

Fixpoint takeWord (s : str) : str :=
  match s with
  | c :: rest => if is_word c then c :: takeWord rest else []
  | [] => []
  end.

Fixpoint takeSpaces (s : str) : str :=
  match s with
  | c :: rest => if is_space c then c :: takeSpaces rest else []
  | [] => []
  end.

(** [TAG_REGEX.exec(s)] for [/^(\\)?@(?:!)?(\w+)/]: whether group 1, the
    backslash, matched, and group 2, the word. *)
Definition TAG_REGEX (s : str) : option (bool * str) :=
  let '(escaped, s) :=
    match s with
    | c :: rest => if Ascii.eqb c "\" then (true, rest) else (false, s)
    | [] => (false, s)
    end in
  match s with
  | c :: rest =>
      if Ascii.eqb c "@" then
        let rest := match rest with
                    | c' :: rest' => if Ascii.eqb c' "!" then rest' else rest
                    | [] => rest
                    end in
        match takeWord rest with
        | [] => None
        | w => Some (escaped, w)
        end
      else None
  | [] => None
  end.

(** [MUSTACHE_REGEX.test(s)] for [/{{2}/]: two consecutive opening braces
    somewhere in [s]. *)
Fixpoint MUSTACHE_REGEX (s : str) : bool :=
  match s with
  | c :: rest =>
      (Ascii.eqb c "{" && match rest with
                          | c' :: _ => Ascii.eqb c' "{"
                          | [] => false
                          end)
      || MUSTACHE_REGEX rest
  | [] => false
  end.

(** [s.replace(ESCAPE_REGEX, '$1')], where ESCAPE_REGEX is leading
    whitespace (group 1) followed by a backslash: the backslash goes. *)
Definition replace_ESCAPE_REGEX (s : str) : str :=
  match skipSpaces s with
  | c :: rest => if Ascii.eqb c "\" then takeSpaces s ++ rest else s
  | [] => s
  end.

(** [s.replace(TRIM_TAG_REGEX, '')] for [/^@/] *)
Definition replace_TRIM_TAG_REGEX (s : str) : str :=
  match s with
  | c :: rest => if Ascii.eqb c "@" then rest else s
  | [] => s
  end.

(** ** Tokenizer *)

Module Tokenizer.

(** The tokenizer object. [tagsDef] holds exactly the properties that a
    lookup [tagsDef[name]] finds. [openedTags] is the array of open
    block nodes with its last element, the most recently opened tag,
    at the head of the list. *)
Record t := mk {
  tagsDef : gmap str TagDefinition.t;
  tokens : list Node;
  blockStatement : option TagStatement.t;
  mustacheStatement : option MustacheStatement.t;
  line : nat;
  openedTags : list BlockNode.t
}.

Definition new (tagsDef : gmap str TagDefinition.t) : t :=
  {| tagsDef := tagsDef;
     tokens := [];
     blockStatement := None;
     mustacheStatement := None;
     line := 0;
     openedTags := [] |}.

Definition set_tokens (v : list Node) (tk : t) : t :=
  mk (tagsDef tk) v (blockStatement tk) (mustacheStatement tk) (line tk) (openedTags tk).
Definition set_blockStatement (v : option TagStatement.t) (tk : t) : t :=
  mk (tagsDef tk) (tokens tk) v (mustacheStatement tk) (line tk) (openedTags tk).
Definition set_mustacheStatement (v : option MustacheStatement.t) (tk : t) : t :=
  mk (tagsDef tk) (tokens tk) (blockStatement tk) v (line tk) (openedTags tk).
Definition set_line (v : nat) (tk : t) : t :=
  mk (tagsDef tk) (tokens tk) (blockStatement tk) (mustacheStatement tk) v (openedTags tk).
Definition set_openedTags (v : list BlockNode.t) (tk : t) : t :=
  mk (tagsDef tk) (tokens tk) (blockStatement tk) (mustacheStatement tk) (line tk) v.

Definition getTag (tk : t) (line : str) : option TagDefinition.t :=
  match TAG_REGEX (trim line) with
  | None => None
  | Some (escaped, tagName) =>
      match tagsDef tk !! tagName with
      | None => None
      | Some def =>
          if escaped then Some (TagDefinition.mk None None (Some true))
          else Some def
      end
  end.

Definition getTagNode (properties : Props.t) (lineno : nat) : BlockNode.t :=
  BlockNode.mk properties lineno [].

Definition getRawNode (tk : t) (value : str) : Node := Raw value (line tk).

Definition getBlankLineNode (tk : t) : Node := Newline (line tk).

Definition getMustacheNode (properties : MustacheProp.t) (lineno : nat) : Node :=
  Mustache (Props.mk (MustacheProp.name properties) (MustacheProp.jsArg properties)
              (MustacheProp.raw properties)) lineno.

Definition isClosingTag (tk : t) (line : str) : bool :=
  match openedTags tk with
  | [] => false
  | recentTag :: _ =>
      bool_decide (trim line = js "@end" ++ Props.name (BlockNode.properties recentTag))
  end.

Definition consumeNode (tk : t) (tag : Node) : t :=
  match openedTags tk with
  | recentTag :: outer => set_openedTags (BlockNode.push tag recentTag :: outer) tk
  | [] => set_tokens (tokens tk ++ [tag]) tk
  end.

Definition feedTextToBlockStatement (tk : t) (text : str) : result Tokenizer.t :=
  match blockStatement tk with
  | None => Err TypeError
  | Some statement =>
      let* statement := TagStatement.feed statement text in
      let tk := set_blockStatement (Some statement) tk in
      if TagStatement.seeking statement then Ok tk
      else
        let props := TagStatement.props statement in
        let startPosition := TagStatement.startPosition statement in
        match tagsDef tk !! Props.name props with
        | None => Err TypeError
        | Some def =>
            let tk :=
              if truthy (TagDefinition.block def)
              then set_openedTags (getTagNode props startPosition :: openedTags tk) tk
              else consumeNode tk (BlockNode.node (getTagNode props startPosition)) in
            let tk := consumeNode tk (getBlankLineNode tk) in
            Ok (set_blockStatement None tk)
        end
  end.

(** [feedTextToMustacheStatement] ends in a call of [processText] on the
    text right of the statement; that function is the parameter
    [processText] here. *)
Definition feedTextToMustacheStatement
    (processText : Tokenizer.t -> str -> result Tokenizer.t)
    (tk : t) (text : str) : result Tokenizer.t :=
  match mustacheStatement tk with
  | None => Err TypeError
  | Some statement =>
      let* statement := MustacheStatement.feed statement text in
      let tk := set_mustacheStatement (Some statement) tk in
      if MustacheStatement.seeking statement then Ok tk
      else
        let props := MustacheStatement.props statement in
        let startPosition := MustacheStatement.startPosition statement in
        let tk :=
          match MustacheProp.textLeft props with
          | [] => tk
          | _ :: _ => consumeNode tk (Raw (MustacheProp.textLeft props) startPosition)
          end in
        let tk := consumeNode tk (getMustacheNode props startPosition) in
        let tk := set_mustacheStatement None tk in
        match MustacheProp.textRight props with
        | [] => Ok (consumeNode tk (getBlankLineNode tk))
        | _ :: _ => processText tk (MustacheProp.textRight props)
        end
  end.

Definition isSeekingBlock (tk : t) : bool :=
  match blockStatement tk with
  | Some statement => TagStatement.seeking statement
  | None => false
  end.

Definition isSeekingMustache (tk : t) : bool :=
  match mustacheStatement tk with
  | Some statement => MustacheStatement.seeking statement
  | None => false
  end.

(** [processText] calls itself through [feedTextToMustacheStatement];
    [fuel] bounds the depth of these calls. *)
Fixpoint processText (fuel : nat) (tk : t) (text : str) : result Tokenizer.t :=
  match fuel with
  | 0 => Err OutOfFuel
  | S fuel =>
      if isSeekingBlock tk then feedTextToBlockStatement tk text
      else if isSeekingMustache tk then
        feedTextToMustacheStatement (processText fuel) tk text
      else
        match getTag tk text with
        | Some tag =>
            if truthy (TagDefinition.escaped tag) then
              let tk := consumeNode tk (getRawNode tk (replace_ESCAPE_REGEX text)) in
              Ok (consumeNode tk (getBlankLineNode tk))
            else
              let seekable := match TagDefinition.seekable tag with
                              | Some b => b
                              | None => true
                              end in
              let tk := set_blockStatement (Some (TagStatement.new (line tk) seekable)) tk in
              feedTextToBlockStatement tk (replace_TRIM_TAG_REGEX (trim text))
        | None =>
            if isClosingTag tk text then
              match openedTags tk with
              | recentTag :: outer =>
                  let tk := set_openedTags outer tk in
                  let tk := consumeNode tk (BlockNode.node recentTag) in
                  Ok (consumeNode tk (getBlankLineNode tk))
              | [] => Err TypeError
              end
            else if MUSTACHE_REGEX text then
              let tk := set_mustacheStatement (Some (MustacheStatement.new (line tk))) tk in
              feedTextToMustacheStatement (processText fuel) tk text
            else
              let tk := consumeNode tk (getRawNode tk text) in
              Ok (consumeNode tk (getBlankLineNode tk))
        end
  end.

(** One turn of the [while (lines.length)] loop of [parse]. The text
    right of a mustache statement is shorter than the text fed, so
    [S (length text)] calls are enough (see [processText_fuel] and
    [parse_fuel]). *)
Definition processLine (tk : t) (text : str) : result Tokenizer.t :=
  processText (S (length text)) (set_line (line tk + 1) tk) text.

Fixpoint processLines (tk : t) (lines : list str) : result Tokenizer.t :=
  match lines with
  | [] => Ok tk
  | text :: lines =>
      let* tk := processLine tk text in processLines tk lines
  end.

(** The end of [parse]: open statements become raw nodes. *)
Definition flushBlockStatement (tk : t) : t :=
  match blockStatement tk with
  | Some statement =>
      let tk' := consumeNode tk
                  (getRawNode tk ("@"%char :: Props.raw (TagStatement.props statement))) in
      let tk' := set_blockStatement None tk' in
      consumeNode tk' (getBlankLineNode tk')
  | None => tk
  end.

Definition flushMustacheStatement (tk : t) : t :=
  match mustacheStatement tk with
  | Some statement =>
      let props := MustacheStatement.props statement in
      let tk' := set_mustacheStatement None tk in
      let tk' := consumeNode tk'
                  (getRawNode tk' (MustacheProp.textLeft props ++ MustacheProp.raw props
                                  ++ MustacheProp.textRight props)) in
      consumeNode tk' (getBlankLineNode tk')
  | None => tk
  end.

(** [new Tokenizer(template, tagsDef).parse()]; the result is the
    tokenizer, whose [tokens] are the output. *)
Definition parse (template : str) (tagsDef : gmap str TagDefinition.t)
  : result Tokenizer.t :=
  let* tk := processLines (new tagsDef) (splitEOL template) in
  Ok (flushMustacheStatement (flushBlockStatement tk)).

End Tokenizer.

Definition ifDef : gmap str TagDefinition.t :=
  {[ js "if" := TagDefinition.mk (Some true) (Some true) None ]}.

Example parse_hello :
  (let* t := Tokenizer.parse (js "Hello {{ username }}!") ifDef in Ok (Tokenizer.tokens t))
  = Ok [Raw (js "Hello ") 1;
        Mustache (Props.mk (js "mustache") (js " username ") (js "{{ username }}")) 1;
        Raw (js "!") 1; Newline 1].
Proof. vm_compute. reflexivity. Qed.

(** * Properties *)

(** ** CharBucket in CONTROLLED mode *)

Section Controlled.

(** What CONTROLLED mode keeps of [cs] when the character kept before
    was a whitespace character ([prev]) or not. *)
Fixpoint collapseAfter (prev : bool) (cs : str) : str :=
  match cs with
  | [] => []
  | c :: rest =>
      if is_space c && prev then collapseAfter true rest
      else c :: collapseAfter (is_space c) rest
  end.

Lemma collapseRuns_collapseAfter cs :
  collapseRuns cs = collapseAfter false cs
  /\ collapseRuns (skipSpaces cs) = collapseAfter true cs.
Proof.
  induction cs as [|c rest [IH1 IH2]]; [by simp collapseRuns|].
  simpl. simp collapseRuns.
  destruct (is_space c) eqn:Hc; simpl.
  - by rewrite IH2.
  - simp collapseRuns. rewrite Hc. simpl. by rewrite IH1.
Qed.

Lemma feed_controlled b c :
  CharBucket.mode b = CONTROLLED ->
  CharBucket.feed b c =
    if is_space c && whitespace (CharBucket.lastChar b) then b
    else CharBucket.mk CONTROLLED (CharBucket.chars b ++ [c]) (Some c).
Proof.
  intros Hm. unfold CharBucket.feed. rewrite Hm. simpl. done.
Qed.

Lemma feedAll_controlled cs : forall b,
  CharBucket.mode b = CONTROLLED ->
  CharBucket.mode (CharBucket.feedAll b cs) = CONTROLLED
  /\ CharBucket.chars (CharBucket.feedAll b cs)
     = CharBucket.chars b ++ collapseAfter (whitespace (CharBucket.lastChar b)) cs.
Proof.
  induction cs as [|c rest IH]; intros b Hm; simpl.
  - by rewrite app_nil_r.
  - rewrite (feed_controlled _ _ Hm).
    destruct (is_space c) eqn:Hc, (whitespace (CharBucket.lastChar b)) eqn:Hl; simpl.
    + destruct (IH b Hm) as [-> ->]. by rewrite Hl.
    + edestruct IH as [-> ->]; [done|]. simpl. rewrite Hc. by rewrite <- app_assoc.
    + edestruct IH as [-> ->]; [done|]. simpl. rewrite Hc. by rewrite <- app_assoc.
    + edestruct IH as [-> ->]; [done|]. simpl. rewrite Hc. by rewrite <- app_assoc.
Qed.

Lemma feedAll_app b xs ys :
  CharBucket.feedAll b (xs ++ ys) = CharBucket.feedAll (CharBucket.feedAll b xs) ys.
Proof. apply fold_left_app. Qed.

Lemma feedAll_lastChar cs : forall b,
  CharBucket.mode b = CONTROLLED ->
  CharBucket.lastChar b = last (CharBucket.chars b) ->
  CharBucket.lastChar (CharBucket.feedAll b cs)
  = last (CharBucket.chars (CharBucket.feedAll b cs)).
Proof.
  induction cs as [|c rest IH]; intros b Hm Hl; simpl; [done|].
  apply IH.
  - rewrite (feed_controlled _ _ Hm). by destruct (_ && _).
  - rewrite (feed_controlled _ _ Hm). destruct (_ && _); [done|].
    simpl. by rewrite last_snoc.
Qed.

Lemma get_feedAll_controlled cs :
  CharBucket.get (CharBucket.feedAll (CharBucket.new CONTROLLED) cs) = collapseRuns cs.
Proof.
  unfold CharBucket.get.
  destruct (feedAll_controlled cs (CharBucket.new CONTROLLED) eq_refl) as [_ ->].
  simpl. by destruct (collapseRuns_collapseAfter cs) as [-> _].
Qed.

End Controlled.

(** C8. A bucket in CONTROLLED mode that was fed [xs] and then, in later
    calls, [ys], holds [xs ++ ys] with every maximal run of whitespace
    characters replaced by its first character. The bucket remembers the
    last character it kept, and drops a character exactly when that
    character and the one kept before it are both whitespace. *)
Theorem C8_controlled_collapses_runs (xs ys : str) (c : ascii) :
  let b := CharBucket.feedAll (CharBucket.new CONTROLLED) xs in
  CharBucket.get (CharBucket.feedAll b ys) = collapseRuns (xs ++ ys)
  /\ CharBucket.lastChar b = last (CharBucket.get b)
  /\ CharBucket.get (CharBucket.feed b c)
     = if is_space c && whitespace (last (CharBucket.get b))
       then CharBucket.get b
       else CharBucket.get b ++ [c].
Proof.
  intros b.
  assert (Hm : CharBucket.mode b = CONTROLLED)
    by apply (feedAll_controlled xs (CharBucket.new CONTROLLED) eq_refl).
  assert (Hl : CharBucket.lastChar b = last (CharBucket.get b))
    by (apply feedAll_lastChar; done).
  split; [|split; [done|]].
  - unfold b. rewrite <- feedAll_app. apply get_feedAll_controlled.
  - rewrite (feed_controlled _ _ Hm), <- Hl.
    by destruct (_ && _).
Qed.

(** ** TagStatement: [seeking] *)

(** The states a tag statement goes through: a fresh statement, and any
    statement that a call of [feed] returns. *)
Inductive tag_reachable : TagStatement.t -> Prop :=
| tag_reach_new startPosition seekable :
    tag_reachable (TagStatement.new startPosition seekable)
| tag_reach_feed s line s' :
    tag_reachable s ->
    TagStatement.feed s line = Ok s' ->
    tag_reachable s'.

Section TagFlags.

Import TagStatement.

(** [ended] is only ever set on a statement that is [started]. *)
Definition ended_started (s : t) : Prop := ended s = true -> started s = true.

Lemma setProp_flags s s' :
  setProp s = Ok s' -> started s' = started s /\ ended s' = ended s.
Proof. unfold setProp. destruct (internalProps s); intros; by simplify_eq. Qed.

Lemma startStatement_flags s s' :
  startStatement s = Ok s' -> started s' = true /\ ended s' = ended s.
Proof.
  unfold startStatement. destruct (setProp s) as [s1|] eqn:H1; simpl; [|done].
  intros. simplify_eq. apply setProp_flags in H1 as [_ <-]. done.
Qed.

Lemma feedChar_flags s c n s' :
  feedChar s c n = Ok s' -> started s' = started s /\ ended s' = ended s.
Proof.
  unfold feedChar. intros H.
  repeat case_match; simplify_eq; done.
Qed.

Lemma endStatement_flags s c s' :
  endStatement s c = Ok s' -> started s' = true /\ ended s' = true.
Proof.
  unfold endStatement. destruct (started s) eqn:Hs; simpl; [|done].
  destruct (setProp _) as [s1|] eqn:H1; simpl; [|done].
  intros. simplify_eq. apply setProp_flags in H1 as [H2 H3]. simpl in *.
  by rewrite H2, H3, Hs.
Qed.

Lemma feedSeekableChars_ended_started chars : forall s s',
  feedSeekableChars s chars = Ok s' -> ended_started s -> ended_started s'.
Proof.
  induction chars as [|c chars IH]; intros s s' H Hinv; simpl in H.
  - by simplify_eq.
  - destruct (isStartOfStatement _ _).
    + destruct (startStatement s) as [s1|] eqn:H1; simpl in H; [|done].
      apply (IH _ _ H). apply startStatement_flags in H1 as [H1 _].
      by intros _.
    + destruct (isEndOfStatement _ _).
      * destruct (ensureNoMoreCharsToFeed chars); simpl in H; [|done].
        apply endStatement_flags in H as [H _]. by intros _.
      * destruct (feedChar _ _ _) as [s1|] eqn:H1; simpl in H; [|done].
        apply (IH _ _ H). apply feedChar_flags in H1 as [H1 H2].
        unfold ended_started. by rewrite H1, H2.
Qed.

Lemma feed_ended_started s line s' :
  feed s line = Ok s' -> ended_started s -> ended_started s'.
Proof.
  unfold feed. destruct (ended s) eqn:He; [done|].
  destruct (negb (seekable _)).
  - intros. simplify_eq. by intros _.
  - unfold feedSeekable.
    destruct (feedSeekableChars _ _) as [s1|] eqn:H1; simpl; [|done].
    intros H Hinv. simplify_eq.
    assert (ended_started s1) as H2.
    { apply (feedSeekableChars_ended_started _ _ _ H1).
      unfold ended_started, recordRaw. destruct (Props.raw _); simpl; by rewrite He. }
    by destruct (negb (seeking s1)).
Qed.

Lemma tag_reachable_ended_started s : tag_reachable s -> ended_started s.
Proof.
  induction 1 as [|s line s' _ IH H]; [done|].
  by apply (feed_ended_started _ _ _ H).
Qed.

End TagFlags.

(** C3 (as amended). In every state a tag statement goes through,
    [seeking] is true exactly when the statement is not both started and
    ended; an ended statement is always started, so [seeking] is the
    negation of [ended], and a statement that has not started yet is
    seeking. *)
Theorem C3_seeking_until_ended (s : TagStatement.t) :
  tag_reachable s ->
  TagStatement.seeking s = negb (TagStatement.started s && TagStatement.ended s)
  /\ TagStatement.seeking s = negb (TagStatement.ended s)
  /\ (TagStatement.started s = false -> TagStatement.seeking s = true).
Proof.
  intros Hr. apply tag_reachable_ended_started in Hr.
  unfold ended_started, TagStatement.seeking in *.
  destruct (TagStatement.started s), (TagStatement.ended s); simpl in *; auto.
  by specialize (Hr eq_refl).
Qed.

Lemma C3_seeking_until_ended_witness :
  tag_reachable (TagStatement.new 1 true)
  /\ TagStatement.seeking (TagStatement.new 1 true) = true.
Proof.
  split; [constructor|].
  destruct (C3_seeking_until_ended (TagStatement.new 1 true)
              (tag_reach_new 1 true)) as (_ & H & _).
  rewrite H. reflexivity.
Defined.

(** C3 as stated fails on a fresh statement, which is neither started
    nor ended and yet seeking. *)
Lemma C3_counterexample :
  ~ (forall s, tag_reachable s ->
       TagStatement.seeking s
       = TagStatement.started s && negb (TagStatement.ended s)).
Proof.
  intros H. specialize (H (TagStatement.new 1 true) (tag_reach_new 1 true)).
  vm_compute in H. discriminate.
Qed.

(** The compiled getter of build/TagStatement/index.js is
    [started && !ended]; the getter of the source is not. *)
Lemma seeking_build_vs_source :
  (forall s, TagStatementBuild.seeking s
             = TagStatement.started s && negb (TagStatement.ended s))
  /\ TagStatementBuild.seeking (TagStatement.new 1 true)
     <> TagStatement.seeking (TagStatement.new 1 true).
Proof. split; [done|]. vm_compute. discriminate. Qed.

(** ** TagStatement: characters after the closing parenthesis *)

Section TagTrailing.

Import TagStatement.

(** After the characters [pre] the statement [s] has become [s1]: it
    has not ended, and its parenthesis counter is zero, so that a [)]
    coming next is the end of the statement. *)
Definition closesAfter (s : t) (pre : str) (s1 : t) : Prop :=
  feedSeekableChars s pre = Ok s1
  /\ ended s1 = false
  /\ internalParens s1 = 0%Z.

Lemma isEndOfStatement_spec s c :
  isEndOfStatement s (nat_of_ascii c) = true
  <-> c = ")"%char /\ internalParens s = 0%Z.
Proof.
  unfold isEndOfStatement, CLOSING_BRACE.
  rewrite andb_true_iff, Nat.eqb_eq, Z.eqb_eq.
  split; intros [H1 H2]; split; try done.
  - rewrite <- (ascii_nat_embedding c), H1. reflexivity.
  - by subst.
Qed.

Lemma startStatement_error s e : startStatement s = Err e -> e = TypeError.
Proof.
  unfold startStatement, setProp. destruct (internalProps s); simpl; congruence.
Qed.

Lemma feedChar_error s c n e : feedChar s c n = Err e -> e = TypeError.
Proof.
  unfold feedChar. intros H. repeat case_match; simplify_eq; done.
Qed.

Lemma endStatement_error s c e :
  endStatement s c = Err e -> e = TypeError \/ e = WrapStatement c.
Proof.
  unfold endStatement, setProp. destruct (negb (started s)); [naive_solver|].
  simpl. destruct (internalProps s); simpl; naive_solver.
Qed.

Lemma trailing_only_after_closing chars : forall s rest,
  ended s = false ->
  feedSeekableChars s chars = Err (WriteInNewLine rest) ->
  rest <> [] /\ exists pre s1, chars = pre ++ ")"%char :: rest /\ closesAfter s pre s1.
Proof.
  induction chars as [|c chars IH]; intros s rest He H; simpl in H; [done|].
  destruct (isStartOfStatement _ _) eqn:Hstart.
  - destruct (startStatement s) as [s1|] eqn:H1; simpl in H;
      [|simplify_eq; by apply startStatement_error in H1].
    pose proof (startStatement_flags _ _ H1) as [_ He1].
    destruct (IH s1 rest) as (Hne & pre & s2 & -> & Hc & ?); [congruence|done|].
    split; [done|]. exists (c :: pre), s2. split; [done|].
    split; [|done]. simpl. by rewrite Hstart, H1.
  - destruct (isEndOfStatement _ _) eqn:Hend.
    + apply isEndOfStatement_spec in Hend as [-> Hp].
      destruct chars as [|c' chars]; simpl in H.
      * by apply endStatement_error in H as [?|?].
      * simplify_eq. split; [done|]. exists [], s. by repeat split.
    + destruct (feedChar _ _ _) as [s1|] eqn:H1; simpl in H;
        [|simplify_eq; by apply feedChar_error in H1].
      pose proof (feedChar_flags _ _ _ _ H1) as [_ He1].
      destruct (IH s1 rest) as (Hne & pre & s2 & -> & Hc & ?); [congruence|done|].
      split; [done|]. exists (c :: pre), s2. split; [done|].
      split; [|done]. simpl. by rewrite Hstart, Hend, H1.
Qed.

Lemma feedSeekableChars_closing pre : forall s s1 rest,
  ended s = false ->
  closesAfter s pre s1 ->
  feedSeekableChars s (pre ++ ")"%char :: rest)
  = let* _ := ensureNoMoreCharsToFeed rest in endStatement s1 ")".
Proof.
  induction pre as [|c pre IH]; intros s s1 rest He (Hf & He1 & Hp); simpl in Hf |- *.
  - simplify_eq.
    assert (isEndOfStatement s1 (nat_of_ascii ")") = true) as Hend
      by by apply isEndOfStatement_spec.
    by rewrite Hend.
  - destruct (isStartOfStatement _ _).
    + destruct (startStatement s) as [s2|] eqn:H2; simpl in Hf |- *; [|done].
      pose proof (startStatement_flags _ _ H2) as [_ He2].
      apply IH; [congruence|done].
    + destruct (isEndOfStatement _ _).
      * exfalso. destruct (ensureNoMoreCharsToFeed pre); simpl in Hf; [|done].
        apply endStatement_flags in Hf as [_ Hf]. congruence.
      * destruct (feedChar _ _ _) as [s2|] eqn:H2; simpl in Hf |- *; [|done].
        pose proof (feedChar_flags _ _ _ _ H2) as [_ He2].
        apply IH; [congruence|done].
Qed.

Lemma recordRaw_flags s line :
  ended (recordRaw s line) = ended s
  /\ seekable (recordRaw s line) = seekable s.
Proof. unfold recordRaw. by destruct (Props.raw _). Qed.

End TagTrailing.

(** C4 (as amended). A seekable tag statement that has not ended raises
    the error "Write in a new line" on a line exactly when a [)] met with
    the parenthesis counter at zero, the [)] that ends the statement, is
    followed by at least one character on that line, whitespace or not;
    the error names these characters. When nothing follows the [)] of a
    started statement, [feed] returns and the statement has ended. *)
Theorem C4_trailing_characters (s : TagStatement.t) (line rest : str) :
  TagStatement.seekable s = true ->
  TagStatement.ended s = false ->
  (TagStatement.feed s line = Err (WriteInNewLine rest)
   <-> rest <> [] /\
       exists pre s1, line = pre ++ ")"%char :: rest
                      /\ closesAfter (TagStatement.recordRaw s line) pre s1)
  /\ (forall pre s1,
        line = pre ++ [")"%char] ->
        closesAfter (TagStatement.recordRaw s line) pre s1 ->
        TagStatement.started s1 = true ->
        TagStatement.internalProps s1 <> None ->
        exists s', TagStatement.feed s line = Ok s'
                   /\ TagStatement.ended s' = true
                   /\ TagStatement.seeking s' = false).
Proof.
  intros Hseek He.
  destruct (recordRaw_flags s line) as [He' Hseek'].
  unfold TagStatement.feed. rewrite He, Hseek', Hseek. simpl.
  unfold TagStatement.feedSeekable.
  split; [split|].
  - destruct (TagStatement.feedSeekableChars _ _) as [s1|e] eqn:H1; simpl; [done|].
    intros. simplify_eq.
    apply (trailing_only_after_closing _ _ _ (eq_trans He' He) H1).
  - intros (Hne & pre & s1 & -> & Hc).
    rewrite (feedSeekableChars_closing pre _ s1 rest); [|congruence|done].
    destruct rest; done.
  - intros pre s1 -> Hc Hst Hip.
    rewrite (feedSeekableChars_closing pre _ s1 []); [|congruence|done].
    simpl. unfold TagStatement.endStatement, TagStatement.setProp.
    rewrite Hst. simpl.
    destruct (TagStatement.internalProps s1); [|done]. simpl.
    unfold TagStatement.seeking. simpl. rewrite Hst. simpl.
    eexists. split; [done|]. simpl. by rewrite Hst.
Qed.

Lemma C4_trailing_characters_witness :
  TagStatement.feed (TagStatement.new 1 true) (js "if(x) ") = Err (WriteInNewLine (js " ")).
Proof.
  apply (C4_trailing_characters (TagStatement.new 1 true) (js "if(x) ") (js " ")
           eq_refl eq_refl).
  split; [discriminate|].
  exists (js "if(x"). eexists. split; [reflexivity|].
  split; [vm_compute; reflexivity|]. split; reflexivity.
Defined.

(** C4 as stated fails: the character after the closing parenthesis of
    [if(x) ] is a space, and [feed] raises the error all the same. *)
Lemma C4_counterexample :
  exists rest,
    TagStatement.feed (TagStatement.new 1 true) (js "if(x) ") = Err (WriteInNewLine rest)
    /\ forallb is_space rest = true.
Proof. exists (js " "). split; vm_compute; reflexivity. Qed.

(** ** MustacheStatement: a closing brace that does not close *)

(** Whether [chars], the characters after a [}], complete the closing
    delimiter of a statement called [name]: one more [}] for a mustache,
    two more for an emustache. *)
Definition closingRun (name chars : str) : bool :=
  if MustacheStatement.str_eqb name MustacheStatement.emustache then
    match chars with
    | next :: nextToNext :: _ => Ascii.eqb next "}" && Ascii.eqb nextToNext "}"
    | _ => false
    end
  else if MustacheStatement.str_eqb name MustacheStatement.mustache then
    match chars with
    | next :: _ => Ascii.eqb next "}"
    | _ => false
    end
  else false.

Section MustacheClosing.

Import MustacheStatement.

Lemma closing_code c : (nat_of_ascii c =? CLOSING_BRACE) = Ascii.eqb c "}".
Proof.
  destruct (Ascii.eqb_spec c "}") as [->|Hne]; [reflexivity|].
  apply Nat.eqb_neq. intros H. apply Hne.
  rewrite <- (ascii_nat_embedding c), H. reflexivity.
Qed.

Lemma isClosing_spec s chars :
  isClosing s chars (nat_of_ascii "}") =
    if (internalBraces s =? 0)%Z && closingRun (MustacheProp.name (props s)) chars
    then (true,
          if str_eqb (MustacheProp.name (props s)) emustache
          then drop 2 chars else drop 1 chars,
          appendRaw (if str_eqb (MustacheProp.name (props s)) emustache
                     then js "}}" else js "}") s)
    else (false, chars, s).
Proof.
  unfold isClosing, closingRun.
  change (nat_of_ascii "}" =? CLOSING_BRACE) with true.
  destruct (internalBraces s =? 0)%Z; [|done].
  cbn [negb orb andb].
  destruct (str_eqb _ emustache) eqn:Hn.
  - apply bool_decide_eq_true in Hn. rewrite Hn.
    change (str_eqb emustache mustache) with false.
    destruct chars as [|a [|b chars]]; try done.
    rewrite !closing_code. cbn [length Nat.leb andb drop].
    by destruct (Ascii.eqb a "}" && Ascii.eqb b "}").
  - cbn [andb]. destruct (str_eqb _ mustache); [|done].
    destruct chars as [|a chars]; [done|].
    rewrite closing_code. cbn [length Nat.leb andb drop].
    by destruct (Ascii.eqb a "}").
Qed.

(** The statement as [processChar] sees it once the character has been
    recorded in [raw]. *)
Definition recorded (s : t) (char : ascii) : t :=
  match currentProp s with
  | jsArg => appendRaw [char] s
  | _ => s
  end.

Lemma recorded_fields s c :
  started (recorded s c) = started s
  /\ ended (recorded s c) = ended s
  /\ internalBraces (recorded s c) = internalBraces s
  /\ internalProps (recorded s c) = internalProps s
  /\ currentProp (recorded s c) = currentProp s
  /\ MustacheProp.name (props (recorded s c)) = MustacheProp.name (props s).
Proof.
  unfold recorded. destruct (currentProp s) eqn:E; simpl; by rewrite ?E.
Qed.

Lemma processChar_closing_brace s chars :
  started s = true -> ended s = false ->
  processChar s chars "}" =
    let s0 := recorded s "}" in
    if (internalBraces s =? 0)%Z && closingRun (MustacheProp.name (props s)) chars
    then
      let* s1 := setProp (appendRaw (if str_eqb (MustacheProp.name (props s)) emustache
                                     then js "}}" else js "}") s0) in
      Ok (set_ended true (set_currentProp textRight s1),
          if str_eqb (MustacheProp.name (props s)) emustache
          then drop 2 chars else drop 1 chars)
    else
      let* s1 := feedBucket (set_internalBraces (internalBraces s - 1)%Z s0) "}" in
      Ok (s1, chars).
Proof.
  intros Hst He. unfold processChar. fold (recorded s "}").
  destruct (recorded_fields s "}") as (H1 & H2 & H3 & H4 & H5 & H6).
  rewrite H1, Hst. simpl negb. cbv iota.
  rewrite H1, H2, Hst, He. simpl andb. cbv iota.
  rewrite isClosing_spec, H3, H6.
  destruct (_ && _); [done|].
  change (nat_of_ascii "}" =? CLOSING_BRACE) with true.
  change (nat_of_ascii "}" =? OPENING_BRACE) with false.
  cbv iota. by rewrite H3.
Qed.

End MustacheClosing.

Section MustacheLoop.

Import MustacheStatement.

(** The loop of [feed], one turn unfolded. *)
Lemma feedChars_cons s char chars :
  feedChars s (char :: chars) =
    match processChar s chars char with
    | Ok (s', chars') => feedChars s' chars'
    | Err e => Err e
    end.
Proof.
  simp feedChars. unfold inspect.
  enough (forall r (H : processChar s chars char = r),
             feedChars_unfold_clause_2 s char chars (r ↾ H) =
             match r with
             | Ok (s', chars') => feedChars s' chars'
             | Err e => Err e
             end) as X by apply X.
  intros [[s' chars']|e] H; by simp feedChars.
Qed.

Lemma feedChars_nil s : feedChars s [] = Ok s.
Proof. by simp feedChars. Qed.

(** The counting of braces in [processChar]. *)
Definition countBrace (char : ascii) (s : t) : t :=
  let s := if nat_of_ascii char =? OPENING_BRACE
           then set_internalBraces (internalBraces s + 1)%Z s else s in
  if nat_of_ascii char =? CLOSING_BRACE
  then set_internalBraces (internalBraces s - 1)%Z s else s.

Lemma isClosing_not_zero s chars code :
  internalBraces s <> 0%Z -> isClosing s chars code = (false, chars, s).
Proof.
  intros H. unfold isClosing. apply Z.eqb_neq in H. rewrite H.
  by rewrite orb_true_r.
Qed.

(** While the counter is not zero, a started statement feeds every
    character to the current bucket. *)
Lemma processChar_not_zero s chars char :
  started s = true -> internalBraces s <> 0%Z ->
  processChar s chars char =
    let* s1 := feedBucket (countBrace char (recorded s char)) char in
    Ok (s1, chars).
Proof.
  intros Hst Hb. unfold processChar. fold (recorded s char).
  destruct (recorded_fields s char) as (H1 & H2 & H3 & H4 & H5 & H6).
  rewrite H1, Hst. simpl negb. cbv iota.
  rewrite H1, Hst.
  destruct (true && negb (ended (recorded s char))); [|done].
  rewrite isClosing_not_zero by congruence. done.
Qed.

Lemma countBrace_fields char s :
  started (countBrace char s) = started s
  /\ ended (countBrace char s) = ended s
  /\ internalProps (countBrace char s) = internalProps s.
Proof. unfold countBrace. by repeat case_match. Qed.

Lemma countBrace_not_opening char s :
  char <> "{"%char ->
  (internalBraces (countBrace char s) <= internalBraces s)%Z.
Proof.
  intros Hc. unfold countBrace.
  destruct (nat_of_ascii char =? OPENING_BRACE) eqn:Ho.
  - exfalso. apply Hc. apply Nat.eqb_eq in Ho.
    rewrite <- (ascii_nat_embedding char), Ho. reflexivity.
  - destruct (_ =? CLOSING_BRACE); simpl; lia.
Qed.

Lemma feedBucket_fields s char ip :
  internalProps s = Some ip ->
  exists s' ip',
    feedBucket s char = Ok s'
    /\ started s' = started s /\ ended s' = ended s
    /\ internalBraces s' = internalBraces s
    /\ internalProps s' = Some ip'.
Proof.
  intros H. unfold feedBucket. rewrite H. by repeat eexists.
Qed.

(** Below zero, and with no opening brace to come, the statement stays
    open whatever is fed. *)
Lemma feedChars_below_zero chars : forall s ip,
  started s = true -> ended s = false -> internalProps s = Some ip ->
  (internalBraces s < 0)%Z ->
  "{"%char ∉ chars ->
  exists s', feedChars s chars = Ok s' /\ seeking s' = true
             /\ (internalBraces s' < 0)%Z.
Proof.
  induction chars as [|c chars IH]; intros s ip Hst He Hip Hb Hno.
  - exists s. rewrite feedChars_nil. unfold seeking. by rewrite Hst, He.
  - rewrite feedChars_cons, processChar_not_zero by (done || lia).
    destruct (recorded_fields s c) as (H1 & H2 & H3 & H4 & H5 & H6).
    destruct (countBrace_fields c (recorded s c)) as (G1 & G2 & G3).
    assert (c <> "{"%char) as Hc by (intros ->; apply Hno; left).
    pose proof (countBrace_not_opening c (recorded s c) Hc) as Hle.
    destruct (feedBucket_fields (countBrace c (recorded s c)) c ip)
      as (s1 & ip1 & -> & F1 & F2 & F3 & F4); [congruence|].
    simpl. apply (IH s1 ip1); try congruence; try lia.
    intros Hin. apply Hno. by right.
Qed.

End MustacheLoop.

(** A statement that has read its opening braces and a little more. *)
Definition afterOpening : MustacheStatement.t :=
  MustacheStatement.mk 1 true false
    (MustacheProp.mk MustacheStatement.mustache [] (js "{{ a ") [] [])
    MustacheStatement.jsArg 0%Z
    (Some (MustacheStatement.mkInternal
             (CharBucket.mk CONTROLLED (js " a ") (Some " "%char))
             (CharBucket.new ALL) (CharBucket.new ALL))).

Example afterOpening_fed :
  MustacheStatement.feed (MustacheStatement.new 1) (js "{{ a ") = Ok afterOpening.
Proof. vm_compute. reflexivity. Qed.

(** C5 (as amended). In a mustache statement that has started and not
    ended, a [}] met while the brace counter is zero and not followed by
    the rest of the closing run does not end the statement: the closing is
    rejected, the [}] is counted, which leaves the counter at -1, and
    scanning goes on with the characters after it. While the counter is
    not zero a [}] never ends the statement, whatever follows it, and
    below zero the statement stays open for as long as no [{] is fed: a
    later complete closing run ends it only after an opening brace has
    brought the counter back to zero. *)
Theorem C5_rejected_closing (s : MustacheStatement.t) (chars : str)
    (ip : MustacheStatement.InternalProps) :
  MustacheStatement.started s = true ->
  MustacheStatement.ended s = false ->
  MustacheStatement.internalProps s = Some ip ->
  (MustacheStatement.internalBraces s = 0%Z ->
   closingRun (MustacheProp.name (MustacheStatement.props s)) chars = false ->
   exists s', MustacheStatement.processChar s chars "}" = Ok (s', chars)
              /\ MustacheStatement.seeking s' = true
              /\ MustacheStatement.internalBraces s' = (-1)%Z)
  /\ (MustacheStatement.internalBraces s <> 0%Z ->
      exists s', MustacheStatement.processChar s chars "}" = Ok (s', chars)
                 /\ MustacheStatement.seeking s' = true
                 /\ MustacheStatement.internalBraces s'
                    = (MustacheStatement.internalBraces s - 1)%Z)
  /\ ((MustacheStatement.internalBraces s < 0)%Z ->
      "{"%char ∉ chars ->
      exists s', MustacheStatement.feedChars s chars = Ok s'
                 /\ MustacheStatement.seeking s' = true).
Proof.
  intros Hst He Hip.
  destruct (recorded_fields s "}") as (H1 & H2 & H3 & H4 & H5 & H6).
  assert (forall s0, s0 = countBrace "}" (recorded s "}") ->
            exists s', MustacheStatement.feedBucket s0 "}" = Ok s'
              /\ MustacheStatement.seeking s' = true
              /\ MustacheStatement.internalBraces s'
                 = (MustacheStatement.internalBraces s - 1)%Z) as Hfeed.
  { intros s0 ->.
    destruct (countBrace_fields "}" (recorded s "}")) as (G1 & G2 & G3).
    destruct (feedBucket_fields (countBrace "}" (recorded s "}")) "}" ip)
      as (s1 & ip1 & -> & F1 & F2 & F3 & F4); [congruence|].
    exists s1. split; [done|]. unfold MustacheStatement.seeking.
    rewrite F1, F2, G1, G2, H1, H2, Hst, He, F3. split; [done|].
    unfold countBrace. simpl. by rewrite H3. }
  split; [|split].
  - intros Hz Hrun.
    rewrite processChar_closing_brace, Hrun, andb_false_r by done. simpl.
    destruct (Hfeed _ eq_refl) as (s' & Hf & ? & Hb).
    unfold countBrace in Hf. simpl in Hf. rewrite H3 in Hf. rewrite Hf. simpl.
    exists s'. rewrite Hb, Hz. done.
  - intros Hnz.
    rewrite processChar_not_zero by done.
    destruct (Hfeed _ eq_refl) as (s' & -> & ? & Hb). simpl. by exists s'.
  - intros Hneg Hno.
    destruct (feedChars_below_zero chars s ip) as (s' & ? & ? & _); try done.
    by exists s'.
Qed.

Lemma C5_rejected_closing_witness :
  exists s', MustacheStatement.processChar afterOpening (js " b }}") "}"
             = Ok (s', js " b }}")
             /\ MustacheStatement.seeking s' = true
             /\ MustacheStatement.internalBraces s' = (-1)%Z.
Proof.
  destruct (C5_rejected_closing afterOpening (js " b }}") _ eq_refl eq_refl eq_refl)
    as (Hzero & _ & _).
  exact (Hzero eq_refl eq_refl).
Defined.

(** C5 as stated fails: after the stray [}] of [{{ a } b }}] the
    complete closing run at the end of the line does not end the
    statement, which is still seeking when the line has been read. *)
Lemma C5_counterexample :
  exists s, MustacheStatement.feed (MustacheStatement.new 1) (js "{{ a } b }}") = Ok s
            /\ MustacheStatement.ended s = false
            /\ MustacheStatement.seeking s = true
            /\ MustacheStatement.internalBraces s = (-3)%Z.
Proof. eexists. vm_compute. repeat split; reflexivity. Qed.

(** ** Tokenizer: plain text *)

(** The nodes of lines of plain text, the first of them on line [n]. *)
Fixpoint rawLines (n : nat) (lines : list str) : list Node :=
  match lines with
  | [] => []
  | text :: lines => Raw text n :: Newline n :: rawLines (S n) lines
  end.

(** A line of plain text for the tag table [tagsDef]: it does not begin
    with a known tag, escaped or not, and holds no [{{]. *)
Definition plainLine (tagsDef : gmap str TagDefinition.t) (text : str) : Prop :=
  Tokenizer.getTag (Tokenizer.new tagsDef) text = None
  /\ MUSTACHE_REGEX text = false.

Section PlainText.

Import Tokenizer.

Lemma getTag_tagsDef tk text : getTag tk text = getTag (new (tagsDef tk)) text.
Proof. reflexivity. Qed.

Lemma processLine_plain td acc n text :
  plainLine td text ->
  processLine (mk td acc None None n []) text
  = Ok (mk td (acc ++ [Raw text (n + 1); Newline (n + 1)]) None None (n + 1) []).
Proof.
  intros [Htag Hm]. unfold processLine, processText.
  unfold isSeekingBlock, isSeekingMustache. simpl.
  rewrite getTag_tagsDef. simpl. rewrite Htag, Hm.
  unfold isClosingTag, consumeNode. simpl.
  by rewrite <- app_assoc.
Qed.

Lemma processLines_plain td lines : forall acc n,
  Forall (plainLine td) lines ->
  processLines (mk td acc None None n []) lines
  = Ok (mk td (acc ++ rawLines (n + 1) lines) None None (n + length lines) []).
Proof.
  induction lines as [|text lines IH]; intros acc n Hall; simpl.
  - by rewrite app_nil_r, Nat.add_0_r.
  - inversion Hall as [|? ? H1 H2]; subst.
    rewrite processLine_plain by done. simpl.
    rewrite IH by done. rewrite <- app_assoc. simpl.
    replace (n + 1 + 1) with (S (n + 1)) by lia.
    by replace (n + 1 + length lines) with (n + S (length lines)) by lia.
Qed.

End PlainText.

(** C1. When no line of the template begins with a known tag and no line
    holds [{{], [parse] returns, and its tokens are, line after line, a
    raw node with the text of the line unchanged and a newline node. *)
Theorem C1_plain_lines (template : str) (tagsDef : gmap str TagDefinition.t) :
  Forall (plainLine tagsDef) (splitEOL template) ->
  exists tk, Tokenizer.parse template tagsDef = Ok tk
             /\ Tokenizer.tokens tk = rawLines 1 (splitEOL template)
             /\ Tokenizer.openedTags tk = [].
Proof.
  intros Hall. unfold Tokenizer.parse, Tokenizer.new.
  rewrite (processLines_plain tagsDef _ [] 0 Hall). simpl.
  eexists. split; [reflexivity|]. done.
Qed.

Lemma C1_plain_lines_witness :
  exists tk, Tokenizer.parse (js "Hello" ++ EOL :: js "  world @ { {") ifDef = Ok tk
             /\ Tokenizer.tokens tk
                = [Raw (js "Hello") 1; Newline 1; Raw (js "  world @ { {") 2; Newline 2]
             /\ Tokenizer.openedTags tk = [].
Proof.
  apply (C1_plain_lines (js "Hello" ++ EOL :: js "  world @ { {") ifDef).
  repeat constructor.
Defined.

(** ** Tokenizer: the end of the input *)

(** Handing nodes to [consumeNode], one after the other. *)
Definition emit (tk : Tokenizer.t) (nodes : list Node) : Tokenizer.t :=
  fold_left Tokenizer.consumeNode nodes tk.

Lemma emit_cons tk node nodes :
  emit tk (node :: nodes) = emit (Tokenizer.consumeNode tk node) nodes.
Proof. reflexivity. Qed.

Arguments emit : simpl never.

Section EndOfInput.

Import Tokenizer.

Lemma emit_tokens tk nodes :
  openedTags tk = [] -> tokens (emit tk nodes) = tokens tk ++ nodes.
Proof.
  revert tk. induction nodes as [|n nodes IH]; intros tk H.
  - unfold emit. simpl. by rewrite app_nil_r.
  - rewrite emit_cons, IH; unfold consumeNode; rewrite H; simpl; [|done].
    by rewrite <- app_assoc.
Qed.

Lemma emit_openedTags_nil tk nodes :
  openedTags tk = [] -> openedTags (emit tk nodes) = [].
Proof.
  revert tk. induction nodes as [|n nodes IH]; intros tk H; [done|].
  rewrite emit_cons. apply IH. unfold consumeNode. by rewrite H.
Qed.

Lemma emit_opened tk nodes :
  openedTags tk <> [] ->
  tokens (emit tk nodes) = tokens tk
  /\ length (openedTags (emit tk nodes)) = length (openedTags tk).
Proof.
  revert tk. induction nodes as [|n nodes IH]; intros tk H; [done|].
  rewrite emit_cons.
  destruct (openedTags tk) as [|b bs] eqn:Hb; [done|].
  destruct (IH (consumeNode tk n)) as [-> ->];
    unfold consumeNode; rewrite Hb; simpl; done.
Qed.

Lemma flushBlockStatement_emit tk b :
  blockStatement tk = Some b ->
  flushBlockStatement tk
  = emit (set_blockStatement None tk)
      [Raw ("@"%char :: Props.raw (TagStatement.props b)) (line tk); Newline (line tk)].
Proof.
  intros H. unfold flushBlockStatement, emit. rewrite H.
  destruct tk as [td toks bs ms ln [|top outer]]; reflexivity.
Qed.

Lemma flushMustacheStatement_emit tk m :
  mustacheStatement tk = Some m ->
  flushMustacheStatement tk
  = emit (set_mustacheStatement None tk)
      [Raw (MustacheProp.textLeft (MustacheStatement.props m)
            ++ MustacheProp.raw (MustacheStatement.props m)
            ++ MustacheProp.textRight (MustacheStatement.props m)) (line tk);
       Newline (line tk)].
Proof.
  intros H. unfold flushMustacheStatement, emit. rewrite H.
  destruct tk as [td toks bs ms ln [|top outer]]; reflexivity.
Qed.

End EndOfInput.

(** ** Tokenizer: the steps of [processText] *)

Section Steps.

Import Tokenizer.

Lemma consumeNode_fields tk node :
  tagsDef (consumeNode tk node) = tagsDef tk
  /\ line (consumeNode tk node) = line tk
  /\ blockStatement (consumeNode tk node) = blockStatement tk
  /\ mustacheStatement (consumeNode tk node) = mustacheStatement tk.
Proof. unfold consumeNode. by destruct (openedTags tk). Qed.

Lemma mustacheStatement_consumeNode tk node :
  mustacheStatement (consumeNode tk node) = mustacheStatement tk.
Proof. apply consumeNode_fields. Qed.

Lemma emit_fields tk nodes :
  tagsDef (emit tk nodes) = tagsDef tk
  /\ line (emit tk nodes) = line tk
  /\ blockStatement (emit tk nodes) = blockStatement tk
  /\ mustacheStatement (emit tk nodes) = mustacheStatement tk.
Proof.
  revert tk. induction nodes as [|n nodes IH]; intros tk; [done|].
  rewrite emit_cons.
  destruct (IH (consumeNode tk n)) as (-> & -> & -> & ->).
  apply consumeNode_fields.
Qed.

Lemma emit_app tk xs ys : emit tk (xs ++ ys) = emit (emit tk xs) ys.
Proof. apply fold_left_app. Qed.

Lemma tagsDef_emit tk nodes : tagsDef (emit tk nodes) = tagsDef tk.
Proof. apply emit_fields. Qed.

Lemma line_emit tk nodes : line (emit tk nodes) = line tk.
Proof. apply emit_fields. Qed.


Lemma mustacheStatement_emit tk nodes :
  mustacheStatement (emit tk nodes) = mustacheStatement tk.
Proof. apply emit_fields. Qed.

Lemma emit_set_blockStatement v tk nodes :
  emit (set_blockStatement v tk) nodes = set_blockStatement v (emit tk nodes).
Proof.
  revert tk. induction nodes as [|n nodes IH]; intros tk; [done|].
  rewrite !emit_cons, <- IH. f_equal. unfold consumeNode. simpl.
  by destruct (openedTags tk).
Qed.

Lemma emit_set_mustacheStatement v tk nodes :
  emit (set_mustacheStatement v tk) nodes = set_mustacheStatement v (emit tk nodes).
Proof.
  revert tk. induction nodes as [|n nodes IH]; intros tk; [done|].
  rewrite !emit_cons, <- IH. f_equal. unfold consumeNode. simpl.
  by destruct (openedTags tk).
Qed.

(** What [feedTextToBlockStatement] returns: the statement is kept while
    it is seeking; once it has ended, its node is put on [openedTags] or
    consumed, a newline node is consumed, and the statement is dropped. *)
Lemma feedTextToBlockStatement_cases tk text tk' :
  feedTextToBlockStatement tk text = Ok tk' ->
  exists b b',
    blockStatement tk = Some b
    /\ TagStatement.feed b text = Ok b'
    /\ ((TagStatement.seeking b' = true /\ tk' = set_blockStatement (Some b') tk)
        \/ (TagStatement.seeking b' = false
            /\ exists def,
                tagsDef tk !! Props.name (TagStatement.props b') = Some def
                /\ let node := getTagNode (TagStatement.props b')
                                 (TagStatement.startPosition b') in
                   tk' = set_blockStatement None
                           (emit (if truthy (TagDefinition.block def)
                                  then set_openedTags (node :: openedTags tk) tk
                                  else emit tk [BlockNode.node node])
                              [Newline (line tk)]))).
Proof.
  unfold feedTextToBlockStatement.
  destruct (blockStatement tk) as [b|]; [|done].
  destruct (TagStatement.feed b text) as [b'|] eqn:Hfeed; [|done].
  cbn [bind]. intros H. exists b, b'. split; [done|]. split; [done|].
  destruct (TagStatement.seeking b') eqn:Hs.
  - left. by simplify_eq.
  - right. split; [done|]. simpl in H.
    destruct (tagsDef tk !! _) as [def|]; [|done].
    exists def. split; [done|]. simplify_eq. simpl.
    destruct tk as [td toks bs ms ln ot].
    destruct (truthy (TagDefinition.block def)); [done|].
    by destruct ot.
Qed.

(** The nodes of a mustache statement that has ended. *)
Definition mustacheNodes (m : MustacheStatement.t) : list Node :=
  let props := MustacheStatement.props m in
  match MustacheProp.textLeft props with
  | [] => []
  | _ :: _ => [Raw (MustacheProp.textLeft props) (MustacheStatement.startPosition m)]
  end ++ [getMustacheNode props (MustacheStatement.startPosition m)].

Lemma feedTextToMustacheStatement_cases k tk text tk' :
  feedTextToMustacheStatement k tk text = Ok tk' ->
  exists m m',
    mustacheStatement tk = Some m
    /\ MustacheStatement.feed m text = Ok m'
    /\ ((MustacheStatement.seeking m' = true
         /\ tk' = set_mustacheStatement (Some m') tk)
        \/ (MustacheStatement.seeking m' = false
            /\ let tk1 := set_mustacheStatement None (emit tk (mustacheNodes m')) in
               let textRight := MustacheProp.textRight (MustacheStatement.props m') in
               (textRight = [] /\ tk' = emit tk1 [Newline (line tk)])
               \/ (textRight <> [] /\ k tk1 textRight = Ok tk'))).
Proof.
  unfold feedTextToMustacheStatement.
  destruct (mustacheStatement tk) as [m|]; [|done].
  destruct (MustacheStatement.feed m text) as [m'|] eqn:Hfeed; [|done].
  cbn [bind]. intros H. exists m, m'. split; [done|]. split; [done|].
  destruct (MustacheStatement.seeking m') eqn:Hs.
  - left. by simplify_eq.
  - right. split; [done|]. simpl in H.
    assert (set_mustacheStatement None
              (consumeNode
                 match MustacheProp.textLeft (MustacheStatement.props m') with
                 | [] => set_mustacheStatement (Some m') tk
                 | _ :: _ =>
                     consumeNode (set_mustacheStatement (Some m') tk)
                       (Raw (MustacheProp.textLeft (MustacheStatement.props m'))
                          (MustacheStatement.startPosition m'))
                 end
                 (getMustacheNode (MustacheStatement.props m')
                    (MustacheStatement.startPosition m')))
            = set_mustacheStatement None (emit tk (mustacheNodes m'))) as Heq.
    { unfold mustacheNodes. destruct tk as [td toks bs ms ln ot].
      destruct (MustacheProp.textLeft _); destruct ot; reflexivity. }
    rewrite Heq in H. simpl.
    destruct (MustacheProp.textRight _) eqn:Hr.
    + left. split; [done|]. simplify_eq. f_equal.
      unfold getBlankLineNode. simpl.
      by destruct (emit_fields tk (mustacheNodes m')) as (_ & -> & _).
    + right. done.
Qed.

(** The branches of [processText]. *)
Lemma processText_cases fuel tk text tk' :
  processText (S fuel) tk text = Ok tk' ->
  (isSeekingBlock tk = true /\ feedTextToBlockStatement tk text = Ok tk')
  \/ (isSeekingBlock tk = false /\ isSeekingMustache tk = true
      /\ feedTextToMustacheStatement (processText fuel) tk text = Ok tk')
  \/ (isSeekingBlock tk = false /\ isSeekingMustache tk = false
      /\ ((exists tag, getTag tk text = Some tag
             /\ truthy (TagDefinition.escaped tag) = true
             /\ tk' = emit tk [Raw (replace_ESCAPE_REGEX text) (line tk);
                               Newline (line tk)])
          \/ (exists tag, getTag tk text = Some tag
                /\ truthy (TagDefinition.escaped tag) = false
                /\ feedTextToBlockStatement
                     (set_blockStatement
                        (Some (TagStatement.new (line tk)
                                 (default true (TagDefinition.seekable tag)))) tk)
                     (replace_TRIM_TAG_REGEX (trim text)) = Ok tk')
          \/ (getTag tk text = None /\ isClosingTag tk text = true
              /\ exists recentTag outer,
                  openedTags tk = recentTag :: outer
                  /\ tk' = emit (set_openedTags outer tk)
                             [BlockNode.node recentTag; Newline (line tk)])
          \/ (getTag tk text = None /\ isClosingTag tk text = false
              /\ MUSTACHE_REGEX text = true
              /\ feedTextToMustacheStatement (processText fuel)
                   (set_mustacheStatement (Some (MustacheStatement.new (line tk))) tk)
                   text = Ok tk')
          \/ (getTag tk text = None /\ isClosingTag tk text = false
              /\ MUSTACHE_REGEX text = false
              /\ tk' = emit tk [Raw text (line tk); Newline (line tk)]))).
Proof.
  cbn [processText].
  destruct (isSeekingBlock tk); [by left|].
  destruct (isSeekingMustache tk); [by right; left|].
  intros H. right; right. split; [done|]. split; [done|].
  destruct (getTag tk text) as [tag|].
  - destruct (truthy (TagDefinition.escaped tag)) eqn:He.
    + left. exists tag. split; [done|]. split; [done|]. simplify_eq.
      destruct tk as [td toks bs ms ln ot]. by destruct ot.
    + right; left. exists tag. split; [done|]. split; [done|].
      by destruct (TagDefinition.seekable tag).
  - destruct (isClosingTag tk text) eqn:Hc.
    + right; right; left. split; [done|]. split; [done|].
      destruct (openedTags tk) as [|recentTag outer] eqn:Ho; [done|].
      exists recentTag, outer. split; [done|]. simplify_eq.
      destruct tk as [td toks bs ms ln ot]. by destruct outer.
    + destruct (MUSTACHE_REGEX text) eqn:Hm.
      * right; right; right; left. done.
      * right; right; right; right. repeat (split; [done|]). simplify_eq.
        destruct tk as [td toks bs ms ln ot]. by destruct ot.
Qed.

End Steps.

Section Preservation.

Import Tokenizer.

Lemma feedTextToBlockStatement_tagsDef tk text tk' :
  feedTextToBlockStatement tk text = Ok tk' -> tagsDef tk' = tagsDef tk.
Proof.
  intros H. apply feedTextToBlockStatement_cases in H
    as (b & b' & _ & _ & [[_ ->]|[_ (def & _ & ->)]]); [done|].
  simpl. rewrite tagsDef_emit.
  destruct (truthy _); [done|]. apply tagsDef_emit.
Qed.

Lemma processText_tagsDef fuel : forall tk text tk',
  processText fuel tk text = Ok tk' -> tagsDef tk' = tagsDef tk.
Proof.
  induction fuel as [|fuel IH]; intros tk text tk' H; [done|].
  assert (forall tk0 tk1, tagsDef tk0 = tagsDef tk ->
            feedTextToMustacheStatement (processText fuel) tk0 text = Ok tk1 ->
            tagsDef tk1 = tagsDef tk) as Hm.
  { intros tk0 tk1 Htd H0. apply feedTextToMustacheStatement_cases in H0
      as (m & m' & _ & _ & [[_ ->]|[_ Hc]]); [done|].
    simpl in Hc. destruct Hc as [[_ ->]|[_ Hk]].
    - rewrite emit_set_mustacheStatement. simpl. by rewrite !tagsDef_emit.
    - apply IH in Hk. rewrite Hk. simpl. by rewrite tagsDef_emit. }
  apply processText_cases in H
    as [[_ H]|[(_ & _ & H)|(_ & _ & [H|[H|[H|[H|H]]]])]].
  - by apply feedTextToBlockStatement_tagsDef in H.
  - by apply (Hm tk).
  - destruct H as (tag & _ & _ & ->). apply tagsDef_emit.
  - destruct H as (tag & _ & _ & H).
    by apply feedTextToBlockStatement_tagsDef in H.
  - destruct H as (_ & _ & top & outer & _ & ->). by rewrite tagsDef_emit.
  - destruct H as (_ & _ & _ & H). by apply Hm in H.
  - destruct H as (_ & _ & _ & ->). apply tagsDef_emit.
Qed.

Lemma processLines_tagsDef lines : forall tk tk',
  processLines tk lines = Ok tk' -> tagsDef tk' = tagsDef tk.
Proof.
  induction lines as [|text lines IH]; intros tk tk' H; simpl in H.
  - by simplify_eq.
  - destruct (processLine tk text) as [tk1|] eqn:H1; [|done].
    apply IH in H. apply processText_tagsDef in H1. by rewrite H, H1.
Qed.

(** While a block is open, nothing is added to [tokens]. *)
Lemma emit_frame tk nodes :
  openedTags tk <> [] ->
  tokens (emit tk nodes) = tokens tk /\ openedTags (emit tk nodes) <> [].
Proof.
  intros H. destruct (emit_opened tk nodes H) as [-> Hl]. split; [done|].
  destruct (openedTags (emit tk nodes)); [|done].
  destruct (openedTags tk); done.
Qed.

Lemma feedTextToBlockStatement_frame tk text tk' :
  feedTextToBlockStatement tk text = Ok tk' ->
  openedTags tk <> [] ->
  tokens tk' = tokens tk /\ openedTags tk' <> [].
Proof.
  intros H Ho. apply feedTextToBlockStatement_cases in H
    as (b & b' & _ & _ & [[_ ->]|[_ (def & _ & ->)]]); [done|].
  simpl. destruct (truthy _).
  - by apply (emit_frame (set_openedTags _ tk)).
  - destruct (emit_frame tk [BlockNode.node (getTagNode (TagStatement.props b')
                                              (TagStatement.startPosition b'))] Ho)
      as [Ht Ho'].
    destruct (emit_frame _ [Newline (line tk)] Ho') as [-> ?]. done.
Qed.

Lemma processText_frame fuel : forall tk text tk',
  processText fuel tk text = Ok tk' ->
  openedTags tk <> [] -> openedTags tk' <> [] ->
  tokens tk' = tokens tk.
Proof.
  induction fuel as [|fuel IH]; intros tk text tk' H Ho Ho'; [done|].
  assert (forall tk0, tokens tk0 = tokens tk -> openedTags tk0 <> [] ->
            feedTextToMustacheStatement (processText fuel) tk0 text = Ok tk' ->
            tokens tk' = tokens tk) as Hm.
  { intros tk0 Ht Ho0 H0. apply feedTextToMustacheStatement_cases in H0
      as (m & m' & _ & _ & [[_ ->]|[_ Hc]]); [done|].
    simpl in Hc.
    destruct (emit_frame tk0 (mustacheNodes m') Ho0) as [Ht1 Ho1].
    destruct Hc as [[_ ->]|[_ Hk]].
    - rewrite emit_set_mustacheStatement. simpl.
      destruct (emit_frame _ [Newline (line tk0)] Ho1) as [-> _]. congruence.
    - apply IH in Hk; [|done..]. rewrite Hk. simpl. congruence. }
  apply processText_cases in H
    as [[_ H]|[(_ & _ & H)|(_ & _ & [H|[H|[H|[H|H]]]])]].
  - by apply feedTextToBlockStatement_frame in H as [? _].
  - by apply (Hm tk).
  - destruct H as (tag & _ & _ & ->). by apply emit_frame.
  - destruct H as (tag & _ & _ & H).
    by apply feedTextToBlockStatement_frame in H as [? _].
  - destruct H as (_ & _ & top & outer & Hstack & ->).
    destruct outer as [|next outer].
    + exfalso. apply Ho'. reflexivity.
    + by apply (emit_frame (set_openedTags (next :: outer) tk)).
  - destruct H as (_ & _ & _ & H). by apply Hm in H.
  - destruct H as (_ & _ & _ & ->). by apply emit_frame.
Qed.

Lemma processLines_frame lines : forall tk tk',
  processLines tk lines = Ok tk' ->
  openedTags tk <> [] ->
  (forall p tk1, p `prefix_of` lines -> processLines tk p = Ok tk1 ->
                 openedTags tk1 <> []) ->
  tokens tk' = tokens tk.
Proof.
  induction lines as [|text lines IH]; intros tk tk' H Ho Hopen; simpl in H.
  - by simplify_eq.
  - destruct (processLine tk text) as [tk1|] eqn:H1; [|done]. cbn [bind] in H.
    assert (openedTags tk1 <> []) as Ho1.
    { apply (Hopen [text]); [by exists lines|]. simpl. by rewrite H1. }
    rewrite (IH tk1 tk' H Ho1).
    + by apply processText_frame in H1.
    + intros p tk2 [k ->] Hp. apply (Hopen (text :: p)); [by exists k|].
      simpl. by rewrite H1.
Qed.

End Preservation.

(** ** Tokenizer: a block that is never closed *)

Section OpenBlock.

Import Tokenizer.

Lemma processLines_app l1 : forall tk l2,
  processLines tk (l1 ++ l2) = let* tk1 := processLines tk l1 in processLines tk1 l2.
Proof.
  induction l1 as [|text l1 IH]; intros tk l2; simpl; [done|].
  destruct (processLine tk text); simpl; [apply IH|done].
Qed.

Lemma flushBlockStatement_frame tk :
  openedTags tk <> [] ->
  tokens (flushBlockStatement tk) = tokens tk
  /\ length (openedTags (flushBlockStatement tk)) = length (openedTags tk).
Proof.
  intros Ho. destruct (blockStatement tk) as [b|] eqn:Hb.
  - rewrite (flushBlockStatement_emit _ _ Hb).
    by apply (emit_opened (set_blockStatement None tk)).
  - unfold flushBlockStatement. by rewrite Hb.
Qed.

Lemma flushMustacheStatement_frame tk :
  openedTags tk <> [] ->
  tokens (flushMustacheStatement tk) = tokens tk
  /\ length (openedTags (flushMustacheStatement tk)) = length (openedTags tk).
Proof.
  intros Ho. destruct (mustacheStatement tk) as [m|] eqn:Hm.
  - rewrite (flushMustacheStatement_emit _ _ Hm).
    by apply (emit_opened (set_mustacheStatement None tk)).
  - unfold flushMustacheStatement. by rewrite Hm.
Qed.

End OpenBlock.

(** C9. Let a block be open once the lines [l1] have been read, and let
    some block be open after every further line of [l2], to the end of the
    input. Then [parse] returns without an error, and its tokens are the
    tokens as they were after [l1]: the open blocks stay on [openedTags],
    and neither they nor any node consumed since are among the tokens. *)
Theorem C9_open_block_dropped (template : str) (tagsDef : gmap str TagDefinition.t)
    (l1 l2 : list str) (tk1 tk2 : Tokenizer.t) :
  splitEOL template = l1 ++ l2 ->
  Tokenizer.processLines (Tokenizer.new tagsDef) l1 = Ok tk1 ->
  Tokenizer.openedTags tk1 <> [] ->
  Tokenizer.processLines tk1 l2 = Ok tk2 ->
  (forall p tk, p `prefix_of` l2 -> Tokenizer.processLines tk1 p = Ok tk ->
                Tokenizer.openedTags tk <> []) ->
  exists tk',
    Tokenizer.parse template tagsDef = Ok tk'
    /\ Tokenizer.tokens tk' = Tokenizer.tokens tk1
    /\ length (Tokenizer.openedTags tk') = length (Tokenizer.openedTags tk2)
    /\ Tokenizer.openedTags tk' <> [].
Proof.
  intros Hsplit H1 Ho1 H2 Hopen.
  assert (Tokenizer.openedTags tk2 <> []) as Ho2 by by apply (Hopen l2).
  unfold Tokenizer.parse. rewrite Hsplit, processLines_app, H1. cbn [bind].
  rewrite H2. cbn [bind]. eexists. split; [reflexivity|].
  destruct (flushBlockStatement_frame tk2 Ho2) as [Ht Hl].
  assert (Tokenizer.openedTags (Tokenizer.flushBlockStatement tk2) <> []) as Ho3.
  { intros E. rewrite E in Hl. by destruct (Tokenizer.openedTags tk2). }
  destruct (flushMustacheStatement_frame _ Ho3) as [Ht' Hl'].
  rewrite Ht', Ht, Hl', Hl.
  split; [by apply (processLines_frame l2)|]. split; [done|].
  intros E. rewrite E in Hl'. rewrite Hl in Hl'.
  by destruct (Tokenizer.openedTags tk2).
Qed.

(** The block node of the line [@if(x)] read as line 2. *)
Definition ifBlock (children : list Node) : BlockNode.t :=
  BlockNode.mk (Props.mk (js "if") (js "x") (js "if(x)")) 2 children.

Lemma C9_open_block_dropped_witness :
  exists tk',
    Tokenizer.parse (js "before" ++ EOL :: js "@if(x)" ++ EOL :: js "hello") ifDef = Ok tk'
    /\ Tokenizer.tokens tk' = [Raw (js "before") 1; Newline 1]
    /\ length (Tokenizer.openedTags tk') = 1
    /\ Tokenizer.openedTags tk' <> [].
Proof.
  apply (C9_open_block_dropped
           (js "before" ++ EOL :: js "@if(x)" ++ EOL :: js "hello") ifDef
           [js "before"; js "@if(x)"] [js "hello"]
           (Tokenizer.mk ifDef [Raw (js "before") 1; Newline 1] None None 2
              [ifBlock [Newline 2]])
           (Tokenizer.mk ifDef [Raw (js "before") 1; Newline 1] None None 3
              [ifBlock [Newline 2; Raw (js "hello") 3; Newline 3]])).
  - reflexivity.
  - vm_compute. reflexivity.
  - discriminate.
  - vm_compute. reflexivity.
  - intros p tk [k Hk] Hp. destruct p as [|a [|b p]].
    + injection Hp as <-. discriminate.
    + injection Hk as <- _. vm_compute in Hp. injection Hp as <-. discriminate.
    + discriminate Hk.
Defined.

(** ** Tokenizer: the name a tag statement collects *)

(** The name a statement without arguments collects from the line
    [text]: the line without its [@], trimmed. *)
Definition collectedName (text : str) : str :=
  trim (replace_TRIM_TAG_REGEX (trim text)).

Section CollectedName.

Import Tokenizer.

Lemma feed_nonSeekable_name position text :
  exists b, TagStatement.feed (TagStatement.new position false) text = Ok b
            /\ TagStatement.seeking b = false
            /\ Props.name (TagStatement.props b) = trim text.
Proof.
  unfold TagStatement.feed. simpl.
  eexists. split; [reflexivity|]. split; [done|].
  by destruct text.
Qed.

Lemma processText_nonSeekable fuel tk text def :
  isSeekingBlock tk = false ->
  isSeekingMustache tk = false ->
  getTag tk text = Some def ->
  truthy (TagDefinition.escaped def) = false ->
  TagDefinition.seekable def = Some false ->
  (tagsDef tk !! collectedName text = None ->
   processText (S fuel) tk text = Err TypeError)
  /\ (is_Some (tagsDef tk !! collectedName text) ->
      exists tk', processText (S fuel) tk text = Ok tk'
                  /\ blockStatement tk' = None).
Proof.
  intros Hb Hm Htag Hesc Hseek.
  cbn [processText]. rewrite Hb, Hm, Htag, Hesc, Hseek.
  unfold feedTextToBlockStatement. cbn [blockStatement set_blockStatement].
  destruct (feed_nonSeekable_name (line tk) (replace_TRIM_TAG_REGEX (trim text)))
    as (b & -> & Hs & Hn).
  cbn [bind]. rewrite Hs. cbn [tagsDef set_blockStatement]. rewrite Hn.
  fold (collectedName text).
  split.
  - by intros ->.
  - intros [d ->]. eexists. split; [reflexivity|]. done.
Qed.

End CollectedName.

(** C10. Let the line [text] of the template begin with a known tag
    whose definition says [seekable: false], at a point where no statement
    is seeking. The name the statement collects is the whole line without
    its [@], trimmed. When the tag table has no entry under that name, the
    lookup of [.block] fails and [parse] ends with a TypeError; when it has
    one, the line is read without error. *)
Theorem C10_unknown_collected_name (template : str)
    (tagsDef : gmap str TagDefinition.t) (l1 l2 : list str) (text : str)
    (tk : Tokenizer.t) (def : TagDefinition.t) :
  splitEOL template = l1 ++ text :: l2 ->
  Tokenizer.processLines (Tokenizer.new tagsDef) l1 = Ok tk ->
  Tokenizer.isSeekingBlock tk = false ->
  Tokenizer.isSeekingMustache tk = false ->
  Tokenizer.getTag (Tokenizer.new tagsDef) text = Some def ->
  truthy (TagDefinition.escaped def) = false ->
  TagDefinition.seekable def = Some false ->
  (tagsDef !! collectedName text = None ->
   Tokenizer.parse template tagsDef = Err TypeError)
  /\ (is_Some (tagsDef !! collectedName text) ->
      exists tk', Tokenizer.processLine tk text = Ok tk'
                  /\ Tokenizer.blockStatement tk' = None).
Proof.
  intros Hsplit Hrun Hb Hm Htag Hesc Hseek.
  pose proof (processLines_tagsDef _ _ _ Hrun) as Htd. simpl in Htd.
  destruct (processText_nonSeekable (length text)
              (Tokenizer.set_line (Tokenizer.line tk + 1) tk) text def)
    as [Hnone Hsome]; try done.
  { rewrite getTag_tagsDef. simpl. by rewrite Htd. }
  cbn [Tokenizer.tagsDef Tokenizer.set_line] in Hnone, Hsome.
  rewrite Htd in Hnone, Hsome.
  split.
  - intros Hlookup. unfold Tokenizer.parse.
    rewrite Hsplit, processLines_app, Hrun. cbn [bind Tokenizer.processLines].
    unfold Tokenizer.processLine. by rewrite Hnone.
  - intros Hlookup. by apply Hsome.
Qed.

Definition includeDef : gmap str TagDefinition.t :=
  {[ js "include" := TagDefinition.mk None (Some false) None ]}.

Lemma C10_unknown_collected_name_witness :
  collectedName (js "@include header") = js "include header"
  /\ Tokenizer.parse (js "@include header") includeDef = Err TypeError.
Proof.
  split; [vm_compute; reflexivity|].
  apply (C10_unknown_collected_name (js "@include header") includeDef
           [] [] (js "@include header") (Tokenizer.new includeDef)
           (TagDefinition.mk None (Some false) None));
    vm_compute; reflexivity.
Defined.

(** ** Tokenizer: nested blocks *)

Section Characters.

Lemma code_eqb c a : (nat_of_ascii c =? nat_of_ascii a) = Ascii.eqb c a.
Proof.
  destruct (Ascii.eqb_spec c a) as [->|Hne]; [apply Nat.eqb_refl|].
  apply Nat.eqb_neq. intros H. apply Hne.
  by rewrite <- (ascii_nat_embedding c), H, ascii_nat_embedding.
Qed.

Lemma is_word_plain c :
  is_word c = true ->
  is_space c = false
  /\ Ascii.eqb c "(" = false /\ Ascii.eqb c ")" = false
  /\ Ascii.eqb c "!" = false /\ Ascii.eqb c EOL = false.
Proof.
  destruct c as [[] [] [] [] [] [] [] []]; vm_compute; intros H;
    done || (repeat split; done).
Qed.

Lemma skipSpaces_nonspace c s : is_space c = false -> skipSpaces (c :: s) = c :: s.
Proof. intros H. simpl. by rewrite H. Qed.


Lemma takeWord_app w c rest :
  forallb is_word w = true -> is_word c = false ->
  takeWord (w ++ c :: rest) = w.
Proof.
  intros Hw Hc. induction w as [|a w IH]; simpl in *.
  - by rewrite Hc.
  - apply andb_true_iff in Hw as [-> Hw]. by rewrite IH.
Qed.

Lemma takeWord_all w : forallb is_word w = true -> takeWord w = w.
Proof.
  intros Hw. induction w as [|a w IH]; simpl in *; [done|].
  apply andb_true_iff in Hw as [-> Hw]. by rewrite IH.
Qed.

End Characters.

Section TagFeed.

Import TagStatement.

(** A character that is no parenthesis. *)
Definition noParen (c : ascii) : bool :=
  negb (Ascii.eqb c "(") && negb (Ascii.eqb c ")").

(** The buckets when the current one has been fed [cs]. *)
Definition feedInto (prop : PropName) (ip : InternalProps) (cs : str)
  : InternalProps :=
  match prop with
  | name => mkInternal (CharBucket.feedAll (i_name ip) cs) (i_jsArg ip)
  | jsArg => mkInternal (i_name ip) (CharBucket.feedAll (i_jsArg ip) cs)
  end.

Lemma feedSeekableChars_plain pre : forall pos sk st en pr cp par ip rest,
  forallb noParen pre = true ->
  feedSeekableChars (mk pos sk st en pr cp par (Some ip)) (pre ++ rest)
  = feedSeekableChars (mk pos sk st en pr cp par (Some (feedInto cp ip pre))) rest.
Proof.
  induction pre as [|c pre IH]; intros pos sk st en pr cp par ip rest Hpre.
  - simpl. by destruct cp, ip.
  - simpl in Hpre. apply andb_true_iff in Hpre as [Hc Hpre].
    unfold noParen in Hc. apply andb_true_iff in Hc as [Ho Hcl].
    apply negb_true_iff in Ho, Hcl.
    cbn [app feedSeekableChars].
    unfold isStartOfStatement, isEndOfStatement, OPENING_BRACE, CLOSING_BRACE.
    change 41 with (nat_of_ascii ")"). change 40 with (nat_of_ascii "(").
    rewrite !code_eqb, Ho, Hcl. cbn [andb].
    unfold feedChar, OPENING_BRACE, CLOSING_BRACE.
    change 41 with (nat_of_ascii ")"). change 40 with (nat_of_ascii "(").
    rewrite !code_eqb, Ho, Hcl. cbn [bind internalProps].
    unfold set_internalProps. simpl.
    rewrite IH by done. by destruct cp.
Qed.



End TagFeed.

(** The line [@name(arg)] that opens the tag [(name, arg)], and the line
    [@endname] that closes it. *)
Definition openLine (tag : str * str) : str :=
  "@"%char :: tag.1 ++ "("%char :: tag.2 ++ [")"%char].

Definition closeLine (tag : str * str) : str := js "@end" ++ tag.1.

(** The lines that open the tags in turn and close them in reverse. *)
Definition nestedLines (tags : list (str * str)) : list str :=
  map openLine tags ++ map closeLine (rev tags).

(** [lines.join(EOL)] *)
Fixpoint joinEOL (lines : list str) : str :=
  match lines with
  | [] => []
  | text :: lines =>
      match lines with
      | [] => text
      | _ :: _ => text ++ EOL :: joinEOL lines
      end
  end.







Section Nesting.

Import Tokenizer.






Lemma MUSTACHE_REGEX_word w : forallb is_word w = true -> MUSTACHE_REGEX w = false.
Proof.
  induction w as [|c w IH]; simpl; [done|].
  intros H. apply andb_true_iff in H as [Hc Hw]. rewrite IH by done.
  destruct (Ascii.eqb_spec c "{") as [->|]; [done|]. done.
Qed.





Lemma length_nestedLines tags : length (nestedLines tags) = 2 * length tags.
Proof.
  unfold nestedLines. rewrite length_app, !length_map, length_rev. lia.
Qed.



End Nesting.

Section Lines.







End Lines.


Definition ifEachDef : gmap str TagDefinition.t :=
  {[ js "if" := TagDefinition.mk (Some true) (Some true) None;
     js "each" := TagDefinition.mk (Some true) None None ]}.

(** A line that would close an outer tag is plain text for the tag
    opened last. *)
Example outer_close_is_text :
  (let* tk := Tokenizer.processLines (Tokenizer.new ifEachDef)
                [js "@if(a)"; js "@each(b)"; js "@endif"] in
   Ok (Tokenizer.tokens tk, map BlockNode.node (Tokenizer.openedTags tk)))
  = Ok ([], [Block (Props.mk (js "each") (js "b") (js "each(b)")) 2
               [Newline 2; Raw (js "@endif") 3; Newline 3];
             Block (Props.mk (js "if") (js "a") (js "if(a)")) 1 [Newline 1]]).
Proof. vm_compute. reflexivity. Qed.


(** ** The text a mustache statement accounts for *)

Section MustacheText.

Import MustacheStatement.

(** A bucket in ALL mode holding [cs]. *)
Definition allBucket (cs : str) : CharBucket.t := CharBucket.mk ALL cs None.

(** The three stages of a statement: reading the text left of the
    braces, reading the expression, reading the text right of it. *)
Inductive wfm : t -> Prop :=
| wfm_left pos br bj C :
    wfm (mk pos false false (MustacheProp.mk [] [] [] [] []) textLeft br
           (Some (mkInternal bj (allBucket C) (allBucket []))))
| wfm_arg pos nm ja R L br bj bl :
    R <> [] ->
    wfm (mk pos true false (MustacheProp.mk nm ja R L []) jsArg br
           (Some (mkInternal bj bl (allBucket []))))
| wfm_right pos nm ja R L br bj bl T :
    wfm (mk pos true true (MustacheProp.mk nm ja R L []) textRight br
           (Some (mkInternal bj bl (allBucket T)))).

(** The characters read into the text right of the expression. *)
Definition rightText (s : t) : str :=
  match currentProp s, internalProps s with
  | textRight, Some ip => CharBucket.get (i_textRight ip)
  | _, _ => []
  end.

(** The text the statement has read: what is left of the braces, the
    expression with its braces, and what is right of them. *)
Definition accounted (s : t) : str :=
  match currentProp s with
  | textLeft =>
      match internalProps s with
      | Some ip => CharBucket.get (i_textLeft ip)
      | None => []
      end
  | _ => MustacheProp.textLeft (props s) ++ MustacheProp.raw (props s) ++ rightText s
  end.

Lemma opening_code c : (nat_of_ascii c =? OPENING_BRACE) = Ascii.eqb c "{".
Proof. apply (code_eqb c "{"). Qed.

Lemma getName_spec s chars c :
  getName s chars (nat_of_ascii c) =
    match chars with
    | next :: chars1 =>
        if Ascii.eqb c "{" && Ascii.eqb next "{" then
          match chars1 with
          | next2 :: chars2 =>
              if Ascii.eqb next2 "{"
              then (Some emustache, chars2, appendRaw (js "{{{") s)
              else (Some mustache, chars1, appendRaw (js "{{") s)
          | [] => (Some mustache, chars1, appendRaw (js "{{") s)
          end
        else (None, chars, s)
    | [] => (None, chars, s)
    end.
Proof.
  unfold getName. rewrite opening_code.
  destruct (Ascii.eqb c "{"); simpl; [|by destruct chars].
  destruct chars as [|next chars1]; [done|].
  rewrite opening_code. destruct (Ascii.eqb next "{"); simpl; [|done].
  destruct chars1 as [|next2 chars2]; [done|].
  rewrite opening_code. destruct (Ascii.eqb next2 "{"); simpl; [|done].
  unfold appendRaw, set_props, set_raw. simpl. by rewrite <- app_assoc.
Qed.

Lemma isClosing_other s chars c :
  Ascii.eqb c "}" = false -> isClosing s chars (nat_of_ascii c) = (false, chars, s).
Proof. intros H. unfold isClosing. by rewrite closing_code, H. Qed.

Lemma countBrace_fields' c s :
  countBrace c s
  = mk (startPosition s) (started s) (ended s) (props s) (currentProp s)
      (internalBraces (countBrace c s)) (internalProps s).
Proof. unfold countBrace. destruct s. by repeat case_match. Qed.

#[local] Arguments getName : simpl never.
#[local] Arguments isClosing : simpl never.

(** [char] followed by [chars] does not begin with two opening braces. *)
Definition noOpening (char : ascii) (chars : str) : Prop :=
  Ascii.eqb char "{" = false
  \/ match chars with
     | next :: _ => Ascii.eqb next "{" = false
     | [] => True
     end.

Lemma getName_none s chars c :
  noOpening c chars -> getName s chars (nat_of_ascii c) = (None, chars, s).
Proof.
  intros H. rewrite getName_spec. destruct chars as [|next chars1]; [done|].
  destruct H as [->|H]; [done|]. by rewrite H, andb_false_r.
Qed.

Lemma opening_cases c chars :
  noOpening c chars \/ exists chars1, c = "{"%char /\ chars = "{"%char :: chars1.
Proof.
  unfold noOpening. destruct (Ascii.eqb_spec c "{") as [->|]; [|by left; left].
  destruct chars as [|next chars1]; [by left; right|].
  destruct (Ascii.eqb_spec next "{") as [->|]; [|by left; right].
  right. by exists chars1.
Qed.

(** One character read while the text left of the braces is collected. *)
Lemma processChar_left pos br bj C chars c :
  exists s' chars' used,
    processChar (mk pos false false (MustacheProp.mk [] [] [] [] []) textLeft br
                   (Some (mkInternal bj (allBucket C) (allBucket [])))) chars c
    = Ok (s', chars')
    /\ c :: chars = used ++ chars'
    /\ wfm s'
    /\ accounted s' = C ++ used
    /\ startPosition s' = pos
    /\ rightText s' = []
    /\ ended s' = false.
Proof.
  unfold processChar. simpl.
  destruct (opening_cases c chars) as [Hnone|(chars1 & -> & ->)].
  - rewrite getName_none by done. simpl.
    destruct (nat_of_ascii c =? OPENING_BRACE), (nat_of_ascii c =? CLOSING_BRACE);
      simpl; (eexists _, chars, [c]; split; [reflexivity|]; split; [done|];
              split; [apply (wfm_left _ _ _ (C ++ [c]))|done]).
  - rewrite getName_spec. simpl. destruct chars1 as [|next2 chars2].
    + simpl. eexists _, [], (js "{{"). split; [reflexivity|]. split; [done|].
      split; [by apply wfm_arg|]. done.
    + destruct (Ascii.eqb next2 "{") eqn:Hn2.
      * apply Ascii.eqb_eq in Hn2. subst next2. simpl.
        eexists _, chars2, (js "{{{"). split; [reflexivity|]. split; [done|].
        split; [by apply wfm_arg|]. done.
      * simpl. eexists _, (next2 :: chars2), (js "{{"). split; [reflexivity|].
        split; [done|]. split; [by apply wfm_arg|]. done.
Qed.

Lemma closingRun_split nm chars :
  closingRun nm chars = true ->
  chars = (if str_eqb nm emustache then js "}}" else js "}")
          ++ (if str_eqb nm emustache then drop 2 chars else drop 1 chars).
Proof.
  unfold closingRun. destruct (str_eqb nm emustache).
  - destruct chars as [|a [|b chars]]; try done.
    intros H. apply andb_true_iff in H as [Ha Hb].
    apply Ascii.eqb_eq in Ha, Hb. by subst.
  - destruct (str_eqb nm mustache); [|done].
    destruct chars as [|a chars]; [done|].
    intros Ha. apply Ascii.eqb_eq in Ha. by subst.
Qed.

(** One character read while the expression is collected. *)
Lemma processChar_arg pos nm ja R L br bj bl chars c :
  exists s' chars' used,
    processChar (mk pos true false (MustacheProp.mk nm ja R L []) jsArg br
                   (Some (mkInternal bj bl (allBucket [])))) chars c
    = Ok (s', chars')
    /\ c :: chars = used ++ chars'
    /\ wfm s'
    /\ accounted s' = (L ++ R) ++ used
    /\ startPosition s' = pos
    /\ rightText s' = []
    /\ started s' = true.
Proof.
  destruct (Ascii.eqb c "}") eqn:Hc.
  - apply Ascii.eqb_eq in Hc. subst c.
    rewrite processChar_closing_brace by done. unfold recorded. simpl.
    destruct ((br =? 0)%Z && closingRun nm chars) eqn:Hclose.
    + apply andb_true_iff in Hclose as [_ Hrun].
      apply closingRun_split in Hrun.
      eexists _, _, ("}"%char :: (if str_eqb nm emustache then js "}}" else js "}")).
      split; [reflexivity|]. split; [simpl; by f_equal|].
      split; [apply wfm_right|]. simpl.
      split; [|done]. unfold accounted, rightText. simpl.
      rewrite app_nil_r, <- !app_assoc. done.
    + simpl. eexists _, chars, ["}"%char]. split; [reflexivity|].
      split; [done|]. split; [apply wfm_arg; by destruct R|].
      split; [|done]. unfold accounted, rightText. simpl.
      by rewrite !app_nil_r, <- !app_assoc.
  - unfold processChar. simpl. rewrite isClosing_other by done. simpl.
    destruct (nat_of_ascii c =? OPENING_BRACE), (nat_of_ascii c =? CLOSING_BRACE);
      simpl; (eexists _, chars, [c]; split; [reflexivity|]; split; [done|];
              split; [apply wfm_arg; by destruct R|];
              split; [|done]; unfold accounted, rightText; simpl;
              by rewrite !app_nil_r, <- !app_assoc).
Qed.

(** One character read after the closing braces. *)
Lemma processChar_right pos nm ja R L br bj bl T chars c :
  exists s',
    processChar (mk pos true true (MustacheProp.mk nm ja R L []) textRight br
                   (Some (mkInternal bj bl (allBucket T)))) chars c
    = Ok (s', chars)
    /\ wfm s'
    /\ accounted s' = (L ++ R ++ T) ++ [c]
    /\ startPosition s' = pos
    /\ rightText s' = T ++ [c]
    /\ ended s' = true.
Proof.
  unfold processChar. simpl.
  destruct (nat_of_ascii c =? OPENING_BRACE), (nat_of_ascii c =? CLOSING_BRACE);
    simpl; (eexists; split; [reflexivity|];
            split; [apply (wfm_right _ _ _ _ _ _ _ _ (T ++ [c]))|];
            split; [|done]; unfold accounted, rightText; simpl;
            by rewrite <- !app_assoc).
Qed.

(** One turn of the loop of [feed]. *)
Lemma processChar_wfm s chars c :
  wfm s ->
  exists s' chars' used,
    processChar s chars c = Ok (s', chars')
    /\ c :: chars = used ++ chars'
    /\ wfm s'
    /\ accounted s' = accounted s ++ used
    /\ startPosition s' = startPosition s
    /\ (ended s = false -> rightText s' = [])
    /\ (ended s = true ->
        ended s' = true /\ chars' = chars /\ rightText s' = rightText s ++ [c]).
Proof.
  intros [pos br bj C|pos nm ja R L br bj bl HR|pos nm ja R L br bj bl T].
  - destruct (processChar_left pos br bj C chars c)
      as (s' & chars' & used & -> & ? & ? & ? & ? & ? & ?).
    by eexists _, _, used.
  - destruct (processChar_arg pos nm ja R L br bj bl chars c)
      as (s' & chars' & used & -> & ? & ? & Hacc & ? & ? & ?).
    eexists _, _, used. repeat (split; [done|]).
    split; [|done]. rewrite Hacc. unfold accounted, rightText. simpl.
    by rewrite app_nil_r.
  - destruct (processChar_right pos nm ja R L br bj bl T chars c)
      as (s' & -> & ? & Hacc & ? & ? & ?).
    eexists _, _, [c]. repeat (split; [done|]). done.
Qed.

Lemma wfm_rightText s : wfm s -> ended s = false -> rightText s = [].
Proof. by intros [| |]. Qed.

(** The loop of [feed]: every character is accounted for, and what
    comes after the closing braces is the text right of the statement. *)
Lemma feedChars_wfm n : forall chars s,
  length chars <= n ->
  wfm s ->
  exists s',
    feedChars s chars = Ok s'
    /\ wfm s'
    /\ accounted s' = accounted s ++ chars
    /\ startPosition s' = startPosition s
    /\ (ended s = true -> ended s' = true /\ rightText s' = rightText s ++ chars)
    /\ (ended s = false ->
        rightText s' `suffix_of` chars
        /\ (ended s' = true -> length (rightText s') < length chars)).
Proof.
  induction n as [|n IH]; intros chars s Hlen Hwf.
  - destruct chars; [|simpl in Hlen; lia].
    exists s. rewrite feedChars_nil, !app_nil_r.
    repeat (split; [done|]). intros He.
    rewrite wfm_rightText by done. split; [done|]. congruence.
  - destruct chars as [|c chars].
    { exists s. rewrite feedChars_nil, !app_nil_r.
      repeat (split; [done|]). intros He.
      rewrite wfm_rightText by done. split; [done|]. congruence. }
    rewrite feedChars_cons.
    destruct (processChar_wfm s chars c Hwf)
      as (s1 & chars1 & used & Hstep & Hsplit & Hwf1 & Hacc1 & Hpos1 & Hopen1 & Hend1).
    rewrite Hstep.
    pose proof (processChar_length _ _ _ _ _ Hstep) as Hlen1.
    simpl in Hlen.
    destruct (IH chars1 s1) as (s' & Hrun & Hwf' & Hacc' & Hpos' & Hend' & Hopen');
      [lia|done|].
    exists s'. split; [done|]. split; [done|].
    split; [by rewrite Hacc', Hacc1, <- app_assoc, <- Hsplit|].
    split; [congruence|]. split.
    + intros He. destruct (Hend1 He) as (He1 & -> & Hr1).
      destruct (Hend' He1) as [? ->]. split; [done|].
      by rewrite Hr1, <- app_assoc.
    + intros He. specialize (Hopen1 He).
      assert (chars1 `suffix_of` c :: chars) as Hsuf by by exists used.
      destruct (ended s1) eqn:He1.
      * destruct (Hend' eq_refl) as [_ ->]. rewrite Hopen1. simpl.
        split; [done|]. intros _. lia.
      * destruct (Hopen' eq_refl) as [Hs Hl].
        split; [by etrans|]. intros He'. specialize (Hl He'). simpl. lia.
Qed.

Arguments feedChars : simpl never.

(** What [feed] makes of a line, for a statement that has not ended:
    the statement is seeking and accounts for the line, or it is done and
    its three texts make up the line, the text right being an end of the
    line. [before] is what the statement had read before the line, with
    the line break that [feed] puts between two lines. *)
Lemma feed_wfm m text :
  wfm m -> ended m = false ->
  let before := accounted m ++ match MustacheProp.raw (props m) with
                               | [] => []
                               | _ :: _ => [EOL]
                               end in
  exists m',
    feed m text = Ok m'
    /\ startPosition m' = startPosition m
    /\ ((seeking m' = true /\ wfm m'
         /\ MustacheProp.textRight (props m') = []
         /\ MustacheProp.textLeft (props m') ++ MustacheProp.raw (props m')
            = before ++ text)
        \/ (seeking m' = false
            /\ MustacheProp.textLeft (props m') ++ MustacheProp.raw (props m')
               ++ MustacheProp.textRight (props m') = before ++ text
            /\ MustacheProp.textRight (props m') `suffix_of` text
            /\ (MustacheProp.textRight (props m') <> [] ->
                length (MustacheProp.textRight (props m')) < length text))).
Proof.
  intros Hwf He before. unfold feed. rewrite He.
  set (m0 := match MustacheProp.raw (props m) with
             | [] => m
             | _ :: _ => appendRaw [EOL] m
             end).
  assert (wfm m0 /\ accounted m0 = before /\ ended m0 = false
          /\ startPosition m0 = startPosition m) as (Hwf0 & Hacc0 & He0 & Hpos0).
  { unfold m0, before. destruct Hwf as [pos br bj C|pos nm ja R L br bj bl HR|]; [| |done].
    - simpl. rewrite app_nil_r. split; [constructor|done].
    - destruct R as [|r R]; [done|]. simpl.
      split; [by apply wfm_arg|]. unfold accounted, rightText. simpl.
      rewrite !app_nil_r. split; [|done]. by rewrite <- app_assoc. }
  destruct (feedChars_wfm (length text) text m0 (le_n _) Hwf0)
    as (s' & -> & Hwf' & Hacc' & Hpos' & _ & Hopen').
  specialize (Hopen' He0). destruct Hopen' as [Hsuf Hlen].
  rewrite Hacc0 in Hacc'. cbn [bind].
  destruct Hwf' as [pos br bj C|pos nm ja R L br bj bl HR|pos nm ja R L br bj bl T].
  - simpl. eexists. split; [reflexivity|]. split; [simpl in *; congruence|].
    right. simpl. split; [done|]. unfold accounted in Hacc'. simpl in Hacc'.
    rewrite app_nil_r. split; [done|]. split; [by exists text; rewrite app_nil_r|done].
  - simpl. eexists. split; [reflexivity|]. split; [simpl in *; congruence|].
    left. split; [done|]. split; [by apply wfm_arg|]. split; [done|].
    unfold accounted, rightText in Hacc'. simpl in Hacc'.
    by rewrite app_nil_r in Hacc'.
  - simpl. eexists. split; [reflexivity|]. split; [simpl in *; congruence|].
    right. simpl. split; [done|]. split; [done|]. split; [done|].
    intros _. by apply Hlen.
Qed.

End MustacheText.

(** ** Tokenizer: reading the template back from its tokens *)

(** The text of a node: the value of a raw node, the raw text of a
    mustache node, a line break for a newline node; a block gives the
    text of its children. *)
Fixpoint render (node : Node) : str :=
  match node with
  | Raw value _ => value
  | Newline _ => [EOL]
  | Mustache properties _ => Props.raw properties
  | Block _ _ children => foldr (fun child text => render child ++ text) [] children
  end.

Definition renderAll (nodes : list Node) : str :=
  foldr (fun node text => render node ++ text) [] nodes.

(** The lines of a template, each with its line break. *)
Definition withBreaks (lines : list str) : str :=
  foldr (fun text rest => text ++ EOL :: rest) [] lines.

(** No end of the line [text] begins with a known tag, escaped or not. *)
Definition tagFree (tagsDef : gmap str TagDefinition.t) (text : str) : Prop :=
  forall rest, rest `suffix_of` text ->
    Tokenizer.getTag (Tokenizer.new tagsDef) rest = None.

Section Render.

Import Tokenizer.

Lemma renderAll_app xs ys : renderAll (xs ++ ys) = renderAll xs ++ renderAll ys.
Proof.
  induction xs as [|x xs IH]; simpl; [done|]. by rewrite IH, app_assoc.
Qed.

Lemma renderAll_mustacheNodes m :
  renderAll (mustacheNodes m)
  = MustacheProp.textLeft (MustacheStatement.props m)
    ++ MustacheProp.raw (MustacheStatement.props m).
Proof.
  unfold mustacheNodes.
  destruct (MustacheProp.textLeft _); simpl; by rewrite !app_nil_r.
Qed.

Lemma withBreaks_app xs ys : withBreaks (xs ++ ys) = withBreaks xs ++ withBreaks ys.
Proof.
  induction xs as [|x xs IH]; simpl; [done|].
  by rewrite IH, <- app_assoc.
Qed.

End Render.

Lemma withBreaks_splitEOL template : withBreaks (splitEOL template) = template ++ [EOL].
Proof.
  induction template as [|c template IH]; [done|]. simpl.
  destruct (Ascii.eqb_spec c EOL) as [->|Hc].
  - simpl. by rewrite IH.
  - destruct (splitEOL template) as [|text lines]; simpl in *.
    + by destruct template.
    + by rewrite IH.
Qed.

Lemma tagFree_empty text : tagFree ∅ text.
Proof.
  intros rest _. unfold Tokenizer.getTag.
  destruct (TAG_REGEX _) as [[escaped tagName]|]; [|done].
  simpl. by rewrite lookup_empty.
Qed.

Lemma TAG_REGEX_at_sign s r : TAG_REGEX s = Some r -> "@"%char ∈ s.
Proof.
  unfold TAG_REGEX. destruct s as [|c s]; [done|].
  destruct (Ascii.eqb c "\") eqn:Hc.
  - destruct s as [|c' s]; [done|].
    destruct (Ascii.eqb_spec c' "@") as [->|]; [|done].
    intros _. right. left.
  - destruct (Ascii.eqb_spec c "@") as [->|]; [|done].
    intros _. left.
Qed.

Lemma skipSpaces_elem x s : x ∈ skipSpaces s -> x ∈ s.
Proof.
  induction s as [|c s IH]; simpl; [done|].
  destruct (is_space c); [|done]. intros H. right. by apply IH.
Qed.

Lemma trim_elem x s : x ∈ trim s -> x ∈ s.
Proof.
  unfold trim, trimStart, trimEnd. rewrite !list_elem_of_In, <- in_rev.
  rewrite <- !list_elem_of_In. intros H.
  apply skipSpaces_elem in H. rewrite list_elem_of_In, <- in_rev in H.
  apply skipSpaces_elem. by rewrite list_elem_of_In.
Qed.

(** A line without [@] begins no tag, whatever the table. *)
Lemma tagFree_no_at tagsDef text : "@"%char ∉ text -> tagFree tagsDef text.
Proof.
  intros Hno rest [k ->]. unfold Tokenizer.getTag.
  destruct (TAG_REGEX (trim rest)) as [[escaped tagName]|] eqn:Hre; [|done].
  exfalso. apply Hno. apply TAG_REGEX_at_sign, trim_elem in Hre.
  apply elem_of_app. by right.
Qed.

(** C2 as stated fails. The tokens of the one-line template [a] read
    back with a line break that the template does not have; and the tokens
    of a template with a tag leave out the lines of the tag. *)
Lemma C2_counterexample :
  (exists tk, Tokenizer.parse (js "a") ifDef = Ok tk
              /\ Tokenizer.blockStatement tk = None
              /\ Tokenizer.mustacheStatement tk = None
              /\ Tokenizer.openedTags tk = []
              /\ renderAll (Tokenizer.tokens tk) = js "a" ++ [EOL]
              /\ renderAll (Tokenizer.tokens tk) <> js "a")
  /\ (exists tk, Tokenizer.parse (js "@if(x)" ++ EOL :: js "@endif") ifDef = Ok tk
                 /\ Tokenizer.blockStatement tk = None
                 /\ Tokenizer.mustacheStatement tk = None
                 /\ Tokenizer.openedTags tk = []
                 /\ renderAll (Tokenizer.tokens tk) = [EOL; EOL]).
Proof.
  split; eexists; (split; [vm_compute; reflexivity|]); simpl;
    repeat split; discriminate.
Qed.

(** ** The fuel of [processText] is enough *)

Section Fuel.

Import Tokenizer.

Lemma feedSeekableChars_fuel chars : forall s,
  TagStatement.feedSeekableChars s chars <> Err OutOfFuel.
Proof.
  induction chars as [|c chars IH]; intros s; simpl; [done|].
  destruct (TagStatement.isStartOfStatement _ _).
  - destruct (TagStatement.startStatement s) as [s1|e] eqn:H1; simpl; [apply IH|].
    apply startStatement_error in H1. by subst.
  - destruct (TagStatement.isEndOfStatement _ _).
    + destruct chars; simpl; [|done].
      destruct (TagStatement.endStatement s c) as [s1|e] eqn:H1; [done|].
      apply endStatement_error in H1 as [->| ->]; done.
    + destruct (TagStatement.feedChar s c _) as [s1|e] eqn:H1; simpl; [apply IH|].
      apply feedChar_error in H1. by subst.
Qed.

Lemma tag_feed_fuel s text : TagStatement.feed s text <> Err OutOfFuel.
Proof.
  unfold TagStatement.feed. destruct (TagStatement.ended s); [done|].
  destruct (negb _); [done|]. unfold TagStatement.feedSeekable.
  pose proof (feedSeekableChars_fuel text (TagStatement.recordRaw s text)) as H.
  by destruct (TagStatement.feedSeekableChars _ _).
Qed.

Lemma feedTextToBlockStatement_fuel tk text :
  feedTextToBlockStatement tk text <> Err OutOfFuel.
Proof.
  unfold feedTextToBlockStatement. destruct (blockStatement tk) as [b|]; [|done].
  pose proof (tag_feed_fuel b text) as H.
  destruct (TagStatement.feed b text) as [b'|e] eqn:Hf; cbn [bind]; [|congruence].
  destruct (TagStatement.seeking b'); [done|]. by destruct (tagsDef _ !! _).
Qed.

Lemma feedTextToBlockStatement_mustache tk text tk' :
  feedTextToBlockStatement tk text = Ok tk' ->
  mustacheStatement tk' = mustacheStatement tk.
Proof.
  intros H. apply feedTextToBlockStatement_cases in H
    as (b & b' & _ & _ & [[_ ->]|[_ (def & _ & ->)]]); [done|].
  simpl. rewrite mustacheStatement_emit.
  destruct (truthy _); [done|]. by rewrite mustacheStatement_emit.
Qed.

(** The mustache statement the tokenizer keeps between two lines, if
    any, is seeking. *)
Definition keepsSeeking (tk : Tokenizer.t) : Prop :=
  forall m, mustacheStatement tk = Some m ->
            wfm m /\ MustacheStatement.seeking m = true.

Lemma feedTextToMustacheStatement_fuel k tk m text :
  mustacheStatement tk = Some m ->
  wfm m -> MustacheStatement.ended m = false ->
  (forall tk1 text1, length text1 < length text -> keepsSeeking tk1 ->
     k tk1 text1 <> Err OutOfFuel
     /\ forall tk', k tk1 text1 = Ok tk' -> keepsSeeking tk') ->
  feedTextToMustacheStatement k tk text <> Err OutOfFuel
  /\ forall tk', feedTextToMustacheStatement k tk text = Ok tk' -> keepsSeeking tk'.
Proof.
  intros Hm Hwf He Hk. unfold feedTextToMustacheStatement. rewrite Hm.
  destruct (feed_wfm m text Hwf He)
    as (m' & -> & _ & [(Hs & Hwf' & _)|(Hs & _ & _ & Hlen)]); cbn [bind]; rewrite Hs.
  - split; [done|]. intros tk' H. simplify_eq. intros m0 H0. simpl in H0.
    by simplify_eq.
  - destruct (MustacheProp.textRight (MustacheStatement.props m')) as [|r rs].
    + split; [done|]. intros tk' H. simplify_eq. intros m0 H0.
      by rewrite mustacheStatement_consumeNode in H0.
    + apply Hk; [by apply Hlen|]. by intros m0 H0.
Qed.

Lemma processText_fuel fuel : forall tk text,
  length text < fuel -> keepsSeeking tk ->
  processText fuel tk text <> Err OutOfFuel
  /\ forall tk', processText fuel tk text = Ok tk' -> keepsSeeking tk'.
Proof.
  induction fuel as [|fuel IH]; intros tk text Hlen Hkeep; [lia|].
  assert (Hk : forall tk1 text1, length text1 < length text -> keepsSeeking tk1 ->
     processText fuel tk1 text1 <> Err OutOfFuel
     /\ forall tk', processText fuel tk1 text1 = Ok tk' -> keepsSeeking tk').
  { intros tk1 text1 Hl Hk1. apply IH; [lia|done]. }
  assert (Hblock : forall tk0, mustacheStatement tk0 = mustacheStatement tk ->
     feedTextToBlockStatement tk0 text <> Err OutOfFuel
     /\ forall tk', feedTextToBlockStatement tk0 text = Ok tk' -> keepsSeeking tk').
  { intros tk0 H0. split; [apply feedTextToBlockStatement_fuel|].
    intros tk' H m Hm. apply feedTextToBlockStatement_mustache in H.
    apply Hkeep. congruence. }
  assert (Hemit : forall tk0 nodes, mustacheStatement tk0 = mustacheStatement tk ->
     keepsSeeking (emit tk0 nodes)).
  { intros tk0 nodes H0 m Hm. rewrite mustacheStatement_emit in Hm.
    apply Hkeep. congruence. }
  split.
  - cbn [processText].
    destruct (isSeekingBlock tk); [apply feedTextToBlockStatement_fuel|].
    destruct (isSeekingMustache tk) eqn:Hsm.
    + unfold isSeekingMustache in Hsm.
      destruct (mustacheStatement tk) as [m|] eqn:Hm; [|done].
      destruct (Hkeep m Hm) as [Hwf Hs].
      apply (feedTextToMustacheStatement_fuel _ tk m); try done.
      unfold MustacheStatement.seeking in Hs.
      apply andb_true_iff in Hs as [_ Hs]. by apply negb_true_iff in Hs.
    + destruct (getTag tk text) as [tag|].
      * destruct (truthy _); [done|]. apply feedTextToBlockStatement_fuel.
      * destruct (isClosingTag tk text); [by destruct (openedTags tk)|].
        destruct (MUSTACHE_REGEX text); [|done].
        apply (feedTextToMustacheStatement_fuel _ _ (MustacheStatement.new (line tk)));
          try done. apply wfm_left.
  - intros tk' H.
    apply processText_cases in H
      as [[_ H]|[(_ & Hsm & H)|(_ & _ & [H|[H|[H|[H|H]]]])]].
    + by apply (Hblock tk).
    + unfold isSeekingMustache in Hsm.
      destruct (mustacheStatement tk) as [m|] eqn:Hm; [|done].
      destruct (Hkeep m Hm) as [Hwf Hs].
      apply (feedTextToMustacheStatement_fuel (processText fuel) tk m text);
        try done.
      unfold MustacheStatement.seeking in Hs.
      apply andb_true_iff in Hs as [_ Hs]. by apply negb_true_iff in Hs.
    + destruct H as (tag & _ & _ & ->). by apply Hemit.
    + destruct H as (tag & _ & _ & H).
      intros m Hm. apply feedTextToBlockStatement_mustache in H.
      apply Hkeep. simpl in H. congruence.
    + destruct H as (_ & _ & top & outer & _ & ->). by apply Hemit.
    + destruct H as (_ & _ & _ & H).
      apply (feedTextToMustacheStatement_fuel (processText fuel)
               (set_mustacheStatement (Some (MustacheStatement.new (line tk))) tk)
               (MustacheStatement.new (line tk)) text); try done.
      apply wfm_left.
    + destruct H as (_ & _ & _ & ->). by apply Hemit.
Qed.

Lemma processLines_fuel lines : forall tk,
  keepsSeeking tk -> processLines tk lines <> Err OutOfFuel.
Proof.
  induction lines as [|text lines IH]; intros tk Hkeep; simpl; [done|].
  unfold processLine.
  destruct (processText_fuel (S (length text)) (set_line (line tk + 1) tk) text)
    as [Hne Hok]; [lia|done|].
  destruct (processText _ _ _) as [tk1|e]; simpl; [|done].
  apply IH. by apply Hok.
Qed.

(** [parse] never runs out of fuel: the bound on the calls of
    [processText] in [processLine] does not show in its results. *)
Lemma parse_fuel template tagsDef : parse template tagsDef <> Err OutOfFuel.
Proof.
  unfold parse.
  pose proof (processLines_fuel (splitEOL template) (new tagsDef)) as H.
  destruct (processLines _ _); simpl; [done|]. apply H. by intros m Hm.
Qed.

End Fuel.

(** * Further properties of the statements and of the tokenizer *)

(** ** CharBucket: what each mode keeps *)

(** A character that is no whitespace. *)
Definition nonspace (c : ascii) : bool := negb (is_space c).

(** No two neighbours in [cs] are both whitespace, and the first is none
    when [prev] says that whitespace came before. *)
Fixpoint spaced (prev : bool) (cs : str) : bool :=
  match cs with
  | [] => true
  | c :: rest => negb (is_space c && prev) && spaced (is_space c) rest
  end.

Section Modes.

Lemma feedAll_mode_all cs : forall b,
  CharBucket.mode b = ALL ->
  CharBucket.feedAll b cs
  = CharBucket.mk ALL (CharBucket.chars b ++ cs) (CharBucket.lastChar b).
Proof.
  induction cs as [|c cs IH]; intros b Hm; simpl.
  - rewrite app_nil_r. destruct b. simpl in Hm. by subst.
  - rewrite IH; unfold CharBucket.feed; rewrite Hm; simpl; [|done].
    by rewrite <- app_assoc.
Qed.

Lemma feedAll_mode_none cs : forall b,
  CharBucket.mode b = NONE ->
  CharBucket.feedAll b cs
  = CharBucket.mk NONE (CharBucket.chars b ++ List.filter nonspace cs)
      (CharBucket.lastChar b).
Proof.
  induction cs as [|c cs IH]; intros b Hm; simpl.
  - rewrite app_nil_r. destruct b. simpl in Hm. by subst.
  - unfold nonspace at 1. destruct (is_space c) eqn:Hc; simpl.
    + rewrite IH; unfold CharBucket.feed; rewrite Hm; simpl; rewrite Hc; done.
    + rewrite IH; unfold CharBucket.feed; rewrite Hm; simpl; rewrite Hc; [|done].
      simpl. by rewrite <- app_assoc.
Qed.

Lemma filter_collapseAfter cs : forall prev,
  List.filter nonspace (collapseAfter prev cs) = List.filter nonspace cs.
Proof.
  induction cs as [|c cs IH]; intros prev; simpl; [done|].
  unfold nonspace at 2. destruct (is_space c) eqn:Hc, prev; simpl;
    unfold nonspace at 1; rewrite ?Hc; simpl; by rewrite IH.
Qed.

Lemma spaced_collapseAfter cs : forall prev,
  spaced prev (collapseAfter prev cs) = true.
Proof.
  induction cs as [|c cs IH]; intros prev; simpl; [done|].
  destruct (is_space c) eqn:Hc, prev; simpl; rewrite ?Hc; simpl; by rewrite ?IH.
Qed.

Lemma collapseAfter_spaced cs : forall prev,
  spaced prev cs = true -> collapseAfter prev cs = cs.
Proof.
  induction cs as [|c cs IH]; intros prev H; simpl in *; [done|].
  apply andb_true_iff in H as [H1 H2]. apply negb_true_iff in H1.
  rewrite H1. by rewrite IH.
Qed.

Lemma spaced_lookup cs : forall prev i a b,
  spaced prev cs = true ->
  cs !! i = Some a -> cs !! S i = Some b ->
  is_space a && is_space b = false.
Proof.
  induction cs as [|c cs IH]; intros prev i a b H Ha Hb; [done|].
  simpl in H. apply andb_true_iff in H as [_ H].
  destruct i as [|i].
  - simpl in Ha, Hb. simplify_eq. destruct cs as [|d cs]; [done|].
    simpl in Hb. simplify_eq. simpl in H.
    apply andb_true_iff in H as [H _]. apply negb_true_iff in H.
    by rewrite andb_comm.
  - by apply (IH (is_space c) i).
Qed.

End Modes.

(** X1. A bucket in NONE mode holds the characters fed to it that are no
    whitespace, in the order fed; a bucket in ALL mode holds every character
    fed to it. *)
Theorem X1_bucket_none_all (cs : str) :
  CharBucket.get (CharBucket.feedAll (CharBucket.new NONE) cs)
  = List.filter nonspace cs
  /\ CharBucket.get (CharBucket.feedAll (CharBucket.new ALL) cs) = cs.
Proof.
  split.
  - by rewrite feedAll_mode_none.
  - by rewrite feedAll_mode_all.
Qed.

(** X2. What a bucket in CONTROLLED mode holds has the characters of the
    input that are no whitespace, all of them and in their order; no two
    characters next to each other in it are both whitespace; and fed to a
    fresh bucket in CONTROLLED mode it comes out unchanged. *)
Theorem X2_controlled_shape (cs : str) :
  let out := CharBucket.get (CharBucket.feedAll (CharBucket.new CONTROLLED) cs) in
  List.filter nonspace out = List.filter nonspace cs
  /\ (forall i a b, out !! i = Some a -> out !! S i = Some b ->
                    is_space a && is_space b = false)
  /\ CharBucket.get (CharBucket.feedAll (CharBucket.new CONTROLLED) out) = out.
Proof.
  intros out. unfold out. rewrite !get_feedAll_controlled.
  destruct (collapseRuns_collapseAfter cs) as [-> _].
  split; [apply filter_collapseAfter|]. split.
  - intros i a b. apply (spaced_lookup _ false). apply spaced_collapseAfter.
  - destruct (collapseRuns_collapseAfter (collapseAfter false cs)) as [-> _].
    apply collapseAfter_spaced, spaced_collapseAfter.
Qed.

(** ** TagStatement: the loop of [feedSeekable], one character at a time *)

(** The parenthesis counter after the character [c]. *)
Definition countParen (c : ascii) (par : Z) : Z :=
  if Ascii.eqb c "(" then (par + 1)%Z
  else if Ascii.eqb c ")" then (par - 1)%Z
  else par.

(** The depth of parentheses after [cs], read from depth [d]; [None] when
    a closing parenthesis is met at depth zero. *)
Fixpoint parenDepth (d : Z) (cs : str) : option Z :=
  match cs with
  | [] => Some d
  | c :: rest =>
      if Ascii.eqb c ")" && (d =? 0)%Z then None
      else parenDepth (countParen c d) rest
  end.

(** Calls of [feed], one line after the other. *)
Fixpoint feedLines (s : TagStatement.t) (lines : list str) : result TagStatement.t :=
  match lines with
  | [] => Ok s
  | line :: lines => let* s := TagStatement.feed s line in feedLines s lines
  end.

(** The lines from the first one that is not empty. *)
Fixpoint skipEmpty (lines : list str) : list str :=
  match lines with
  | [] :: lines => skipEmpty lines
  | _ => lines
  end.

Section TagLoop.

Import TagStatement.

Lemma open_code c : (nat_of_ascii c =? OPENING_BRACE) = Ascii.eqb c "(".
Proof. apply (code_eqb c "("). Qed.

Lemma close_code c : (nat_of_ascii c =? CLOSING_BRACE) = Ascii.eqb c ")".
Proof. apply (code_eqb c ")"). Qed.

(** What [setProp] copies from the buckets. *)
Definition copied (cp : PropName) (ip : InternalProps) (pr : Props.t) : Props.t :=
  match cp with
  | name => Props.mk (CharBucket.get (i_name ip)) (Props.jsArg pr) (Props.raw pr)
  | jsArg => Props.mk (Props.name pr) (CharBucket.get (i_jsArg ip)) (Props.raw pr)
  end.

Lemma endStatement_eq pos sk st en pr cp par ip c :
  endStatement (mk pos sk st en pr cp par (Some ip)) c
  = if st then Ok (mk pos sk st true (copied cp ip pr) cp par None)
    else Err (WrapStatement c).
Proof. unfold endStatement. by destruct st, cp. Qed.

(** One turn of the loop. *)
Lemma feedSeekableChars_cons pos sk st en pr cp par ip c chars :
  feedSeekableChars (mk pos sk st en pr cp par (Some ip)) (c :: chars) =
    match cp, Ascii.eqb c "(", Ascii.eqb c ")" && (par =? 0)%Z with
    | name, true, _ =>
        feedSeekableChars (mk pos sk true en (copied name ip pr) jsArg par (Some ip)) chars
    | _, _, true =>
        let* _ := ensureNoMoreCharsToFeed chars in
        endStatement (mk pos sk st en pr cp par (Some ip)) c
    | _, _, false =>
        feedSeekableChars
          (mk pos sk st en pr cp (countParen c par) (Some (feedInto cp ip [c]))) chars
    end.
Proof.
  cbn [feedSeekableChars]. unfold isStartOfStatement, isEndOfStatement.
  cbn [currentProp internalParens]. rewrite open_code, close_code.
  destruct (Ascii.eqb_spec c "(") as [->|Ho].
  - destruct cp; [done|]. simpl.
    unfold feedChar. simpl. by destruct ip.
  - cbn [andb]. destruct (Ascii.eqb c ")" && (par =? 0)%Z) eqn:Hend.
    + by destruct cp.
    + unfold feedChar, countParen. rewrite open_code, close_code.
      apply Ascii.eqb_neq in Ho. rewrite Ho.
      destruct (Ascii.eqb c ")"), cp, ip; reflexivity.
Qed.

Lemma parenDepth_app xs : forall d ys,
  parenDepth d (xs ++ ys)
  = match parenDepth d xs with
    | Some d' => parenDepth d' ys
    | None => None
    end.
Proof.
  induction xs as [|c xs IH]; intros d ys; simpl; [done|].
  destruct (_ && _); [done|]. apply IH.
Qed.

(** Characters that are not parentheses leave the depth as it is. *)
Lemma parenDepth_noParen cs : forall d,
  forallb noParen cs = true -> parenDepth d cs = Some d.
Proof.
  induction cs as [|c cs IH]; intros d H; simpl in *; [done|].
  apply andb_true_iff in H as [Hc H]. unfold noParen in Hc.
  apply andb_true_iff in Hc as [Ho Hcl]. apply negb_true_iff in Ho, Hcl.
  unfold countParen. rewrite Ho, Hcl. simpl. by apply IH.
Qed.

(** The statement reads an argument whose parentheses match, and what
    comes after it is read at the depth the argument leaves. *)
Lemma feedSeekableChars_nested arg : forall pos sk st en pr d d' ip rest,
  parenDepth d arg = Some d' ->
  feedSeekableChars (mk pos sk st en pr jsArg d (Some ip)) (arg ++ rest)
  = feedSeekableChars (mk pos sk st en pr jsArg d' (Some (feedInto jsArg ip arg))) rest.
Proof.
  induction arg as [|c arg IH]; intros pos sk st en pr d d' ip rest H.
  - simpl in H. simplify_eq. simpl. by destruct ip.
  - simpl in H. cbn [app]. rewrite feedSeekableChars_cons.
    destruct (Ascii.eqb c ")" && (d =? 0)%Z); [done|].
    destruct (Ascii.eqb c "("); by rewrite (IH _ _ _ _ _ _ d').
Qed.

(** The loop leaves alone where the statement began, whether it takes
    arguments, and the raw text. *)
Lemma feedSeekableChars_frame chars : forall s s',
  feedSeekableChars s chars = Ok s' ->
  startPosition s' = startPosition s
  /\ seekable s' = seekable s
  /\ Props.raw (props s') = Props.raw (props s).
Proof.
  induction chars as [|c chars IH]; intros s s' H; simpl in H.
  - by simplify_eq.
  - destruct (isStartOfStatement _ _).
    + unfold startStatement, setProp in H.
      destruct (internalProps s); [|done]. simpl in H.
      apply IH in H as (-> & -> & ->). simpl. by destruct (currentProp s).
    + destruct (isEndOfStatement _ _).
      * destruct (ensureNoMoreCharsToFeed chars); [|done]. simpl in H.
        unfold endStatement, setProp in H.
        destruct (negb (started s)); [done|]. simpl in H.
        destruct (internalProps s); [|done]. simpl in H. simplify_eq. simpl.
        by destruct (currentProp s).
      * destruct (feedChar _ _ _) as [s1|] eqn:H1; [|done]. simpl in H.
        apply IH in H as (-> & -> & ->).
        unfold feedChar in H1. repeat case_match; by simplify_eq.
Qed.

Lemma feed_frame s line s' :
  feed s line = Ok s' ->
  startPosition s' = startPosition s
  /\ seekable s' = seekable s
  /\ Props.raw (props s')
     = match Props.raw (props s) with
       | [] => line
       | r => r ++ EOL :: line
       end.
Proof.
  unfold feed. destruct (ended s); [done|].
  assert (Props.raw (props (recordRaw s line))
          = match Props.raw (props s) with
            | [] => line
            | r => r ++ EOL :: line
            end
          /\ startPosition (recordRaw s line) = startPosition s
          /\ seekable (recordRaw s line) = seekable s) as (Hr & Hp & Hs).
  { unfold recordRaw. by destruct (Props.raw (props s)). }
  destruct (negb (seekable (recordRaw s line))).
  - intros H. simplify_eq. simpl. by rewrite Hr.
  - unfold feedSeekable.
    destruct (feedSeekableChars _ _) as [s1|] eqn:H1; [|done]. simpl.
    intros H. apply feedSeekableChars_frame in H1 as (H1 & H2 & H3).
    simplify_eq.
    destruct (negb (seeking s1)); simpl; by rewrite H1, H2, H3, Hr, Hp, Hs.
Qed.

Lemma joinEOL_cons line lines :
  joinEOL (line :: lines) = line ++ flat_map (fun l => EOL :: l) lines.
Proof.
  revert line. induction lines as [|l lines IH]; intros line.
  - simpl. by rewrite app_nil_r.
  - change (joinEOL (line :: l :: lines)) with (line ++ EOL :: joinEOL (l :: lines)).
    by rewrite IH.
Qed.

Lemma feedLines_raw_more lines : forall s s',
  Props.raw (props s) <> [] ->
  feedLines s lines = Ok s' ->
  Props.raw (props s')
  = Props.raw (props s) ++ flat_map (fun l => EOL :: l) lines.
Proof.
  induction lines as [|line lines IH]; intros s s' Hne H; simpl in H.
  - simplify_eq. simpl. by rewrite app_nil_r.
  - destruct (feed s line) as [s1|] eqn:H1; [|done]. simpl in H.
    apply feed_frame in H1 as (_ & _ & Hr).
    destruct (Props.raw (props s)) as [|r rs] eqn:Hraw; [done|].
    rewrite (IH s1 s'), Hr; [|by rewrite Hr|done].
    simpl. by rewrite <- app_assoc.
Qed.

Lemma feedLines_raw lines : forall s s',
  Props.raw (props s) = [] ->
  feedLines s lines = Ok s' ->
  Props.raw (props s') = joinEOL (skipEmpty lines).
Proof.
  induction lines as [|line lines IH]; intros s s' Hraw H; simpl in H.
  - by simplify_eq.
  - destruct (feed s line) as [s1|] eqn:H1; [|done]. simpl in H.
    apply feed_frame in H1 as (_ & _ & Hr). rewrite Hraw in Hr.
    destruct line as [|c line].
    + simpl. by apply (IH s1).
    + cbn [skipEmpty]. rewrite joinEOL_cons, <- Hr.
      apply feedLines_raw_more; [by rewrite Hr|done].
Qed.

End TagLoop.

(** X3. The raw text of a tag statement is made of the lines fed to it,
    with a line feed between two lines; empty lines fed before the first
    line that is not empty leave no trace. *)
Theorem X3_tag_raw_lines (startPosition : nat) (seekable : bool)
    (lines : list str) (s : TagStatement.t) :
  feedLines (TagStatement.new startPosition seekable) lines = Ok s ->
  Props.raw (TagStatement.props s) = joinEOL (skipEmpty lines)
  /\ TagStatement.startPosition s = startPosition.
Proof.
  intros H. split; [by apply (feedLines_raw lines (TagStatement.new startPosition seekable))|].
  assert (forall ls s0 s1, feedLines s0 ls = Ok s1 ->
            TagStatement.startPosition s1 = TagStatement.startPosition s0) as Hpos.
  { induction ls as [|l ls IH]; intros s0 s1 H0; simpl in H0; [by simplify_eq|].
    destruct (TagStatement.feed s0 l) as [s2|] eqn:H2; [|done].
    apply feed_frame in H2 as (<- & _). by apply IH. }
  by apply Hpos in H.
Qed.

Lemma X3_tag_raw_lines_witness :
  exists s,
    feedLines (TagStatement.new 4 true) [[]; js "if("; []; js "username"; js ")"] = Ok s
    /\ Props.raw (TagStatement.props s)
       = js "if(" ++ EOL :: EOL :: js "username" ++ EOL :: js ")".
Proof.
  eexists. split; [vm_compute; reflexivity|].
  apply (X3_tag_raw_lines 4 true [[]; js "if("; []; js "username"; js ")"]).
  vm_compute. reflexivity.
Defined.

(** ** TagStatement: what holds of every statement *)

Section TagInvariant.

Import TagStatement.

(** The buckets of a statement that has not ended: the name holds no
    whitespace, the argument no two whitespace characters in a row, and
    the counter is the depth of the parentheses the argument holds. *)
Definition bucketsInv (cp : PropName) (st : bool) (par : Z) (ip : InternalProps)
  : Prop :=
  CharBucket.mode (i_name ip) = NONE
  /\ CharBucket.mode (i_jsArg ip) = CONTROLLED
  /\ forallb nonspace (CharBucket.chars (i_name ip)) = true
  /\ CharBucket.lastChar (i_jsArg ip) = last (CharBucket.chars (i_jsArg ip))
  /\ spaced false (CharBucket.chars (i_jsArg ip)) = true
  /\ parenDepth 0 (CharBucket.chars (i_jsArg ip)) = Some par
  /\ match cp with
     | name => st = false /\ par = 0%Z
     | jsArg => st = true
     end.

(** A statement that has not ended. *)
Definition openInv (s : t) : Prop :=
  exists pos sk st pr cp par ip,
    s = mk pos sk st false pr cp par (Some ip)
    /\ bucketsInv cp st par ip
    /\ Props.jsArg pr = []
    /\ forallb nonspace (Props.name pr) = true.

(** A statement that has ended. *)
Definition closedInv (s : t) : Prop :=
  ended s = true /\ started s = true /\ internalProps s = None
  /\ parenDepth 0 (Props.jsArg (props s)) = Some 0%Z
  /\ spaced false (Props.jsArg (props s)) = true
  /\ (seekable s = true -> forallb nonspace (Props.name (props s)) = true).

Lemma is_space_noParen c : is_space c = true -> noParen c = true.
Proof. destruct c as [[] [] [] [] [] [] [] []]; by vm_compute. Qed.

Lemma countParen_noParen c d : noParen c = true -> countParen c d = d.
Proof.
  unfold noParen, countParen. intros H.
  apply andb_true_iff in H as [Ho Hc]. apply negb_true_iff in Ho, Hc.
  by rewrite Ho, Hc.
Qed.

Lemma spaced_snoc cs : forall prev c,
  spaced prev (cs ++ [c])
  = spaced prev cs
    && negb (is_space c && match last cs with
                           | Some a => is_space a
                           | None => prev
                           end).
Proof.
  induction cs as [|a cs IH]; intros prev c; simpl.
  - by rewrite andb_true_r.
  - rewrite IH, andb_assoc. destruct cs as [|b cs]; [done|].
    rewrite (last_cons_cons a b cs).
    destruct (last (b :: cs)) eqn:Hl; [done|]. by apply last_None in Hl.
Qed.

Lemma forallb_snoc {A} (f : A -> bool) xs x :
  forallb f (xs ++ [x]) = forallb f xs && f x.
Proof. rewrite forallb_app. simpl. by rewrite andb_true_r. Qed.

(** A character that neither starts nor ends the statement goes to the
    current bucket. *)
Lemma bucketsInv_feed cp st par ip c :
  bucketsInv cp st par ip ->
  match cp with name => Ascii.eqb c "(" | jsArg => false end = false ->
  Ascii.eqb c ")" && (par =? 0)%Z = false ->
  bucketsInv cp st (countParen c par) (feedInto cp ip [c]).
Proof.
  intros (Hn & Hj & Hns & Hlast & Hsp & Hd & Hcp) Hstart Hend.
  destruct cp; simpl.
  - destruct Hcp as [-> ->]. rewrite andb_true_r in Hend.
    assert (countParen c 0 = 0%Z) as ->
      by (unfold countParen; by rewrite Hstart, Hend).
    repeat split; try done.
    + unfold CharBucket.feed. rewrite Hn. by destruct (whitespace _).
    + unfold CharBucket.feed. rewrite Hn. simpl.
      destruct (is_space c) eqn:Hc; [done|]. simpl.
      rewrite forallb_snoc, Hns. unfold nonspace. by rewrite Hc.
  - rewrite (feed_controlled _ _ Hj).
    destruct (is_space c && whitespace (CharBucket.lastChar (i_jsArg ip))) eqn:Hdrop.
    + apply andb_true_iff in Hdrop as [Hc _].
      rewrite countParen_noParen by by apply is_space_noParen.
      done.
    + simpl. repeat split; try done;
        cbn [i_jsArg i_name CharBucket.chars CharBucket.lastChar CharBucket.mode].
      * by rewrite last_snoc.
      * rewrite spaced_snoc, Hsp. simpl. rewrite Hlast in Hdrop.
        unfold whitespace in Hdrop. destruct (last _); by rewrite Hdrop.
      * rewrite parenDepth_app, Hd. simpl. by rewrite Hend.
Qed.

(** The loop of [feedSeekable] on a statement that has not ended. *)
Lemma feedSeekableChars_inv chars : forall pos sk st pr cp par ip,
  bucketsInv cp st par ip ->
  Props.jsArg pr = [] ->
  forallb nonspace (Props.name pr) = true ->
  match feedSeekableChars (mk pos sk st false pr cp par (Some ip)) chars with
  | Ok s' => (openInv s' \/ closedInv s') /\ seekable s' = sk
  | Err e => (exists rest, e = WriteInNewLine rest) \/ e = WrapStatement ")"
  end.
Proof.
  induction chars as [|c chars IH]; intros pos sk st pr cp par ip Hb Hja Hnm.
  - simpl. split; [|done]. left. by exists pos, sk, st, pr, cp, par, ip.
  - rewrite feedSeekableChars_cons.
    destruct (match cp with name => Ascii.eqb c "(" | jsArg => false end) eqn:Hstart.
    + destruct cp; [|done]. rewrite Hstart.
      destruct Hb as (Hn & Hj & Hns & Hlast & Hsp & Hd & _ & ->).
      apply IH; try done; by repeat split.
    + destruct (Ascii.eqb c ")" && (par =? 0)%Z) eqn:Hend.
      * assert (c = ")"%char) as ->.
        { apply andb_true_iff in Hend as [Hc _]. by apply Ascii.eqb_eq in Hc. }
        assert (par = 0%Z) as ->.
        { apply andb_true_iff in Hend as [_ Hp]. by apply Z.eqb_eq in Hp. }
        assert (match cp, Ascii.eqb ")" "(", true with
                | name, true, _ =>
                    feedSeekableChars
                      (mk pos sk true false (copied name ip pr) jsArg 0 (Some ip)) chars
                | _, _, true =>
                    let* _ := ensureNoMoreCharsToFeed chars in
                    endStatement (mk pos sk st false pr cp 0 (Some ip)) ")"
                | _, _, false =>
                    feedSeekableChars
                      (mk pos sk st false pr cp (countParen ")" 0)
                         (Some (feedInto cp ip [")"%char]))) chars
                end
                = let* _ := ensureNoMoreCharsToFeed chars in
                  endStatement (mk pos sk st false pr cp 0 (Some ip)) ")") as ->
          by by destruct cp.
        destruct chars as [|c' chars]; simpl; [|left; by eexists].
        rewrite endStatement_eq.
        destruct st; [|by right].
        destruct Hb as (Hn & Hj & Hns & Hlast & Hsp & Hd & Hcp).
        destruct cp; [by destruct Hcp|].
        split; [|done]. right. by repeat split.
      * assert (match cp, Ascii.eqb c "(", false with
                | name, true, _ =>
                    feedSeekableChars
                      (mk pos sk true false (copied name ip pr) jsArg par (Some ip)) chars
                | _, _, true =>
                    let* _ := ensureNoMoreCharsToFeed chars in
                    endStatement (mk pos sk st false pr cp par (Some ip)) c
                | _, _, false =>
                    feedSeekableChars
                      (mk pos sk st false pr cp (countParen c par)
                         (Some (feedInto cp ip [c]))) chars
                end
                = feedSeekableChars
                    (mk pos sk st false pr cp (countParen c par)
                       (Some (feedInto cp ip [c]))) chars) as ->.
        { destruct cp; [by rewrite Hstart|]. by destruct (Ascii.eqb c "("). }
        apply IH; try done. by apply bucketsInv_feed.
Qed.

(** What holds of a fresh statement and is kept by every call of [feed]
    that returns. *)
Definition tagInv (s : t) : Prop := openInv s \/ closedInv s.

Lemma new_inv startPosition seekable : tagInv (new startPosition seekable).
Proof.
  left. unfold new. eexists _, _, _, _, _, _, _. split; [reflexivity|].
  by repeat split.
Qed.

Lemma feed_inv s line :
  tagInv s ->
  match feed s line with
  | Ok s' => tagInv s'
  | Err e => (exists rest, e = WriteInNewLine rest) \/ e = WrapStatement ")"
  end.
Proof.
  intros [(pos & sk & st & pr & cp & par & ip & -> & Hb & Hja & Hnm)
         |(He & _)].
  - unfold feed, recordRaw. cbn [ended props].
    assert (exists r,
      (match Props.raw pr with
       | [] =>
           set_props (Props.mk (Props.name pr) (Props.jsArg pr) (Props.raw pr ++ line))
             (mk pos sk st false pr cp par (Some ip))
       | _ :: _ =>
           set_props
             (Props.mk (Props.name pr) (Props.jsArg pr) (Props.raw pr ++ EOL :: line))
             (mk pos sk st false pr cp par (Some ip))
       end)
      = mk pos sk st false (Props.mk (Props.name pr) (Props.jsArg pr) r) cp par (Some ip))
      as (r & ->).
    { destruct (Props.raw pr); by eexists. }
    cbn [seekable]. destruct sk; cbn [negb].
    + unfold feedSeekable.
      pose proof (feedSeekableChars_inv line pos true st
                    (Props.mk (Props.name pr) (Props.jsArg pr) r) cp par ip Hb Hja Hnm)
        as Hloop.
      destruct (feedSeekableChars _ line) as [s1|e]; [|done]. cbn [bind].
      destruct Hloop as [[Ho|Hc] Hsk].
      * destruct Ho as (pos1 & sk1 & st1 & pr1 & cp1 & par1 & ip1 & -> & Hrest).
        unfold seeking. cbn [started ended negb]. rewrite orb_true_r. cbn [negb].
        left. by exists pos1, sk1, st1, pr1, cp1, par1, ip1.
      * right. destruct Hc as (H1 & H2 & H3 & H4 & H5 & H6).
        unfold seeking. rewrite H1, H2. simpl. by repeat split.
    + right. unfold feedNonSeekable. simpl. rewrite Hja. by repeat split.
  - unfold feed. rewrite He. left. by eexists.
Qed.

Lemma tag_reachable_inv s : tag_reachable s -> tagInv s.
Proof.
  induction 1 as [|s line s' _ IH H]; [apply new_inv|].
  pose proof (feed_inv s line IH) as Hf. by rewrite H in Hf.
Qed.

End TagInvariant.

(** X4. A tag statement that was made by [new] and fed any lines raises
    no other errors than the two of its source: the "Write in a new line"
    error and the "Wrap statement inside ()" error for a closing
    parenthesis. The buckets it reads from are never [null] when it reads
    them. *)
Theorem X4_tag_feed_errors (s : TagStatement.t) (line : str) (e : Error) :
  tag_reachable s ->
  TagStatement.feed s line = Err e ->
  (exists rest, e = WriteInNewLine rest) \/ e = WrapStatement ")".
Proof.
  intros Hr H. pose proof (feed_inv s line (tag_reachable_inv s Hr)) as Hf.
  by rewrite H in Hf.
Qed.

Lemma X4_tag_feed_errors_witness :
  TagStatement.feed (TagStatement.new 1 true) (js "if)") = Err (WrapStatement ")")
  /\ ((exists rest, WrapStatement ")" = WriteInNewLine rest)
      \/ WrapStatement ")" = WrapStatement ")").
Proof.
  split; [vm_compute; reflexivity|].
  apply (X4_tag_feed_errors (TagStatement.new 1 true) (js "if)") (WrapStatement ")")).
  - constructor.
  - vm_compute. reflexivity.
Defined.

(** X5. When a tag statement has ended, the parentheses of the argument
    it has collected match: read from the left, the depth never falls below
    zero and is zero at the end. The statement is then started, it seeks
    no more, and it has let go of its buckets. *)
Theorem X5_tag_argument_nested (s : TagStatement.t) :
  tag_reachable s ->
  TagStatement.ended s = true ->
  parenDepth 0 (Props.jsArg (TagStatement.props s)) = Some 0%Z
  /\ TagStatement.started s = true
  /\ TagStatement.seeking s = false
  /\ TagStatement.internalProps s = None.
Proof.
  intros Hr He. apply tag_reachable_inv in Hr
    as [(pos & sk & st & pr & cp & par & ip & -> & _)|(_ & Hst & Hip & Hd & _)];
    [done|].
  unfold TagStatement.seeking. by rewrite Hst, He.
Qed.

(** The statement that the line [if(f(a, g(b)))] leaves. *)
Definition nestedCall : TagStatement.t :=
  TagStatement.mk 1 true true true
    (Props.mk (js "if") (js "f(a, g(b))") (js "if(f(a, g(b)))"))
    TagStatement.jsArg 0%Z None.

Lemma nestedCall_reachable : tag_reachable nestedCall.
Proof.
  apply (tag_reach_feed (TagStatement.new 1 true) (js "if(f(a, g(b)))"));
    [constructor|]. vm_compute. reflexivity.
Qed.

Lemma X5_tag_argument_nested_witness :
  parenDepth 0 (Props.jsArg (TagStatement.props nestedCall)) = Some 0%Z
  /\ TagStatement.started nestedCall = true
  /\ TagStatement.seeking nestedCall = false
  /\ TagStatement.internalProps nestedCall = None.
Proof.
  apply (X5_tag_argument_nested nestedCall nestedCall_reachable). reflexivity.
Defined.

(** X6. The name a statement that takes arguments has collected holds no
    whitespace character, and in the argument it has collected no two
    characters next to each other are both whitespace, also where the
    argument runs over several lines. *)
Theorem X6_tag_whitespace (s : TagStatement.t) :
  tag_reachable s ->
  (TagStatement.seekable s = true ->
   forallb nonspace (Props.name (TagStatement.props s)) = true)
  /\ (forall i a b,
        Props.jsArg (TagStatement.props s) !! i = Some a ->
        Props.jsArg (TagStatement.props s) !! S i = Some b ->
        is_space a && is_space b = false).
Proof.
  intros Hr. apply tag_reachable_inv in Hr
    as [(pos & sk & st & pr & cp & par & ip & -> & _ & Hja & Hnm)
       |(_ & _ & _ & _ & Hsp & Hnm)].
  - split; [done|]. simpl. rewrite Hja. by intros i a b H.
  - split; [done|]. intros i a b. by apply (spaced_lookup _ false).
Qed.

(** The statement that the line [i f (a   b)] leaves. *)
Definition spacedCall : TagStatement.t :=
  TagStatement.mk 1 true true true
    (Props.mk (js "if") (js "a b") (js "i f (a   b)"))
    TagStatement.jsArg 0%Z None.

Lemma spacedCall_reachable : tag_reachable spacedCall.
Proof.
  apply (tag_reach_feed (TagStatement.new 1 true) (js "i f (a   b)"));
    [constructor|]. vm_compute. reflexivity.
Qed.

Lemma X6_tag_whitespace_witness :
  forallb nonspace (Props.name (TagStatement.props spacedCall)) = true.
Proof.
  destruct (X6_tag_whitespace spacedCall spacedCall_reachable) as [Hname _].
  exact (Hname eq_refl).
Defined.

(** ** TagStatement: one line, and one line cut in two *)

(** [f] applied to what a call returns. *)
Definition mapResult {A B} (f : A -> B) (r : result A) : result B :=
  let* a := r in Ok (f a).

(** The statement with another raw text. *)
Definition withRaw (raw : str) (s : TagStatement.t) : TagStatement.t :=
  TagStatement.set_props
    (Props.mk (Props.name (TagStatement.props s)) (Props.jsArg (TagStatement.props s))
       raw) s.

Section TagLines.

Import TagStatement.

Lemma feedSeekableChars_withRaw chars : forall s raw,
  feedSeekableChars (withRaw raw s) chars
  = mapResult (withRaw raw) (feedSeekableChars s chars).
Proof.
  induction chars as [|c chars IH]; intros s raw; [done|].
  destruct s as [pos sk st en pr cp par [ip|]].
  - change (withRaw raw (mk pos sk st en pr cp par (Some ip)))
      with (mk pos sk st en (Props.mk (Props.name pr) (Props.jsArg pr) raw) cp par
              (Some ip)).
    rewrite !feedSeekableChars_cons.
    destruct cp, (Ascii.eqb c "("), (Ascii.eqb c ")" && (par =? 0)%Z);
      try (rewrite <- IH; reflexivity).
    all: destruct chars; try reflexivity.
    all: unfold mapResult; cbn [bind ensureNoMoreCharsToFeed].
    all: rewrite !endStatement_eq; by destruct st.
  - cbn [feedSeekableChars]. unfold isStartOfStatement, isEndOfStatement.
    cbn [withRaw set_props props startPosition seekable started ended
      currentProp internalParens internalProps].
    destruct (_ && _); [done|].
    destruct (_ && _).
    + destruct chars; [|done]. simpl. unfold endStatement. simpl.
      by destruct (negb st).
    + unfold feedChar. by repeat case_match.
Qed.

Lemma withRaw_withRaw r1 r2 s : withRaw r1 (withRaw r2 s) = withRaw r1 s.
Proof. by destruct s. Qed.

Lemma recordRaw_withRaw s line :
  recordRaw s line
  = withRaw (match Props.raw (props s) with
             | [] => line
             | r => r ++ EOL :: line
             end) s.
Proof. unfold recordRaw, withRaw. by destruct (Props.raw (props s)). Qed.

(** The loop that has read [l1] without ending the statement goes on
    with [l2] as if it were called afresh. *)
Lemma feedSeekableChars_app l1 : forall s s1 l2,
  feedSeekableChars s l1 = Ok s1 ->
  ended s1 = false ->
  feedSeekableChars s (l1 ++ l2) = feedSeekableChars s1 l2.
Proof.
  induction l1 as [|c l1 IH]; intros s s1 l2 H He; simpl in H.
  - by simplify_eq.
  - cbn [app feedSeekableChars].
    destruct (isStartOfStatement _ _).
    + destruct (startStatement s) as [s2|]; [|done]. by apply IH.
    + destruct (isEndOfStatement _ _).
      * destruct (ensureNoMoreCharsToFeed l1); [|done]. simpl in H.
        apply endStatement_flags in H as [_ H]. congruence.
      * destruct (feedChar _ _ _) as [s2|]; [|done]. by apply IH.
Qed.

Lemma feed_open s line s1 :
  seekable s = true ->
  feed s line = Ok s1 -> ended s1 = false ->
  feedSeekableChars (recordRaw s line) line = Ok s1.
Proof.
  intros Hsk H He. unfold feed in H. destruct (ended s); [done|].
  rewrite recordRaw_withRaw in H |- *.
  unfold withRaw at 1 in H. simpl in H. rewrite Hsk in H. simpl in H.
  unfold feedSeekable in H. fold (withRaw (match Props.raw (props s) with
                                            | [] => line
                                            | r => r ++ EOL :: line
                                            end) s) in H.
  destruct (feedSeekableChars _ _) as [s2|]; [|done]. simpl in H.
  destruct (negb (seeking s2)) eqn:Hs; simplify_eq; [|done].
  exfalso. unfold seeking in Hs. simpl in He. rewrite He in Hs.
  by rewrite orb_true_r in Hs.
Qed.

End TagLines.

(** X7. A closing parenthesis met before any opening one is an error. On
    a fresh statement that takes arguments, a line that has no parenthesis
    before its first [)] raises "Wrap statement inside ()" when the [)] is
    the last character of the line, and "Write in a new line" with the rest
    of the line when it is not: the check for characters after the [)]
    comes first. *)
Theorem X7_tag_closing_first (startPosition : nat) (pre rest : str) :
  forallb noParen pre = true ->
  TagStatement.feed (TagStatement.new startPosition true) (pre ++ ")"%char :: rest)
  = Err match rest with
        | [] => WrapStatement ")"
        | _ :: _ => WriteInNewLine rest
        end.
Proof.
  intros Hpre. unfold TagStatement.feed, TagStatement.new, TagStatement.recordRaw,
    TagStatement.feedSeekable, TagStatement.set_props. simpl.
  rewrite feedSeekableChars_plain by done.
  rewrite feedSeekableChars_cons. simpl.
  destruct rest; [|done]. cbn [bind TagStatement.ensureNoMoreCharsToFeed].
  by rewrite endStatement_eq.
Qed.

Lemma X7_tag_closing_first_witness :
  TagStatement.feed (TagStatement.new 1 true) (js "endif)") = Err (WrapStatement ")")
  /\ TagStatement.feed (TagStatement.new 1 true) (js "endif) x") = Err (WriteInNewLine (js " x")).
Proof.
  split.
  - apply (X7_tag_closing_first 1 (js "endif") []). reflexivity.
  - apply (X7_tag_closing_first 1 (js "endif") (js " x")). reflexivity.
Defined.

(** A fresh statement fed the one line [name(arg)]. *)
Lemma feed_one_line startPosition (tagName arg : str) :
  forallb noParen tagName = true ->
  parenDepth 0 arg = Some 0%Z ->
  TagStatement.feed (TagStatement.new startPosition true)
    (tagName ++ "("%char :: arg ++ [")"%char])
  = Ok (TagStatement.mk startPosition true true true
          (Props.mk (List.filter nonspace tagName) (collapseRuns arg)
             (tagName ++ "("%char :: arg ++ [")"%char]))
          TagStatement.jsArg 0%Z None).
Proof.
  intros Hname Harg.
  unfold TagStatement.feed, TagStatement.new, TagStatement.recordRaw,
    TagStatement.feedSeekable, TagStatement.set_props. simpl.
  rewrite feedSeekableChars_plain by done.
  rewrite feedSeekableChars_cons. simpl.
  rewrite (feedSeekableChars_nested arg _ _ _ _ _ _ 0%Z) by done.
  rewrite feedSeekableChars_cons.
  cbn [Ascii.eqb Bool.eqb andb Z.eqb bind TagStatement.ensureNoMoreCharsToFeed].
  rewrite endStatement_eq.
  unfold TagStatement.seeking, TagStatement.set_internalProps. simpl.
  by rewrite feedAll_mode_none, get_feedAll_controlled.
Qed.

(** A fresh statement fed a call that is cut in two lines inside its
    argument. *)
Lemma feed_two_lines startPosition (tagName arg1 arg2 : str) (d : Z) :
  forallb noParen tagName = true ->
  parenDepth 0 arg1 = Some d ->
  parenDepth d arg2 = Some 0%Z ->
  exists s1,
    TagStatement.feed (TagStatement.new startPosition true)
      (tagName ++ "("%char :: arg1) = Ok s1
    /\ TagStatement.seeking s1 = true
    /\ TagStatement.feed s1 (arg2 ++ [")"%char])
       = Ok (TagStatement.mk startPosition true true true
               (Props.mk (List.filter nonspace tagName) (collapseRuns (arg1 ++ arg2))
                  (tagName ++ "("%char :: arg1 ++ EOL :: arg2 ++ [")"%char]))
               TagStatement.jsArg 0%Z None).
Proof.
  intros Hname H1 H2.
  eexists. split.
  { unfold TagStatement.feed, TagStatement.new, TagStatement.recordRaw,
      TagStatement.feedSeekable, TagStatement.set_props. simpl.
    rewrite feedSeekableChars_plain by done.
    rewrite feedSeekableChars_cons. simpl.
    rewrite <- (app_nil_r arg1) at 2.
    rewrite (feedSeekableChars_nested arg1 _ _ _ _ _ _ d) by done.
    simpl. reflexivity. }
  split; [done|].
  unfold TagStatement.feed, TagStatement.recordRaw, TagStatement.feedSeekable,
    TagStatement.set_props. simpl.
  assert (exists c raw, tagName ++ "("%char :: arg1 = c :: raw) as (c & raw & Hraw)
    by (destruct tagName; by eexists _, _).
  rewrite Hraw. rewrite <- Hraw. simpl.
  rewrite (feedSeekableChars_nested arg2 _ _ _ _ _ _ 0%Z) by done.
  rewrite feedSeekableChars_cons.
  cbn [Ascii.eqb Bool.eqb andb Z.eqb bind TagStatement.ensureNoMoreCharsToFeed].
  rewrite endStatement_eq.
  unfold TagStatement.seeking, TagStatement.set_internalProps. simpl.
  rewrite feedAll_mode_none by done.
  rewrite <- feedAll_app, get_feedAll_controlled.
  by rewrite <- !app_assoc.
Qed.

(** X8. A fresh statement that takes arguments, fed the one line
    [name(arg)] where [name] has no parenthesis and the parentheses of
    [arg] match, ends on that line. Its name is [name] without its
    whitespace, its argument is [arg] with every run of whitespace cut down
    to its first character, and its raw text is the line. *)
Theorem X8_tag_one_line (startPosition : nat) (tagName arg : str) :
  forallb noParen tagName = true ->
  parenDepth 0 arg = Some 0%Z ->
  TagStatement.feed (TagStatement.new startPosition true)
    (tagName ++ "("%char :: arg ++ [")"%char])
  = Ok (TagStatement.mk startPosition true true true
          (Props.mk (List.filter nonspace tagName) (collapseRuns arg)
             (tagName ++ "("%char :: arg ++ [")"%char]))
          TagStatement.jsArg 0%Z None).
Proof. apply feed_one_line. Qed.

Lemma X8_tag_one_line_witness :
  TagStatement.feed (TagStatement.new 1 true) (js "i f (f(a,   g(b)))")
  = Ok (TagStatement.mk 1 true true true
          (Props.mk (js "if") (js "f(a, g(b))") (js "i f (f(a,   g(b)))"))
          TagStatement.jsArg 0%Z None).
Proof.
  change (js "i f (f(a,   g(b)))")
    with (js "i f " ++ "("%char :: js "f(a,   g(b))" ++ [")"%char]) at 1.
  rewrite (X8_tag_one_line 1 (js "i f ") (js "f(a,   g(b))") eq_refl eq_refl).
  vm_compute. reflexivity.
Defined.

(** X9. Where a line is cut in two makes no difference to what a tag
    statement collects. When a statement that takes arguments has been
    fed [l1] and has not ended, feeding it [l2] gives what feeding [l1]
    followed by [l2] as one line would have given: the same error, or the
    same statement but for its raw text, which has the line break. *)
Theorem X9_tag_cut_line (s s1 : TagStatement.t) (l1 l2 : str) :
  TagStatement.seekable s = true ->
  TagStatement.feed s l1 = Ok s1 ->
  TagStatement.ended s1 = false ->
  mapResult (withRaw []) (TagStatement.feed s1 l2)
  = mapResult (withRaw []) (TagStatement.feed s (l1 ++ l2)).
Proof.
  intros Hsk H1 He1.
  pose proof (feed_open s l1 s1 Hsk H1 He1) as Hloop.
  apply feed_frame in H1 as (_ & Hsk1 & _).
  assert (TagStatement.ended s = false) as He.
  { unfold TagStatement.feed in Hloop.
    destruct (TagStatement.ended s) eqn:E; [|done].
    exfalso. clear -E Hloop He1.
    assert (forall chars s0 s2, TagStatement.feedSeekableChars s0 chars = Ok s2 ->
              TagStatement.ended s0 = true -> TagStatement.ended s2 = true) as Hkeep.
    { induction chars as [|c chars IH]; intros s0 s2 H0 E0; simpl in H0;
        [by simplify_eq|].
      destruct (TagStatement.isStartOfStatement _ _).
      - destruct (TagStatement.startStatement s0) as [s3|] eqn:H3; [|done].
        apply startStatement_flags in H3 as [_ H3]. apply (IH s3); [done|congruence].
      - destruct (TagStatement.isEndOfStatement _ _).
        + destruct (TagStatement.ensureNoMoreCharsToFeed chars); [|done].
          by apply endStatement_flags in H0 as [_ H0].
        + destruct (TagStatement.feedChar _ _ _) as [s3|] eqn:H3; [|done].
          apply feedChar_flags in H3 as [_ H3]. apply (IH s3); [done|congruence]. }
    apply Hkeep in Hloop; [congruence|].
    by destruct (recordRaw_flags s l1) as [-> _]. }
  unfold TagStatement.feed. rewrite He, He1.
  destruct (recordRaw_flags s (l1 ++ l2)) as [_ ->].
  destruct (recordRaw_flags s1 l2) as [_ ->].
  rewrite Hsk1, Hsk. cbn [negb]. unfold TagStatement.feedSeekable.
  rewrite (recordRaw_withRaw s (l1 ++ l2)), (recordRaw_withRaw s1 l2).
  rewrite recordRaw_withRaw in Hloop.
  set (r1 := match Props.raw (TagStatement.props s) with
             | [] => l1
             | r => r ++ EOL :: l1
             end) in *.
  set (r2 := match Props.raw (TagStatement.props s1) with
             | [] => l2
             | r => r ++ EOL :: l2
             end).
  set (r3 := match Props.raw (TagStatement.props s) with
             | [] => l1 ++ l2
             | r => r ++ EOL :: l1 ++ l2
             end).
  rewrite <- (withRaw_withRaw r3 r1 s).
  rewrite (feedSeekableChars_withRaw (l1 ++ l2) (withRaw r1 s) r3).
  rewrite (feedSeekableChars_app l1 _ s1 l2 Hloop He1).
  rewrite (feedSeekableChars_withRaw l2 s1 r2).
  destruct (TagStatement.feedSeekableChars s1 l2) as [[pos sk st en pr cp par ip]|e];
    [|done].
  unfold mapResult, withRaw, TagStatement.seeking. simpl.
  by destruct (negb (negb st || negb en)).
Qed.

Lemma X9_tag_cut_line_witness :
  mapResult (withRaw [])
    (TagStatement.feed
       (TagStatement.mk 1 true true false (Props.mk (js "if") [] (js "if(a"))
          TagStatement.jsArg 0%Z
          (Some (TagStatement.mkInternal
                   (CharBucket.mk NONE (js "if") None)
                   (CharBucket.mk CONTROLLED (js "a") (Some "a"%char)))))
       (js " b)"))
  = mapResult (withRaw []) (TagStatement.feed (TagStatement.new 1 true) (js "if(a b)")).
Proof.
  apply (X9_tag_cut_line (TagStatement.new 1 true) _ (js "if(a") (js " b)") eq_refl);
    [vm_compute; reflexivity|reflexivity].
Defined.

(** ** MustacheStatement: the lines a statement has been fed *)

(** The statement [m] is what the calls of [feed] on a fresh statement
    have returned for the lines [lines], one call a line. *)
Inductive mustache_fed : list str -> MustacheStatement.t -> Prop :=
| fed_first startPosition line m :
    MustacheStatement.feed (MustacheStatement.new startPosition) line = Ok m ->
    mustache_fed [line] m
| fed_next lines m line m' :
    mustache_fed lines m ->
    MustacheStatement.feed m line = Ok m' ->
    mustache_fed (lines ++ [line]) m'.

Section MustacheLines.

Import MustacheStatement.

(** Without its buckets a statement cannot read a character. *)
Lemma processChar_no_buckets s chars c :
  internalProps s = None -> processChar s chars c = Err TypeError.
Proof.
  intros Hip. unfold processChar.
  set (s0 := match currentProp s with jsArg => appendRaw [c] s | _ => s end).
  assert (internalProps s0 = None) as H0 by (unfold s0; by destruct (currentProp s)).
  assert (forall s1, internalProps s1 = None -> setProp s1 = Err TypeError) as Hset.
  { intros s1 H1. unfold setProp. by rewrite H1. }
  assert (forall s1 ch, internalProps s1 = None -> feedBucket s1 ch = Err TypeError)
    as Hfeed.
  { intros s1 ch H1. unfold feedBucket. by rewrite H1. }
  assert (forall s1 cs code n cs' s2,
            getName s1 cs code = (n, cs', s2) -> internalProps s1 = None ->
            internalProps s2 = None) as Hname.
  { intros s1 cs code n cs' s2 H H1. unfold getName in H.
    repeat case_match; by simplify_eq. }
  assert (forall s1 cs code b cs' s2,
            isClosing s1 cs code = (b, cs', s2) -> internalProps s1 = None ->
            internalProps s2 = None) as Hclose.
  { intros s1 cs code b cs' s2 H H1. unfold isClosing in H.
    repeat case_match; by simplify_eq. }
  assert (forall s1 n cs1,
            internalProps s1 = None ->
            match n with
            | Some name0 =>
                let s2 := set_started true (set_props (set_name name0 (props s1)) s1) in
                let* s3 := setProp s2 in Ok (set_currentProp jsArg s3, cs1)
            | None =>
                let '(closing, chars0, s2) :=
                  if started s1 && negb (ended s1)
                  then isClosing s1 cs1 (nat_of_ascii c)
                  else (false, cs1, s1) in
                if closing then
                  let* s3 := setProp s2 in
                  Ok (set_ended true (set_currentProp textRight s3), chars0)
                else
                  let s3 := if nat_of_ascii c =? OPENING_BRACE
                            then set_internalBraces (internalBraces s2 + 1)%Z s2
                            else s2 in
                  let s4 := if nat_of_ascii c =? CLOSING_BRACE
                            then set_internalBraces (internalBraces s3 - 1)%Z s3
                            else s3 in
                  let* s5 := feedBucket s4 c in Ok (s5, chars0)
            end = Err TypeError) as Hrest.
  { intros s1 n cs1 H1. destruct n as [n|].
    - cbv zeta. by rewrite Hset.
    - destruct (started s1 && negb (ended s1)).
      + destruct (isClosing s1 cs1 _) as [[b cs2] s2] eqn:Hc.
        apply Hclose in Hc; [|done]. destruct b.
        * by rewrite Hset.
        * cbv zeta. rewrite Hfeed; [done|]. by repeat case_match.
      + cbv zeta. rewrite Hfeed; [done|]. by repeat case_match. }
  destruct (negb (started s0)).
  - destruct (getName s0 chars _) as [[n cs1] s1] eqn:Hn.
    apply Hname in Hn; [|done]. exact (Hrest s1 n cs1 Hn).
  - exact (Hrest s0 None chars H0).
Qed.

(** A statement that is not seeking, has not ended and has let go of its
    buckets: [feed] fails on it. *)
Lemma feed_no_buckets m line :
  internalProps m = None -> seeking m = false -> ended m = false ->
  feed m line = Err TypeError.
Proof.
  intros Hip Hs He. unfold feed. rewrite He.
  set (m0 := match MustacheProp.raw (props m) with
             | [] => m
             | _ :: _ => appendRaw [EOL] m
             end).
  assert (internalProps m0 = None /\ seeking m0 = false) as [Hip0 Hs0].
  { unfold m0. by destruct (MustacheProp.raw (props m)). }
  destruct line as [|c line].
  - rewrite feedChars_nil. cbn [bind]. rewrite Hs0. cbn [negb].
    unfold setProp. by rewrite Hip0.
  - by rewrite feedChars_cons, processChar_no_buckets.
Qed.

(** [feed] lets go of the buckets of a statement that is not seeking. *)
Lemma feed_done m line m' :
  feed m line = Ok m' -> seeking m' = false -> internalProps m' = None.
Proof.
  unfold feed. destruct (ended m); [done|].
  destruct (feedChars _ line) as [s|]; [|done]. cbn [bind].
  destruct (negb (seeking s)) eqn:Hs.
  - unfold setProp. destruct (internalProps s); [|done]. simpl.
    intros. by simplify_eq.
  - intros H Hs'. simplify_eq. apply negb_false_iff in Hs. congruence.
Qed.

Lemma joinEOL_snoc lines line :
  lines <> [] -> joinEOL (lines ++ [line]) = joinEOL lines ++ EOL :: line.
Proof.
  destruct lines as [|l lines]; [done|]. intros _.
  change ((l :: lines) ++ [line]) with (l :: (lines ++ [line])).
  rewrite !joinEOL_cons, flat_map_app. simpl.
  by rewrite app_nil_r, <- app_assoc.
Qed.

(** What holds of a statement that has been fed [lines]. *)
Definition fedInv (lines : list str) (m : t) : Prop :=
  let p := props m in
  MustacheProp.textLeft p ++ MustacheProp.raw p ++ MustacheProp.textRight p
  = joinEOL lines
  /\ ((seeking m = true /\ wfm m /\ MustacheProp.textRight p = []
       /\ MustacheProp.raw p <> [])
      \/ (seeking m = false /\ internalProps m = None)).

Lemma feed_fedInv m line lines :
  wfm m -> ended m = false ->
  accounted m ++ match MustacheProp.raw (props m) with
                 | [] => []
                 | _ :: _ => [EOL]
                 end ++ line = joinEOL lines ->
  exists m', feed m line = Ok m' /\ fedInv lines m'
             /\ startPosition m' = startPosition m.
Proof.
  intros Hwf He Hjoin.
  destruct (feed_wfm m line Hwf He)
    as (m' & Hfeed & Hpos & [(Hs & Hwf' & Htr & Heq)|(Hs & Heq & _)]).
  - exists m'. split; [done|]. split; [|done]. split.
    + by rewrite Htr, app_nil_r, Heq, <- app_assoc.
    + left. repeat (split; [done|]).
      destruct Hwf' as [| |]; try done.
  - exists m'. split; [done|]. split; [|done]. split.
    + by rewrite Heq, <- app_assoc.
    + right. split; [done|]. by apply (feed_done m line).
Qed.

Lemma mustache_fed_inv lines m : mustache_fed lines m -> fedInv lines m /\ lines <> [].
Proof.
  induction 1 as [pos line m H|lines m line m' _ [[Hsum IH] Hne] H].
  - split; [|done].
    destruct (feed_fedInv (new pos) line [line]) as (m' & Hf & Hinv & _);
      [apply wfm_left|done|done|].
    rewrite Hf in H. by simplify_eq.
  - split; [|by destruct lines].
    destruct IH as [(Hs & Hwf & Htr & Hraw)|(Hs & Hip)].
    + assert (ended m = false) as He.
      { unfold seeking in Hs. apply andb_true_iff in Hs as [_ Hs].
        by apply negb_true_iff in Hs. }
      destruct (feed_fedInv m line (lines ++ [line])) as (m1 & Hf & Hinv & _);
        [done|done| |rewrite Hf in H; by simplify_eq].
      rewrite joinEOL_snoc, <- Hsum, Htr, app_nil_r by done.
      destruct Hwf as [|pos nm ja R L br bj bl HR|]; [done| |done].
      unfold accounted, rightText. simpl. simpl in Hraw.
      destruct R; [done|]. by rewrite app_nil_r, <- !app_assoc.
    + exfalso. destruct (ended m) eqn:He.
      * unfold feed in H. by rewrite He in H.
      * by rewrite feed_no_buckets in H.
Qed.

End MustacheLines.

(** X10. The three texts of a mustache statement account for every
    character it has been fed: the text left of the braces, the raw text
    of the expression with its braces, and the text right of them, one
    after the other, are the lines fed with a line feed between two
    lines. *)
Theorem X10_mustache_accounts (lines : list str) (m : MustacheStatement.t) :
  mustache_fed lines m ->
  let p := MustacheStatement.props m in
  MustacheProp.textLeft p ++ MustacheProp.raw p ++ MustacheProp.textRight p
  = joinEOL lines.
Proof. intros H. by apply mustache_fed_inv in H as [[H _] _]. Qed.

(** The statement that the line [a {{ b] leaves. *)
Definition halfOpen : MustacheStatement.t :=
  MustacheStatement.mk 1 true false
    (MustacheProp.mk MustacheStatement.mustache [] (js "{{ b") (js "a ") [])
    MustacheStatement.jsArg 0%Z
    (Some (MustacheStatement.mkInternal
             (CharBucket.mk CONTROLLED (js " b") (Some "b"%char))
             (CharBucket.mk ALL (js "a ") None) (CharBucket.new ALL))).

(** The statement that the lines [a {{ b] and [c }} d] leave. *)
Definition twoLines : MustacheStatement.t :=
  MustacheStatement.mk 1 true true
    (MustacheProp.mk MustacheStatement.mustache (js " bc ")
       (js "{{ b" ++ EOL :: js "c }}") (js "a ") (js " d"))
    MustacheStatement.textRight 0%Z None.

Lemma twoLines_fed : mustache_fed [js "a {{ b"; js "c }} d"] twoLines.
Proof.
  apply (fed_next [js "a {{ b"] halfOpen (js "c }} d")).
  - apply (fed_first 1). vm_compute. reflexivity.
  - vm_compute. reflexivity.
Qed.

Lemma X10_mustache_accounts_witness :
  js "a " ++ (js "{{ b" ++ EOL :: js "c }}") ++ js " d"
  = js "a {{ b" ++ EOL :: js "c }} d".
Proof.
  exact (X10_mustache_accounts [js "a {{ b"; js "c }} d"] twoLines twoLines_fed).
Defined.

(** X11. [feed] returns for a mustache statement exactly as long as the
    statement is seeking. Once the statement has ended, [feed] raises
    "Unexpected token" with the line; and when the first line had no
    opening braces, so that the statement never started, any further call
    raises a TypeError, the statement having let go of its buckets. *)
Theorem X11_mustache_feed_errors (lines : list str) (m : MustacheStatement.t)
    (line : str) :
  mustache_fed lines m ->
  if MustacheStatement.seeking m
  then exists m', MustacheStatement.feed m line = Ok m'
  else MustacheStatement.feed m line
       = Err (if MustacheStatement.ended m then UnexpectedToken line else TypeError).
Proof.
  intros H. apply mustache_fed_inv in H as [[Hsum [(Hs & Hwf & _)|(Hs & Hip)]] _];
    rewrite Hs.
  - assert (MustacheStatement.ended m = false) as He.
    { unfold MustacheStatement.seeking in Hs. apply andb_true_iff in Hs as [_ Hs].
      by apply negb_true_iff in Hs. }
    destruct (feed_wfm m line Hwf He) as (m' & Hf & _). by exists m'.
  - destruct (MustacheStatement.ended m) eqn:He.
    + unfold MustacheStatement.feed. by rewrite He.
    + by apply feed_no_buckets.
Qed.

(** The statement that the line [no braces] leaves. *)
Definition noBraces : MustacheStatement.t :=
  MustacheStatement.mk 1 false false
    (MustacheProp.mk [] [] [] (js "no braces") [])
    MustacheStatement.textLeft 0%Z None.

Lemma noBraces_fed : mustache_fed [js "no braces"] noBraces.
Proof. apply (fed_first 1). vm_compute. reflexivity. Qed.

Lemma X11_mustache_feed_errors_witness :
  MustacheStatement.feed noBraces (js "{{ a }}") = Err TypeError.
Proof.
  exact (X11_mustache_feed_errors [js "no braces"] noBraces (js "{{ a }}") noBraces_fed).
Defined.

(** ** MustacheStatement: one expression on a line *)

(** A character that is no brace. *)
Definition noBrace (c : ascii) : bool :=
  negb (Ascii.eqb c "{") && negb (Ascii.eqb c "}").

(** The brace counter after the character [c]. *)
Definition braceStep (c : ascii) (d : Z) : Z :=
  if Ascii.eqb c "{" then (d + 1)%Z
  else if Ascii.eqb c "}" then (d - 1)%Z
  else d.

(** The depth of braces after [cs], read from depth [d]; [None] when a
    closing brace is met at depth zero. *)
Fixpoint braceDepth (d : Z) (cs : str) : option Z :=
  match cs with
  | [] => Some d
  | c :: rest =>
      if Ascii.eqb c "}" && (d =? 0)%Z then None
      else braceDepth (braceStep c d) rest
  end.

(** The braces that open and close an expression, escaped ([{{{ }}}]) or
    not ([{{ }}]), and the name the statement gives it. *)
Definition opener (escaped : bool) : str := if escaped then js "{{{" else js "{{".
Definition closer (escaped : bool) : str := if escaped then js "}}}" else js "}}".
Definition kind (escaped : bool) : str :=
  if escaped then MustacheStatement.emustache else MustacheStatement.mustache.

(** [arg] can come after the opening braces: after [{{] it does not
    begin with a third brace. *)
Definition afterOpener (escaped : bool) (arg : str) : Prop :=
  escaped = false ->
  match arg with
  | c :: _ => Ascii.eqb c "{" = false
  | [] => True
  end.

Section MustacheLine.

Import MustacheStatement.

#[local] Arguments getName : simpl never.
#[local] Arguments isClosing : simpl never.

Lemma noBrace_codes c :
  noBrace c = true ->
  (nat_of_ascii c =? OPENING_BRACE) = false
  /\ (nat_of_ascii c =? CLOSING_BRACE) = false.
Proof.
  unfold noBrace. rewrite opening_code, closing_code. intros H.
  apply andb_true_iff in H as [Ho Hc]. by apply negb_true_iff in Ho, Hc.
Qed.

(** Reading the text left of the braces. *)
Lemma feedChars_left L : forall pos br bj C rest,
  forallb noBrace L = true ->
  feedChars (mk pos false false (MustacheProp.mk [] [] [] [] []) textLeft br
               (Some (mkInternal bj (CharBucket.mk ALL C None) (CharBucket.mk ALL [] None)))) (L ++ rest)
  = feedChars (mk pos false false (MustacheProp.mk [] [] [] [] []) textLeft br
                 (Some (mkInternal bj (CharBucket.mk ALL (C ++ L) None) (CharBucket.mk ALL [] None)))) rest.
Proof.
  induction L as [|c L IH]; intros pos br bj C rest HL.
  - by rewrite app_nil_r.
  - simpl in HL. apply andb_true_iff in HL as [Hc HL].
    destruct (noBrace_codes c Hc) as [Ho Hcl].
    cbn [app]. rewrite feedChars_cons.
    unfold processChar. cbn [currentProp started negb].
    rewrite getName_none by (left; by rewrite <- opening_code).
    cbn [started ended andb]. rewrite Ho, Hcl.
    unfold feedBucket. cbn [internalProps currentProp bind].
    unfold set_internalProps, CharBucket.feed. simpl. rewrite IH by done.
    by rewrite <- app_assoc.
Qed.

(** Reading the opening braces. *)
Lemma feedChars_opener escaped pos bj C rest :
  afterOpener escaped rest ->
  feedChars (mk pos false false (MustacheProp.mk [] [] [] [] []) textLeft 0
               (Some (mkInternal bj (CharBucket.mk ALL C None) (CharBucket.mk ALL [] None))))
    (opener escaped ++ rest)
  = feedChars (mk pos true false (MustacheProp.mk (kind escaped) [] (opener escaped) C [])
                 jsArg 0 (Some (mkInternal bj (CharBucket.mk ALL C None) (CharBucket.mk ALL [] None)))) rest.
Proof.
  intros Hrest. destruct escaped; simpl app; rewrite feedChars_cons;
    unfold processChar; cbn [currentProp started negb]; rewrite getName_spec.
  - by simpl.
  - specialize (Hrest eq_refl).
    destruct rest as [|c rest]; [by simpl|]. simpl. by rewrite Hrest.
Qed.

Lemma braceDepth_noBrace cs : forall d,
  forallb noBrace cs = true -> braceDepth d cs = Some d.
Proof.
  induction cs as [|c cs IH]; intros d H; simpl in *; [done|].
  apply andb_true_iff in H as [Hc H]. unfold noBrace in Hc.
  apply andb_true_iff in Hc as [Ho Hcl]. apply negb_true_iff in Ho, Hcl.
  unfold braceStep. rewrite Ho, Hcl. simpl. by apply IH.
Qed.

(** Reading the expression, braces and all, as long as they match. *)
Lemma feedChars_arg arg : forall pos nm ja R L bj bl br d d' rest,
  braceDepth d arg = Some d' ->
  feedChars (mk pos true false (MustacheProp.mk nm ja R L []) jsArg d
               (Some (mkInternal bj bl br))) (arg ++ rest)
  = feedChars (mk pos true false (MustacheProp.mk nm ja (R ++ arg) L []) jsArg d'
                 (Some (mkInternal (CharBucket.feedAll bj arg) bl br))) rest.
Proof.
  induction arg as [|c arg IH]; intros pos nm ja R L bj bl br d d' rest Harg.
  - simpl in Harg. simplify_eq. by rewrite app_nil_r.
  - simpl in Harg.
    destruct (Ascii.eqb c "}" && (d =? 0)%Z) eqn:Hend; [done|].
    cbn [app]. rewrite feedChars_cons.
    destruct (Ascii.eqb_spec c "}") as [->|Hc].
    + simpl in Hend.
      rewrite processChar_closing_brace by done.
      cbn [internalBraces]. rewrite Hend. cbn [andb].
      unfold recorded, feedBucket, appendRaw, set_props, set_raw, set_internalBraces,
        set_internalProps. simpl.
      rewrite (IH _ _ _ _ _ _ _ _ _ d') by done. by rewrite <- app_assoc.
    + apply Ascii.eqb_neq in Hc.
      unfold processChar. cbn [currentProp started negb].
      unfold appendRaw, set_props, set_raw. cbn [props started ended negb andb
        MustacheProp.raw MustacheProp.name MustacheProp.jsArg MustacheProp.textLeft
        MustacheProp.textRight startPosition currentProp internalBraces internalProps].
      rewrite isClosing_other by done.
      rewrite opening_code, closing_code, Hc.
      unfold braceStep in Harg. rewrite Hc in Harg.
      destruct (Ascii.eqb c "{"); unfold feedBucket, set_internalBraces,
        set_internalProps; simpl;
        rewrite (IH _ _ _ _ _ _ _ _ _ d') by done; by rewrite <- app_assoc.
Qed.

(** Reading the closing braces. *)
Lemma feedChars_closer escaped pos ja R L bj bl br rest :
  feedChars (mk pos true false (MustacheProp.mk (kind escaped) ja R L []) jsArg 0
               (Some (mkInternal bj bl br))) (closer escaped ++ rest)
  = feedChars (mk pos true true
                 (MustacheProp.mk (kind escaped) (CharBucket.get bj)
                    (R ++ closer escaped) L [])
                 textRight 0 (Some (mkInternal bj bl br))) rest.
Proof.
  destruct escaped; simpl app; rewrite feedChars_cons;
    rewrite processChar_closing_brace by done; unfold recorded, closingRun; simpl;
    by rewrite <- app_assoc.
Qed.

(** Reading the text right of the braces. *)
Lemma feedChars_right T : forall pos nm ja R L bj bl br C,
  exists br',
    feedChars (mk pos true true (MustacheProp.mk nm ja R L []) textRight br
                 (Some (mkInternal bj bl (CharBucket.mk ALL C None)))) T
    = Ok (mk pos true true (MustacheProp.mk nm ja R L []) textRight br'
            (Some (mkInternal bj bl (CharBucket.mk ALL (C ++ T) None)))).
Proof.
  induction T as [|c T IH]; intros pos nm ja R L bj bl br C.
  - exists br. by rewrite feedChars_nil, app_nil_r.
  - rewrite feedChars_cons. unfold processChar.
    cbn [currentProp started ended negb andb]. fold (countBrace c
      (mk pos true true (MustacheProp.mk nm ja R L []) textRight br
         (Some (mkInternal bj bl (CharBucket.mk ALL C None))))).
    rewrite countBrace_fields'.
    set (br1 := internalBraces (countBrace _ _)). clearbody br1.
    unfold feedBucket.
    cbn [internalProps currentProp bind startPosition started ended props].
    unfold set_internalProps, CharBucket.feed. simpl.
    destruct (IH pos nm ja R L bj bl br1 (C ++ [c])) as (br' & ->).
    exists br'. by rewrite <- app_assoc.
Qed.

End MustacheLine.

(** A fresh statement fed a line with one expression. *)
Lemma feed_expression (startPosition : nat) (escaped : bool)
    (textLeft arg textRight : str) :
  forallb noBrace textLeft = true ->
  braceDepth 0 arg = Some 0%Z ->
  afterOpener escaped arg ->
  exists m,
    MustacheStatement.feed (MustacheStatement.new startPosition)
      (textLeft ++ opener escaped ++ arg ++ closer escaped ++ textRight) = Ok m
    /\ MustacheStatement.props m
       = MustacheProp.mk (kind escaped) (collapseRuns arg)
           (opener escaped ++ arg ++ closer escaped) textLeft textRight
    /\ MustacheStatement.ended m = true
    /\ MustacheStatement.seeking m = false
    /\ MustacheStatement.startPosition m = startPosition.
Proof.
  intros HL Harg Hafter.
  unfold MustacheStatement.feed, MustacheStatement.new. simpl.
  change (CharBucket.new ALL) with (CharBucket.mk ALL [] None).
  rewrite feedChars_left by done.
  rewrite feedChars_opener.
  2:{ intros ->. specialize (Hafter eq_refl). by destruct arg. }
  rewrite (feedChars_arg arg _ _ _ _ _ _ _ _ _ 0%Z) by done.
  rewrite feedChars_closer.
  destruct (feedChars_right textRight startPosition (kind escaped)
              (CharBucket.get (CharBucket.feedAll (CharBucket.new CONTROLLED) arg))
              ((opener escaped ++ arg) ++ closer escaped) ([] ++ textLeft)
              (CharBucket.feedAll (CharBucket.new CONTROLLED) arg)
              (CharBucket.mk ALL ([] ++ textLeft) None) 0%Z []) as (br' & ->).
  cbn [bind]. unfold MustacheStatement.seeking, MustacheStatement.setProp. simpl.
  eexists. split; [reflexivity|]. simpl.
  by rewrite get_feedAll_controlled, <- app_assoc.
Qed.

(** A fresh statement fed an expression that is cut in two lines. *)
Lemma feed_expression_cut (startPosition : nat) (escaped : bool)
    (textLeft arg1 arg2 textRight : str) (d : Z) :
  forallb noBrace textLeft = true ->
  braceDepth 0 arg1 = Some d ->
  braceDepth d arg2 = Some 0%Z ->
  afterOpener escaped arg1 ->
  exists m1 m2,
    MustacheStatement.feed (MustacheStatement.new startPosition)
      (textLeft ++ opener escaped ++ arg1) = Ok m1
    /\ MustacheStatement.seeking m1 = true
    /\ MustacheStatement.feed m1 (arg2 ++ closer escaped ++ textRight) = Ok m2
    /\ MustacheStatement.props m2
       = MustacheProp.mk (kind escaped) (collapseRuns (arg1 ++ arg2))
           (opener escaped ++ arg1 ++ EOL :: arg2 ++ closer escaped) textLeft textRight
    /\ MustacheStatement.ended m2 = true
    /\ MustacheStatement.seeking m2 = false
    /\ MustacheStatement.startPosition m2 = startPosition.
Proof.
  intros HL H1 H2 Hafter.
  set (m1 := MustacheStatement.mk startPosition true false
               (MustacheProp.mk (kind escaped) [] (opener escaped ++ arg1) textLeft [])
               MustacheStatement.jsArg d
               (Some (MustacheStatement.mkInternal
                        (CharBucket.feedAll (CharBucket.new CONTROLLED) arg1)
                        (CharBucket.mk ALL textLeft None) (CharBucket.mk ALL [] None)))).
  assert (MustacheStatement.feed (MustacheStatement.new startPosition)
            (textLeft ++ opener escaped ++ arg1) = Ok m1) as Hfirst.
  { unfold MustacheStatement.feed, MustacheStatement.new. simpl.
    change (CharBucket.new ALL) with (CharBucket.mk ALL [] None).
    rewrite feedChars_left by done.
    rewrite feedChars_opener by done.
    rewrite <- (app_nil_r arg1) at 1.
    rewrite (feedChars_arg arg1 _ _ _ _ _ _ _ _ _ d) by done.
    by rewrite feedChars_nil. }
  exists m1.
  cut (exists m2,
    MustacheStatement.feed m1 (arg2 ++ closer escaped ++ textRight) = Ok m2
    /\ MustacheStatement.props m2
       = MustacheProp.mk (kind escaped) (collapseRuns (arg1 ++ arg2))
           (opener escaped ++ arg1 ++ EOL :: arg2 ++ closer escaped) textLeft textRight
    /\ MustacheStatement.ended m2 = true
    /\ MustacheStatement.seeking m2 = false
    /\ MustacheStatement.startPosition m2 = startPosition).
  { intros (m2 & Hm2). exists m2. by repeat split; try apply Hm2. }
  unfold MustacheStatement.feed, m1.
  cbn [MustacheStatement.ended MustacheStatement.props MustacheProp.raw].
  assert (exists c raw, opener escaped ++ arg1 = c :: raw) as (c & raw & Hraw)
    by (destruct escaped; by eexists _, _).
  rewrite Hraw. rewrite <- Hraw.
  unfold MustacheStatement.appendRaw, MustacheStatement.set_props,
    MustacheStatement.set_raw. simpl.
  rewrite (feedChars_arg arg2 _ _ _ _ _ _ _ _ _ 0%Z) by done.
  rewrite feedChars_closer.
  destruct (feedChars_right textRight startPosition (kind escaped)
              (CharBucket.get
                 (CharBucket.feedAll
                    (CharBucket.feedAll (CharBucket.new CONTROLLED) arg1) arg2))
              ((((opener escaped ++ arg1) ++ [EOL]) ++ arg2) ++ closer escaped) textLeft
              (CharBucket.feedAll
                 (CharBucket.feedAll (CharBucket.new CONTROLLED) arg1) arg2)
              (CharBucket.mk ALL textLeft None) 0%Z []) as (br' & ->).
  cbn [bind]. unfold MustacheStatement.seeking, MustacheStatement.setProp. simpl.
  eexists. split; [reflexivity|]. simpl.
  rewrite <- feedAll_app, get_feedAll_controlled.
  by rewrite <- !app_assoc.
Qed.

(** X12. A fresh mustache statement fed one line that holds an
    expression between [{{] and [}}], or between [{{{] and [}}}], ends on
    that line when the text left of the braces holds no brace and the braces
    inside the expression match. Its name tells the two kinds apart; its
    argument is the expression with every run of whitespace cut down to its
    first character; its raw text is the expression with its braces; the
    texts left and right of the braces are kept as they are, whatever the
    text right of them holds. *)
Theorem X12_mustache_one_line (startPosition : nat) (escaped : bool)
    (textLeft arg textRight : str) :
  forallb noBrace textLeft = true ->
  braceDepth 0 arg = Some 0%Z ->
  afterOpener escaped arg ->
  exists m,
    MustacheStatement.feed (MustacheStatement.new startPosition)
      (textLeft ++ opener escaped ++ arg ++ closer escaped ++ textRight) = Ok m
    /\ MustacheStatement.props m
       = MustacheProp.mk (kind escaped) (collapseRuns arg)
           (opener escaped ++ arg ++ closer escaped) textLeft textRight
    /\ MustacheStatement.ended m = true
    /\ MustacheStatement.seeking m = false
    /\ MustacheStatement.startPosition m = startPosition.
Proof. apply feed_expression. Qed.

Lemma X12_mustache_one_line_witness :
  exists m,
    MustacheStatement.feed (MustacheStatement.new 1)
      (js "Hi, " ++ opener false ++ js " {a:  {b: 1}} " ++ closer false ++ js "! {{")
    = Ok m
    /\ MustacheStatement.props m
       = MustacheProp.mk (kind false) (collapseRuns (js " {a:  {b: 1}} "))
           (opener false ++ js " {a:  {b: 1}} " ++ closer false) (js "Hi, ") (js "! {{")
    /\ MustacheStatement.ended m = true
    /\ MustacheStatement.seeking m = false
    /\ MustacheStatement.startPosition m = 1.
Proof.
  apply (X12_mustache_one_line 1 false (js "Hi, ") (js " {a:  {b: 1}} ") (js "! {{"));
    try reflexivity. intros _. reflexivity.
Defined.

(** X13. An expression may run over two lines. The line break goes into
    the raw text of the statement and not into its argument: the argument
    is the two parts of the expression put together, with every run of
    whitespace cut down to its first character, so that the last word of the
    first line and the first word of the second become one word unless
    whitespace stands between them on one of the lines. *)
Theorem X13_mustache_two_lines (startPosition : nat) (escaped : bool)
    (textLeft arg1 arg2 textRight : str) (d : Z) :
  forallb noBrace textLeft = true ->
  braceDepth 0 arg1 = Some d ->
  braceDepth d arg2 = Some 0%Z ->
  afterOpener escaped arg1 ->
  exists m1 m2,
    MustacheStatement.feed (MustacheStatement.new startPosition)
      (textLeft ++ opener escaped ++ arg1) = Ok m1
    /\ MustacheStatement.seeking m1 = true
    /\ MustacheStatement.feed m1 (arg2 ++ closer escaped ++ textRight) = Ok m2
    /\ MustacheStatement.props m2
       = MustacheProp.mk (kind escaped) (collapseRuns (arg1 ++ arg2))
           (opener escaped ++ arg1 ++ EOL :: arg2 ++ closer escaped) textLeft textRight
    /\ MustacheStatement.ended m2 = true
    /\ MustacheStatement.seeking m2 = false
    /\ MustacheStatement.startPosition m2 = startPosition.
Proof. apply feed_expression_cut. Qed.

Lemma X13_mustache_two_lines_witness :
  exists m1 m2,
    MustacheStatement.feed (MustacheStatement.new 1)
      (js "a " ++ opener false ++ js " {b") = Ok m1
    /\ MustacheStatement.seeking m1 = true
    /\ MustacheStatement.feed m1 (js "c} " ++ closer false ++ js " d") = Ok m2
    /\ MustacheStatement.props m2
       = MustacheProp.mk (kind false) (collapseRuns (js " {b" ++ js "c} "))
           (opener false ++ js " {b" ++ EOL :: js "c} " ++ closer false)
           (js "a ") (js " d")
    /\ MustacheStatement.ended m2 = true
    /\ MustacheStatement.seeking m2 = false
    /\ MustacheStatement.startPosition m2 = 1.
Proof.
  apply (X13_mustache_two_lines 1 false (js "a ") (js " {b") (js "c} ") (js " d") 1%Z);
    try reflexivity. intros _. reflexivity.
Defined.

(** ** Tokenizer: the lines that begin with a tag *)

(** The beginning of a line that [TAG_REGEX] matches: an optional
    backslash, the [@], an optional [!], and the name. *)
Definition tagStart (escaped bang : bool) (tagName : str) : str :=
  (if escaped then ["\"%char] else [])
  ++ "@"%char :: (if bang then ["!"%char] else []) ++ tagName.

(** [rest] does not go on with a character of a word. *)
Definition wordEnds (rest : str) : Prop :=
  match rest with
  | c :: _ => is_word c = false
  | [] => True
  end.

Section TagLine.

Import Tokenizer.

Lemma skipSpaces_spaces ws s :
  forallb is_space ws = true -> skipSpaces (ws ++ s) = skipSpaces s.
Proof.
  induction ws as [|c ws IH]; simpl; [done|].
  intros H. apply andb_true_iff in H as [-> H]. by apply IH.
Qed.

Lemma skipSpaces_all ws : forallb is_space ws = true -> skipSpaces ws = [].
Proof.
  intros H. rewrite <- (app_nil_r ws). by rewrite skipSpaces_spaces.
Qed.

Lemma takeSpaces_spaces ws c s :
  forallb is_space ws = true -> is_space c = false ->
  takeSpaces (ws ++ c :: s) = ws.
Proof.
  induction ws as [|d ws IH]; simpl; intros H Hc.
  - by rewrite Hc.
  - apply andb_true_iff in H as [-> H]. by rewrite IH.
Qed.

Lemma skipSpaces_until a d b :
  is_space d = false -> skipSpaces (a ++ d :: b) = skipSpaces a ++ d :: b.
Proof.
  intros Hd. induction a as [|c a IH]; simpl.
  - by rewrite Hd.
  - by destruct (is_space c).
Qed.

(** [trimEnd] stops at a character that is no whitespace. *)
Lemma trimEnd_after x d r :
  is_space d = false -> trimEnd (x ++ d :: r) = x ++ d :: trimEnd r.
Proof.
  intros Hd. unfold trimEnd.
  rewrite rev_app_distr. simpl. rewrite <- app_assoc. simpl.
  rewrite skipSpaces_until by done.
  rewrite rev_app_distr. simpl. by rewrite rev_involutive, <- app_assoc.
Qed.

Lemma skipSpaces_suffix s : skipSpaces s `suffix_of` s.
Proof.
  induction s as [|c s IH]; simpl; [done|].
  destruct (is_space c); [|done]. by apply suffix_cons_r.
Qed.

Lemma trimEnd_prefix s : trimEnd s `prefix_of` s.
Proof.
  unfold trimEnd. destruct (skipSpaces_suffix (rev s)) as [k Hk].
  exists (rev k). rewrite <- rev_app_distr, <- Hk. by rewrite rev_involutive.
Qed.

Lemma wordEnds_trimEnd r : wordEnds r -> wordEnds (trimEnd r).
Proof.
  destruct (trimEnd_prefix r) as [k Hk]. intros H.
  destruct (trimEnd r) as [|c t]; [done|]. rewrite Hk in H. done.
Qed.

Lemma trimEnd_spaces ws : forallb is_space ws = true -> trimEnd ws = [].
Proof.
  intros H. unfold trimEnd. rewrite skipSpaces_all; [done|].
  apply forallb_forall. intros c Hc. rewrite forallb_forall in H.
  apply H. by apply in_rev.
Qed.

Lemma tagStart_split escaped bang tagName :
  tagName <> [] -> forallb is_word tagName = true ->
  exists c x d, tagStart escaped bang tagName = c :: x ++ [d]
                /\ is_space c = false /\ is_space d = false.
Proof.
  intros Hne Hw. destruct (exists_last Hne) as (w & d & ->).
  rewrite forallb_app in Hw. apply andb_true_iff in Hw as [_ Hd].
  simpl in Hd. rewrite andb_true_r in Hd.
  destruct (is_word_plain d Hd) as (Hs & _).
  unfold tagStart. destruct escaped, bang; simpl.
  - by exists "\"%char, ("@"%char :: "!"%char :: w), d.
  - by exists "\"%char, ("@"%char :: w), d.
  - by exists "@"%char, ("!"%char :: w), d.
  - by exists "@"%char, w, d.
Qed.

(** The line without the whitespace around it. *)
Lemma trim_tagLine ws escaped bang tagName rest :
  forallb is_space ws = true ->
  tagName <> [] -> forallb is_word tagName = true ->
  trim (ws ++ tagStart escaped bang tagName ++ rest)
  = tagStart escaped bang tagName ++ trimEnd rest.
Proof.
  intros Hws Hne Hw.
  destruct (tagStart_split escaped bang tagName Hne Hw) as (c & x & d & -> & Hc & Hd).
  unfold trim, trimStart. rewrite skipSpaces_spaces by done.
  cbn [app]. rewrite skipSpaces_nonspace by done.
  rewrite <- app_assoc. cbn [app].
  change (c :: x ++ d :: rest) with ((c :: x) ++ d :: rest).
  rewrite trimEnd_after by done. by rewrite <- app_assoc.
Qed.

Lemma TAG_REGEX_tagStart escaped bang tagName rest :
  tagName <> [] -> forallb is_word tagName = true -> wordEnds rest ->
  TAG_REGEX (tagStart escaped bang tagName ++ rest) = Some (escaped, tagName).
Proof.
  intros Hne Hw Hrest.
  assert (takeWord (tagName ++ rest) = tagName) as Htake.
  { destruct rest as [|c rest]; [rewrite app_nil_r; by apply takeWord_all|].
    by apply takeWord_app. }
  destruct tagName as [|a w]; [done|].
  pose proof Hw as Hw'. simpl in Hw'. apply andb_true_iff in Hw' as [Ha _].
  destruct (is_word_plain a Ha) as (_ & _ & _ & Hbang & _).
  unfold TAG_REGEX, tagStart.
  destruct escaped, bang; cbn -[takeWord]; rewrite ?Hbang;
    change (a :: w ++ rest) with ((a :: w) ++ rest); by rewrite Htake.
Qed.

(** What [getTag] finds on a line that begins with the name of a tag of
    the table. *)
Lemma getTag_tagLine tk ws escaped bang tagName rest def :
  forallb is_space ws = true ->
  tagName <> [] -> forallb is_word tagName = true -> wordEnds rest ->
  tagsDef tk !! tagName = Some def ->
  getTag tk (ws ++ tagStart escaped bang tagName ++ rest)
  = Some (if escaped then TagDefinition.mk None None (Some true) else def).
Proof.
  intros Hws Hne Hw Hrest Hdef. unfold getTag.
  rewrite trim_tagLine by done.
  rewrite TAG_REGEX_tagStart by (done || by apply wordEnds_trimEnd).
  rewrite Hdef. by destruct escaped.
Qed.

Lemma replace_ESCAPE_REGEX_backslash ws rest :
  forallb is_space ws = true ->
  replace_ESCAPE_REGEX (ws ++ "\"%char :: rest) = ws ++ rest.
Proof.
  intros Hws. unfold replace_ESCAPE_REGEX.
  rewrite skipSpaces_spaces by done. simpl.
  by rewrite takeSpaces_spaces.
Qed.

Lemma emit_two tk a b : emit tk [a; b] = consumeNode (consumeNode tk a) b.
Proof. reflexivity. Qed.

End TagLine.

(** X14. A backslash before the [@] of a tag of the table makes the line
    plain text. The tokenizer does not open a statement: it consumes one
    raw node, which holds the line without the backslash and with the
    whitespace around it, and one newline node. *)
Theorem X14_escaped_tag (tk : Tokenizer.t) (ws rest tagName : str) (bang : bool)
    (def : TagDefinition.t) :
  Tokenizer.isSeekingBlock tk = false ->
  Tokenizer.isSeekingMustache tk = false ->
  forallb is_space ws = true ->
  tagName <> [] -> forallb is_word tagName = true -> wordEnds rest ->
  Tokenizer.tagsDef tk !! tagName = Some def ->
  let ln := Tokenizer.line tk + 1 in
  let nodes := [Raw (ws ++ tagStart false bang tagName ++ rest) ln; Newline ln] in
  Tokenizer.processLine tk (ws ++ tagStart true bang tagName ++ rest)
  = Ok (emit (Tokenizer.set_line ln tk) nodes)
  /\ (Tokenizer.openedTags tk = [] ->
      Tokenizer.tokens (emit (Tokenizer.set_line ln tk) nodes)
      = Tokenizer.tokens tk ++ nodes).
Proof.
  intros Hsb Hsm Hws Hne Hw Hrest Hdef ln nodes. split.
  - unfold Tokenizer.processLine. cbn [Tokenizer.processText].
    fold ln.
    assert (Tokenizer.isSeekingBlock (Tokenizer.set_line ln tk) = false) as -> by done.
    assert (Tokenizer.isSeekingMustache (Tokenizer.set_line ln tk) = false) as ->
      by done.
    rewrite (getTag_tagLine _ ws true bang tagName rest def) by done.
    cbn [truthy TagDefinition.escaped].
    assert (replace_ESCAPE_REGEX (ws ++ tagStart true bang tagName ++ rest)
            = ws ++ tagStart false bang tagName ++ rest) as ->.
    { unfold tagStart. cbn [app]. by rewrite replace_ESCAPE_REGEX_backslash. }
    unfold nodes. rewrite emit_two.
    unfold Tokenizer.getRawNode, Tokenizer.getBlankLineNode.
    cbn [Tokenizer.line Tokenizer.set_line].
    by destruct (consumeNode_fields (Tokenizer.set_line ln tk)
                   (Raw (ws ++ tagStart false bang tagName ++ rest) ln))
      as (_ & -> & _).
  - intros Ho. by rewrite emit_tokens.
Qed.

Lemma X14_escaped_tag_witness :
  Tokenizer.processLine (Tokenizer.new ifDef) (js "  \@if(username) ")
  = Ok (Tokenizer.mk ifDef [Raw (js "  @if(username) ") 1; Newline 1] None None 1 []).
Proof.
  destruct (X14_escaped_tag (Tokenizer.new ifDef) (js "  ") (js "(username) ")
              (js "if") false (TagDefinition.mk (Some true) (Some true) None)
              eq_refl eq_refl eq_refl) as [H _];
    [discriminate|reflexivity|reflexivity|vm_compute; reflexivity|].
  exact H.
Defined.

Section TagCall.

Import Tokenizer.

Lemma word_noParen w : forallb is_word w = true -> forallb noParen w = true.
Proof.
  intros Hw. apply forallb_forall. intros c Hc.
  rewrite forallb_forall in Hw. apply Hw, is_word_plain in Hc
    as (_ & Ho & Hcl & _). unfold noParen. by rewrite Ho, Hcl.
Qed.

Lemma word_nonspace w : forallb is_word w = true -> List.filter nonspace w = w.
Proof.
  induction w as [|c w IH]; simpl; [done|].
  intros H. apply andb_true_iff in H as [Hc Hw].
  destruct (is_word_plain c Hc) as (Hs & _). unfold nonspace at 1.
  rewrite Hs. simpl. by rewrite IH.
Qed.

(** The text that [processText] feeds to the statement of the line
    [@name(arg)], or [@!name(arg)], with whitespace around it. *)
Lemma trimmed_call ws (bang : bool) tagName arg ws' :
  forallb is_space ws = true -> forallb is_space ws' = true ->
  tagName <> [] -> forallb is_word tagName = true ->
  replace_TRIM_TAG_REGEX
    (trim (ws ++ tagStart false bang tagName ++ "("%char :: arg ++ ")"%char :: ws'))
  = ((if bang then ["!"%char] else []) ++ tagName) ++ "("%char :: arg ++ [")"%char].
Proof.
  intros Hws Hws' Hne Hw. rewrite trim_tagLine by done.
  change ("("%char :: arg ++ ")"%char :: ws')
    with (("("%char :: arg) ++ ")"%char :: ws').
  rewrite trimEnd_after by done. rewrite trimEnd_spaces by done.
  unfold tagStart. simpl. by rewrite <- !app_assoc.
Qed.

(** The statement of such a line ends on the line. *)
Lemma processLine_call tk ws (bang : bool) tagName arg ws' def :
  blockStatement tk = None -> mustacheStatement tk = None ->
  forallb is_space ws = true -> forallb is_space ws' = true ->
  tagName <> [] -> forallb is_word tagName = true ->
  parenDepth 0 arg = Some 0%Z ->
  tagsDef tk !! tagName = Some def ->
  truthy (TagDefinition.escaped def) = false ->
  TagDefinition.seekable def <> Some false ->
  let ln := line tk + 1 in
  let collected : str := (if bang then ["!"%char] else []) ++ tagName in
  let props := Props.mk collected (collapseRuns arg)
                 (collected ++ "("%char :: arg ++ [")"%char]) in
  processLine tk (ws ++ tagStart false bang tagName ++ "("%char :: arg ++ ")"%char :: ws')
  = match tagsDef tk !! collected with
    | None => Err TypeError
    | Some def' =>
        Ok (emit (if truthy (TagDefinition.block def')
                  then set_openedTags (getTagNode props ln :: openedTags tk)
                         (set_line ln tk)
                  else emit (set_line ln tk) [BlockNode.node (getTagNode props ln)])
              [Newline ln])
    end.
Proof.
  intros Hb Hm Hws Hws' Hne Hw Harg Hdef Hesc Hseek ln collected props.
  destruct tk as [td toks bs ms l ot]. simpl in Hb, Hm, Hdef. subst bs ms.
  cbn [line tagsDef openedTags] in *.
  unfold processLine, set_line.
  cbn [processText line tagsDef tokens blockStatement mustacheStatement openedTags].
  unfold isSeekingBlock, isSeekingMustache. cbn [blockStatement mustacheStatement].
  rewrite (getTag_tagLine _ ws false bang tagName _ def) by done.
  rewrite Hesc. rewrite trimmed_call by done. fold collected.
  assert (match TagDefinition.seekable def with Some b => b | None => true end = true)
    as -> by by destruct (TagDefinition.seekable def) as [[]|].
  unfold feedTextToBlockStatement, set_blockStatement.
  cbn [line tagsDef tokens blockStatement mustacheStatement openedTags].
  rewrite feed_one_line; [|unfold collected; rewrite forallb_app;
                           apply andb_true_iff; split;
                           [by destruct bang|by apply word_noParen]|done].
  cbn [bind]. unfold TagStatement.seeking. cbn [TagStatement.started
    TagStatement.ended TagStatement.props TagStatement.startPosition negb orb
    Props.name tagsDef].
  assert (List.filter nonspace collected = collected) as ->.
  { unfold collected. rewrite List.filter_app, (word_nonspace tagName) by done.
    by destruct bang. }
  fold props. fold ln. destruct (td !! collected) as [def'|]; [|done].
  f_equal. unfold emit, getBlankLineNode. simpl.
  destruct (truthy (TagDefinition.block def')); [done|]. by destruct ot.
Qed.

Lemma skipSpaces_split s :
  exists k, s = k ++ skipSpaces s /\ forallb is_space k = true.
Proof.
  induction s as [|c s (k & Hk & Hs)]; simpl; [by exists []|].
  destruct (is_space c) eqn:Hc; [|by exists []].
  exists (c :: k). simpl. rewrite Hc, Hs. split; [|done]. by rewrite <- Hk.
Qed.

Lemma trimEnd_split s :
  exists k, s = trimEnd s ++ k /\ forallb is_space k = true.
Proof.
  unfold trimEnd. destruct (skipSpaces_split (rev s)) as (k & Hk & Hs).
  exists (rev k). split.
  - rewrite <- rev_app_distr, <- Hk. by rewrite rev_involutive.
  - apply forallb_forall. intros c Hc. rewrite forallb_forall in Hs.
    apply Hs. by apply in_rev.
Qed.

(** Whitespace at the end does not count for the parentheses. *)
Lemma parenDepth_trimEnd s d : parenDepth d (trimEnd s) = parenDepth d s.
Proof.
  destruct (trimEnd_split s) as (k & Hk & Hs).
  rewrite Hk at 2. rewrite parenDepth_app.
  destruct (parenDepth d (trimEnd s)) as [d'|]; [|done].
  symmetry. apply parenDepth_noParen.
  apply forallb_forall. intros c Hc. rewrite forallb_forall in Hs.
  by apply is_space_noParen, Hs.
Qed.

(** The text that [processText] feeds to the statement of a line that
    begins a call and does not end it. *)
Lemma trimmed_open ws tagName arg :
  forallb is_space ws = true ->
  tagName <> [] -> forallb is_word tagName = true ->
  replace_TRIM_TAG_REGEX (trim (ws ++ tagStart false false tagName ++ "("%char :: arg))
  = tagName ++ "("%char :: trimEnd arg.
Proof.
  intros Hws Hne Hw. rewrite trim_tagLine by done.
  change ("("%char :: arg) with ([] ++ "("%char :: arg).
  rewrite trimEnd_after by done.
  unfold tagStart. by simpl.
Qed.

End TagCall.

(** X15. A line that calls a tag of the table which is not a block,
    [@name(arg)] with whitespace around it and matching parentheses in
    [arg], is read on the spot: the tokenizer consumes a block node without
    children for it, with the name, the argument with its runs of
    whitespace cut down, and the raw text without the [@] and the
    whitespace around the line, then a newline node. No tag is opened and
    no statement is kept. *)
Theorem X15_inline_tag (tk : Tokenizer.t) (ws ws' tagName arg : str)
    (def : TagDefinition.t) :
  Tokenizer.blockStatement tk = None ->
  Tokenizer.mustacheStatement tk = None ->
  forallb is_space ws = true -> forallb is_space ws' = true ->
  tagName <> [] -> forallb is_word tagName = true ->
  parenDepth 0 arg = Some 0%Z ->
  Tokenizer.tagsDef tk !! tagName = Some def ->
  truthy (TagDefinition.escaped def) = false ->
  TagDefinition.seekable def <> Some false ->
  truthy (TagDefinition.block def) = false ->
  let ln := Tokenizer.line tk + 1 in
  let nodes :=
    [Block (Props.mk tagName (collapseRuns arg)
              (tagName ++ "("%char :: arg ++ [")"%char])) ln [];
     Newline ln] in
  Tokenizer.processLine tk
    (ws ++ "@"%char :: tagName ++ "("%char :: arg ++ ")"%char :: ws')
  = Ok (emit (Tokenizer.set_line ln tk) nodes)
  /\ Tokenizer.openedTags (emit (Tokenizer.set_line ln tk) nodes)
     = match Tokenizer.openedTags tk with
       | [] => []
       | recentTag :: outer =>
           BlockNode.mk (BlockNode.properties recentTag) (BlockNode.lineno recentTag)
             (BlockNode.children recentTag ++ nodes) :: outer
       end.
Proof.
  intros Hb Hm Hws Hws' Hne Hw Harg Hdef Hesc Hseek Hblock ln nodes. split.
  - pose proof (processLine_call tk ws false tagName arg ws' def
                  Hb Hm Hws Hws' Hne Hw Harg Hdef Hesc Hseek) as H.
    cbn [app] in H. unfold tagStart in H. cbn [app] in H.
    rewrite H, Hdef, Hblock. by rewrite <- emit_app.
  - destruct tk as [td toks bs ms l ot]. destruct ot as [|top outer].
    + by apply emit_openedTags_nil.
    + unfold Tokenizer.set_line. simpl. unfold BlockNode.push. simpl.
      by rewrite <- app_assoc.
Qed.

(** A table with a tag that is not a block. *)
Definition includeCallDef : gmap str TagDefinition.t :=
  {[ js "include" := TagDefinition.mk (Some false) (Some true) None ]}.

Lemma X15_inline_tag_witness :
  Tokenizer.processLine (Tokenizer.new includeCallDef) (js "  @include(f('a'),  b) ")
  = Ok (Tokenizer.mk includeCallDef
          [Block (Props.mk (js "include") (js "f('a'), b") (js "include(f('a'),  b)"))
             1 []; Newline 1] None None 1 []).
Proof.
  destruct (X15_inline_tag (Tokenizer.new includeCallDef) (js "  ") (js " ")
              (js "include") (js "f('a'),  b")
              (TagDefinition.mk (Some false) (Some true) None)
              eq_refl eq_refl eq_refl eq_refl) as [H _];
    [discriminate|reflexivity|reflexivity|vm_compute; reflexivity|reflexivity
    |discriminate|reflexivity|].
  etrans; [exact H|]. vm_compute. reflexivity.
Defined.

(** X16. [TAG_REGEX] lets an exclamation mark stand between the [@] and
    the name, and [getTag] looks the name up without it; but the statement
    collects the name with it. So a line [@!name(arg)] for a tag [name] of
    the table ends in a TypeError, the lookup of [.block] under [!name]
    finding nothing, unless the table has an entry under [!name] as well. *)
Theorem X16_bang_tag (tk : Tokenizer.t) (tagName arg : str) (def : TagDefinition.t) :
  Tokenizer.blockStatement tk = None ->
  Tokenizer.mustacheStatement tk = None ->
  tagName <> [] -> forallb is_word tagName = true ->
  parenDepth 0 arg = Some 0%Z ->
  Tokenizer.tagsDef tk !! tagName = Some def ->
  truthy (TagDefinition.escaped def) = false ->
  TagDefinition.seekable def <> Some false ->
  Tokenizer.tagsDef tk !! ("!"%char :: tagName) = None ->
  Tokenizer.processLine tk ("@"%char :: "!"%char :: tagName ++ "("%char :: arg ++ [")"%char])
  = Err TypeError.
Proof.
  intros Hb Hm Hne Hw Harg Hdef Hesc Hseek Hnone.
  pose proof (processLine_call tk [] true tagName arg [] def
                Hb Hm eq_refl eq_refl Hne Hw Harg Hdef Hesc Hseek) as H.
  cbn [app] in H. unfold tagStart in H. cbn [app] in H.
  by rewrite H, Hnone.
Qed.

Lemma X16_bang_tag_witness :
  Tokenizer.processLine (Tokenizer.new ifDef) (js "@!if(username)") = Err TypeError.
Proof.
  apply (X16_bang_tag (Tokenizer.new ifDef) (js "if") (js "username")
           (TagDefinition.mk (Some true) (Some true) None));
    try reflexivity; try discriminate; vm_compute; reflexivity.
Defined.

(** X17. A call of a tag may be cut inside its argument and go on on
    the next line. The first line is trimmed and the second is not: the
    whitespace at the end of the first line is lost, in the argument and in
    the raw text. The argument is the two parts put together with no line
    break and its runs of whitespace cut down; the raw text has the line
    break. The node of the tag has the number of the line where the call
    begins, and the newline node after it the number of the line where the
    call ends; when the tag is a block that newline node is the first child
    of the block. *)
Theorem X17_tag_two_lines (tk : Tokenizer.t) (ws tagName arg1 arg2 : str)
    (def : TagDefinition.t) (d : Z) :
  Tokenizer.blockStatement tk = None ->
  Tokenizer.mustacheStatement tk = None ->
  forallb is_space ws = true ->
  tagName <> [] -> forallb is_word tagName = true ->
  parenDepth 0 arg1 = Some d ->
  parenDepth d arg2 = Some 0%Z ->
  Tokenizer.tagsDef tk !! tagName = Some def ->
  truthy (TagDefinition.escaped def) = false ->
  TagDefinition.seekable def <> Some false ->
  let first := Tokenizer.line tk + 1 in
  let last := Tokenizer.line tk + 1 + 1 in
  let props := Props.mk tagName (collapseRuns (trimEnd arg1 ++ arg2))
                 (tagName ++ "("%char :: trimEnd arg1 ++ EOL :: arg2 ++ [")"%char]) in
  Tokenizer.processLines tk
    [ws ++ "@"%char :: tagName ++ "("%char :: arg1; arg2 ++ [")"%char]]
  = Ok (emit (if truthy (TagDefinition.block def)
              then Tokenizer.set_openedTags
                     (Tokenizer.getTagNode props first :: Tokenizer.openedTags tk)
                     (Tokenizer.set_line last tk)
              else emit (Tokenizer.set_line last tk)
                     [BlockNode.node (Tokenizer.getTagNode props first)])
          [Newline last]).
Proof.
  intros Hb Hm Hws Hne Hw H1 H2 Hdef Hesc Hseek first last props.
  destruct tk as [td toks bs ms l ot]. simpl in Hb, Hm, Hdef. subst bs ms.
  cbn [Tokenizer.line Tokenizer.tagsDef Tokenizer.openedTags] in *.
  destruct (feed_two_lines (l + 1) tagName (trimEnd arg1) arg2 d)
    as (s1 & Hfeed1 & Hs1 & Hfeed2);
    [by apply word_noParen|by rewrite parenDepth_trimEnd|done|].
  cbn [Tokenizer.processLines].
  unfold Tokenizer.processLine at 1, Tokenizer.set_line.
  cbn [Tokenizer.processText Tokenizer.line Tokenizer.tagsDef Tokenizer.tokens
    Tokenizer.blockStatement Tokenizer.mustacheStatement Tokenizer.openedTags].
  unfold Tokenizer.isSeekingBlock, Tokenizer.isSeekingMustache.
  cbn [Tokenizer.blockStatement Tokenizer.mustacheStatement].
  change (ws ++ "@"%char :: tagName ++ "("%char :: arg1)
    with (ws ++ tagStart false false tagName ++ "("%char :: arg1).
  rewrite (getTag_tagLine _ ws false false tagName _ def) by done.
  rewrite Hesc. rewrite trimmed_open by done.
  assert (match TagDefinition.seekable def with Some b => b | None => true end = true)
    as -> by by destruct (TagDefinition.seekable def) as [[]|].
  unfold Tokenizer.feedTextToBlockStatement at 1, Tokenizer.set_blockStatement.
  cbn [Tokenizer.line Tokenizer.tagsDef Tokenizer.tokens
    Tokenizer.blockStatement Tokenizer.mustacheStatement Tokenizer.openedTags].
  rewrite Hfeed1. cbn [bind]. rewrite Hs1. cbn [bind].
  unfold Tokenizer.processLine, Tokenizer.set_line.
  cbn [Tokenizer.processText Tokenizer.line Tokenizer.tagsDef Tokenizer.tokens
    Tokenizer.blockStatement Tokenizer.mustacheStatement Tokenizer.openedTags].
  unfold Tokenizer.isSeekingBlock. cbn [Tokenizer.blockStatement]. rewrite Hs1.
  unfold Tokenizer.feedTextToBlockStatement, Tokenizer.set_blockStatement.
  cbn [Tokenizer.line Tokenizer.tagsDef Tokenizer.tokens
    Tokenizer.blockStatement Tokenizer.mustacheStatement Tokenizer.openedTags].
  rewrite Hfeed2. cbn [bind]. unfold TagStatement.seeking. cbn [TagStatement.started
    TagStatement.ended TagStatement.props TagStatement.startPosition negb orb
    Props.name Tokenizer.tagsDef].
  rewrite (word_nonspace tagName) by done. rewrite Hdef.
  fold props. fold first. fold last.
  f_equal. unfold emit, Tokenizer.getBlankLineNode. simpl.
  destruct (truthy (TagDefinition.block def)); [done|]. by destruct ot.
Qed.

Lemma X17_tag_two_lines_witness :
  Tokenizer.processLines (Tokenizer.new ifDef) [js "  @if(a, "; js " b)"]
  = Ok (Tokenizer.mk ifDef [] None None 2
          [BlockNode.mk (Props.mk (js "if") (js "a, b") (js "if(a," ++ EOL :: js " b)"))
             1 [Newline 2]]).
Proof.
  pose proof (X17_tag_two_lines (Tokenizer.new ifDef) (js "  ") (js "if")
                (js "a, ") (js " b") (TagDefinition.mk (Some true) (Some true) None)
                0%Z eq_refl eq_refl eq_refl) as H.
  etrans; [apply H|].
  - discriminate.
  - reflexivity.
  - reflexivity.
  - reflexivity.
  - vm_compute. reflexivity.
  - reflexivity.
  - discriminate.
  - vm_compute. reflexivity.
Defined.

(** ** Tokenizer: the statements it keeps, and the errors of [parse] *)

(** The errors that come from a tag statement: the two that
    [TagStatement] raises, and the TypeError of the lookup of [.block]
    under a name that a statement has collected and the table does not
    have. *)
Definition fromTag (tagsDef : gmap str TagDefinition.t) (e : Error) : Prop :=
  (exists rest, e = WriteInNewLine rest)
  \/ e = WrapStatement ")"
  \/ (e = TypeError
      /\ exists s, tag_reachable s /\ TagStatement.ended s = true
                   /\ tagsDef !! Props.name (TagStatement.props s) = None).

(** Between two calls of [processText] the tokenizer keeps at most one
    statement, and a statement it keeps is seeking. *)
Definition oneStatement (tagsDef : gmap str TagDefinition.t) (tk : Tokenizer.t)
  : Prop :=
  Tokenizer.tagsDef tk = tagsDef
  /\ (forall b, Tokenizer.blockStatement tk = Some b ->
        tag_reachable b /\ TagStatement.seeking b = true
        /\ Tokenizer.mustacheStatement tk = None)
  /\ (forall m, Tokenizer.mustacheStatement tk = Some m ->
        wfm m /\ MustacheStatement.seeking m = true
        /\ Tokenizer.blockStatement tk = None).

Section Statements.

Import Tokenizer.

Variable td : gmap str TagDefinition.t.

(** The outcome of a step: a tokenizer that keeps one statement at most,
    or an error of a tag statement. *)
Definition goodStep (r : result Tokenizer.t) : Prop :=
  match r with
  | Ok tk' => oneStatement td tk'
  | Err e => fromTag td e
  end.

Lemma oneStatement_closed tk :
  tagsDef tk = td -> blockStatement tk = None -> mustacheStatement tk = None ->
  oneStatement td tk.
Proof. intros Htd Hb Hm. split; [done|]. rewrite Hb, Hm. by split. Qed.

Lemma oneStatement_emit tk nodes :
  tagsDef tk = td -> blockStatement tk = None -> mustacheStatement tk = None ->
  oneStatement td (emit tk nodes).
Proof.
  intros Htd Hb Hm. destruct (emit_fields tk nodes) as (H1 & _ & H3 & H4).
  apply oneStatement_closed; congruence.
Qed.

Lemma block_step tk text b :
  tagsDef tk = td -> blockStatement tk = Some b -> tag_reachable b ->
  mustacheStatement tk = None ->
  goodStep (feedTextToBlockStatement tk text).
Proof.
  intros Htd Hb Hr Hm.
  destruct (feedTextToBlockStatement tk text) as [tk'|e] eqn:H; simpl.
  - pose proof (feedTextToBlockStatement_tagsDef _ _ _ H) as Htd'.
    pose proof (feedTextToBlockStatement_mustache _ _ _ H) as Hm'.
    apply feedTextToBlockStatement_cases in H
      as (b0 & b' & Hb0 & Hfeed & [[Hs ->]|[Hs (def & Hdef & ->)]]).
    + rewrite Hb in Hb0. simplify_eq.
      split; [done|]. split.
      * intros b1 H1. simpl in H1. simplify_eq.
        split; [by apply (tag_reach_feed b0 text)|done].
      * intros m H1. simpl in H1. congruence.
    + apply oneStatement_closed; [congruence|done|congruence].
  - unfold feedTextToBlockStatement in H. rewrite Hb in H.
    pose proof (feed_inv b text (tag_reachable_inv b Hr)) as Hf.
    destruct (TagStatement.feed b text) as [b'|e'] eqn:Hfeed; cbn [bind] in H.
    + destruct (TagStatement.seeking b') eqn:Hs; [done|].
      cbn [tagsDef set_blockStatement] in H.
      destruct (tagsDef tk !! _) as [def|] eqn:Hdef; [done|]. simplify_eq.
      right; right. split; [done|]. exists b'.
      split; [by apply (tag_reach_feed b text)|]. split; [|done].
      unfold TagStatement.seeking in Hs. apply orb_false_iff in Hs as [_ Hs].
      by apply negb_false_iff in Hs.
    + simplify_eq. destruct Hf as [Hf|Hf]; [by left|by right; left].
Qed.

Lemma mustache_step k tk text m :
  tagsDef tk = td -> mustacheStatement tk = Some m ->
  wfm m -> MustacheStatement.ended m = false ->
  blockStatement tk = None ->
  (forall tk1 text1, length text1 < length text -> oneStatement td tk1 ->
     goodStep (k tk1 text1)) ->
  goodStep (feedTextToMustacheStatement k tk text).
Proof.
  intros Htd Hm Hwf He Hb Hk. unfold feedTextToMustacheStatement. rewrite Hm.
  destruct (feed_wfm m text Hwf He)
    as (m' & -> & _ & [(Hs & Hwf' & _)|(Hs & _ & _ & Hlen)]); cbn [bind]; rewrite Hs.
  - split; [done|]. split.
    + intros b H. simpl in H. congruence.
    + intros m0 H. simpl in H. by simplify_eq.
  - assert (forall tk0, tagsDef tk0 = td -> blockStatement tk0 = None ->
              forall node,
                tagsDef (consumeNode tk0 node) = td
                /\ blockStatement (consumeNode tk0 node) = None
                /\ mustacheStatement (consumeNode tk0 node) = mustacheStatement tk0)
      as Hcons.
    { intros tk0 H1 H2 node.
      destruct (consumeNode_fields tk0 node) as (-> & _ & -> & ->). done. }
    set (tk1 := match MustacheProp.textLeft (MustacheStatement.props m') with
                | [] => set_mustacheStatement (Some m') tk
                | _ :: _ =>
                    consumeNode (set_mustacheStatement (Some m') tk)
                      (Raw (MustacheProp.textLeft (MustacheStatement.props m'))
                         (MustacheStatement.startPosition m'))
                end).
    assert (tagsDef tk1 = td /\ blockStatement tk1 = None) as [Htd1 Hb1].
    { unfold tk1. destruct (MustacheProp.textLeft _); [done|].
      by destruct (Hcons (set_mustacheStatement (Some m') tk) Htd Hb
                     (Raw (a :: l) (MustacheStatement.startPosition m')))
        as (? & ? & _). }
    set (node := getMustacheNode (MustacheStatement.props m')
                   (MustacheStatement.startPosition m')).
    destruct (Hcons tk1 Htd1 Hb1 node) as (Htd2 & Hb2 & _).
    assert (oneStatement td (set_mustacheStatement None (consumeNode tk1 node))) as Hone
      by by apply oneStatement_closed.
    destruct (MustacheProp.textRight (MustacheStatement.props m')) as [|r rs].
    + simpl.
      destruct (Hcons (set_mustacheStatement None (consumeNode tk1 node)) Htd2 Hb2
                  (getBlankLineNode (set_mustacheStatement None (consumeNode tk1 node))))
        as (? & ? & ?).
      by apply oneStatement_closed.
    + apply Hk; [by apply Hlen|done].
Qed.

Lemma processText_step fuel : forall tk text,
  length text < fuel -> oneStatement td tk -> goodStep (processText fuel tk text).
Proof.
  induction fuel as [|fuel IH]; intros tk text Hlen (Htd & Hblock & Hmust); [lia|].
  assert (Hk : forall tk1 text1, length text1 < length text -> oneStatement td tk1 ->
                 goodStep (processText fuel tk1 text1)).
  { intros tk1 text1 Hl H1. apply IH; [lia|done]. }
  cbn [processText].
  destruct (isSeekingBlock tk) eqn:Hsb.
  { unfold isSeekingBlock in Hsb. destruct (blockStatement tk) as [b|] eqn:Hb; [|done].
    destruct (Hblock b eq_refl) as (Hr & _ & Hm). by apply (block_step tk text b). }
  assert (blockStatement tk = None) as Hb.
  { unfold isSeekingBlock in Hsb. destruct (blockStatement tk) as [b|]; [|done].
    destruct (Hblock b eq_refl) as (_ & Hs & _). congruence. }
  destruct (isSeekingMustache tk) eqn:Hsm.
  { unfold isSeekingMustache in Hsm.
    destruct (mustacheStatement tk) as [m|] eqn:Hm; [|done].
    destruct (Hmust m eq_refl) as (Hwf & Hs & _).
    apply (mustache_step _ tk text m); try done.
    unfold MustacheStatement.seeking in Hs. apply andb_true_iff in Hs as [_ Hs].
    by apply negb_true_iff in Hs. }
  assert (mustacheStatement tk = None) as Hm.
  { unfold isSeekingMustache in Hsm. destruct (mustacheStatement tk) as [m|]; [|done].
    destruct (Hmust m eq_refl) as (_ & Hs & _). congruence. }
  assert (forall a b, oneStatement td (consumeNode (consumeNode tk a) b)) as Htwo.
  { intros a b. rewrite <- emit_two. by apply oneStatement_emit. }
  destruct (getTag tk text) as [tag|].
  - destruct (truthy (TagDefinition.escaped tag)); [apply Htwo|].
    apply (block_step _ _ (TagStatement.new (line tk)
                             match TagDefinition.seekable tag with
                             | Some b => b
                             | None => true
                             end)); try done.
    constructor.
  - unfold isClosingTag. destruct (openedTags tk) as [|recentTag outer] eqn:Ho.
    + destruct (MUSTACHE_REGEX text); [|apply Htwo].
      apply (mustache_step _ _ text (MustacheStatement.new (line tk))); try done.
      apply wfm_left.
    + destruct (bool_decide _).
      * simpl. rewrite <- emit_two. by apply oneStatement_emit.
      * destruct (MUSTACHE_REGEX text); [|apply Htwo].
        apply (mustache_step _ _ text (MustacheStatement.new (line tk))); try done.
        apply wfm_left.
Qed.

Lemma processLines_step lines : forall tk,
  oneStatement td tk -> goodStep (processLines tk lines).
Proof.
  induction lines as [|text lines IH]; intros tk Hone; [done|].
  cbn [processLines]. unfold processLine.
  pose proof (processText_step (S (length text)) (set_line (line tk + 1) tk) text
                (Nat.lt_succ_diag_r _)) as Hstep.
  destruct (processText _ _ text) as [tk1|e]; cbn [bind].
  - apply IH. by apply Hstep.
  - by apply Hstep.
Qed.

End Statements.

(** X18. After any number of lines the tokenizer keeps at most one
    statement, a tag statement or a mustache statement, and a statement it
    keeps is seeking: a statement that has ended is handed on and dropped
    before the next line is read. So at most one of the two recoveries at
    the end of [parse] applies. *)
Theorem X18_one_open_statement (tagsDef : gmap str TagDefinition.t)
    (lines : list str) (tk : Tokenizer.t) :
  Tokenizer.processLines (Tokenizer.new tagsDef) lines = Ok tk ->
  (Tokenizer.blockStatement tk = None \/ Tokenizer.mustacheStatement tk = None)
  /\ (forall b, Tokenizer.blockStatement tk = Some b -> TagStatement.seeking b = true)
  /\ (forall m, Tokenizer.mustacheStatement tk = Some m ->
        MustacheStatement.seeking m = true).
Proof.
  intros H.
  pose proof (processLines_step tagsDef lines (Tokenizer.new tagsDef)
                (oneStatement_closed tagsDef (Tokenizer.new tagsDef) eq_refl eq_refl eq_refl)) as Hstep.
  rewrite H in Hstep. destruct Hstep as (_ & Hb & Hm).
  split; [|split].
  - destruct (Tokenizer.blockStatement tk) as [b|]; [|by left].
    right. by destruct (Hb b eq_refl) as (_ & _ & ?).
  - intros b Hsome. by destruct (Hb b Hsome) as (_ & ? & _).
  - intros m Hsome. by destruct (Hm m Hsome) as (_ & ? & _).
Qed.

(** The tokenizer after the lines [a] and [a {{ b]. *)
Definition midExpression : Tokenizer.t :=
  Tokenizer.mk ifDef [Raw (js "a") 1; Newline 1] None
    (Some (MustacheStatement.mk 2 true false
             (MustacheProp.mk MustacheStatement.mustache [] (js "{{ b") (js "a ") [])
             MustacheStatement.jsArg 0%Z
             (Some (MustacheStatement.mkInternal
                      (CharBucket.mk CONTROLLED (js " b") (Some "b"%char))
                      (CharBucket.mk ALL (js "a ") None) (CharBucket.new ALL)))))
    2 [].

Lemma X18_one_open_statement_witness :
  Tokenizer.processLines (Tokenizer.new ifDef) [js "a"; js "a {{ b"] = Ok midExpression
  /\ (Tokenizer.blockStatement midExpression = None
      \/ Tokenizer.mustacheStatement midExpression = None).
Proof.
  assert (Tokenizer.processLines (Tokenizer.new ifDef) [js "a"; js "a {{ b"]
          = Ok midExpression) as H by (vm_compute; reflexivity).
  split; [exact H|].
  exact (proj1 (X18_one_open_statement ifDef [js "a"; js "a {{ b"] midExpression H)).
Defined.

(** ** Tokenizer: where [parse] fails *)

(** The tokenizer after the nodes of the mustache statement [m], which
    has ended: [feedTextToMustacheStatement] goes on from it with the text
    right of the statement. *)
Definition afterExpression (tk : Tokenizer.t) (m : MustacheStatement.t)
  : Tokenizer.t :=
  Tokenizer.set_mustacheStatement None (emit tk (mustacheNodes m)).

(** [classifies tk text tk1 rem]: the call of [processText] with the
    tokenizer [tk] and the text [text] comes, with the tokenizer [tk1], to
    [getTag] for the text [rem], which is [text] when no statement is
    seeking, or the text right of an expression that has ended and of all
    expressions that end after it. *)
Inductive classifies : Tokenizer.t -> str -> Tokenizer.t -> str -> Prop :=
| classifies_text tk text :
    Tokenizer.isSeekingBlock tk = false ->
    Tokenizer.isSeekingMustache tk = false ->
    classifies tk text tk text
| classifies_right_open tk text m m' tk1 rem :
    Tokenizer.isSeekingBlock tk = false ->
    Tokenizer.mustacheStatement tk = Some m ->
    MustacheStatement.seeking m = true ->
    MustacheStatement.feed m text = Ok m' ->
    MustacheStatement.seeking m' = false ->
    MustacheProp.textRight (MustacheStatement.props m') <> [] ->
    classifies (afterExpression tk m')
      (MustacheProp.textRight (MustacheStatement.props m')) tk1 rem ->
    classifies tk text tk1 rem
| classifies_right_new tk text m' tk1 rem :
    Tokenizer.isSeekingBlock tk = false ->
    Tokenizer.isSeekingMustache tk = false ->
    Tokenizer.getTag tk text = None ->
    Tokenizer.isClosingTag tk text = false ->
    MUSTACHE_REGEX text = true ->
    MustacheStatement.feed (MustacheStatement.new (Tokenizer.line tk)) text = Ok m' ->
    MustacheStatement.seeking m' = false ->
    MustacheProp.textRight (MustacheStatement.props m') <> [] ->
    classifies (afterExpression tk m')
      (MustacheProp.textRight (MustacheStatement.props m')) tk1 rem ->
    classifies tk text tk1 rem.

(** How [feedTextToBlockStatement] fails for the statement [b] and the
    text [fed]: [feed] raises one of the two errors of a tag statement, or
    it returns a statement that has ended and the table has no entry under
    the name it has collected, so that reading [.block] is a TypeError. *)
Definition tagFailure (tagsDef : gmap str TagDefinition.t) (b : TagStatement.t)
    (fed : str) (e : Error) : Prop :=
  (TagStatement.feed b fed = Err e
   /\ ((exists rest, e = WriteInNewLine rest) \/ e = WrapStatement ")"))
  \/ (exists b',
        TagStatement.feed b fed = Ok b'
        /\ TagStatement.ended b' = true
        /\ tagsDef !! Props.name (TagStatement.props b') = None
        /\ e = TypeError).

Section Failures.

Import Tokenizer.

Variable td : gmap str TagDefinition.t.

Lemma feedTextToBlockStatement_fails tk text b e :
  tagsDef tk = td -> blockStatement tk = Some b -> tag_reachable b ->
  feedTextToBlockStatement tk text = Err e ->
  tagFailure td b text e.
Proof.
  intros Htd Hb Hr H. unfold feedTextToBlockStatement in H. rewrite Hb in H.
  pose proof (feed_inv b text (tag_reachable_inv b Hr)) as Hf.
  destruct (TagStatement.feed b text) as [b'|e'] eqn:Hfeed; cbn [bind] in H.
  - destruct (TagStatement.seeking b') eqn:Hs; [done|].
    cbn [tagsDef set_blockStatement] in H.
    destruct (tagsDef tk !! _) as [def|] eqn:Hdef; [done|]. simplify_eq.
    right. exists b'. split; [done|]. split; [|done].
    unfold TagStatement.seeking in Hs. apply orb_false_iff in Hs as [_ Hs].
    by apply negb_false_iff in Hs.
  - simplify_eq. left. split; [done|]. exact Hf.
Qed.

(** [feedTextToMustacheStatement], with the tokenizer it goes on from
    written as [afterExpression]. *)
Lemma feedTextToMustacheStatement_eq k tk text m :
  mustacheStatement tk = Some m ->
  feedTextToMustacheStatement k tk text
  = let* m' := MustacheStatement.feed m text in
    if MustacheStatement.seeking m' then Ok (set_mustacheStatement (Some m') tk)
    else match MustacheProp.textRight (MustacheStatement.props m') with
         | [] => Ok (emit (afterExpression tk m') [Newline (line tk)])
         | _ :: _ => k (afterExpression tk m')
                       (MustacheProp.textRight (MustacheStatement.props m'))
         end.
Proof.
  intros Hm. unfold feedTextToMustacheStatement. rewrite Hm.
  destruct (MustacheStatement.feed m text) as [m'|]; [|done]. cbn [bind].
  destruct (MustacheStatement.seeking m'); [done|].
  unfold afterExpression, mustacheNodes, emit, getBlankLineNode.
  destruct tk as [td0 toks bs ms ln ot].
  destruct (MustacheProp.textLeft _), (MustacheProp.textRight _), ot; reflexivity.
Qed.

Lemma afterExpression_fields tk m :
  tagsDef (afterExpression tk m) = tagsDef tk
  /\ line (afterExpression tk m) = line tk
  /\ blockStatement (afterExpression tk m) = blockStatement tk
  /\ mustacheStatement (afterExpression tk m) = None.
Proof.
  unfold afterExpression. simpl.
  by destruct (emit_fields tk (mustacheNodes m)) as (-> & -> & -> & _).
Qed.

Lemma classifies_fields tk text tk1 rem :
  classifies tk text tk1 rem -> tagsDef tk1 = tagsDef tk /\ line tk1 = line tk.
Proof.
  induction 1 as [| ? ? ? m' ? ? ? ? ? ? ? ? ? [-> ->] | ? ? m' ? ? ? ? ? ? ? ? ? ? ? [-> ->]];
    [done| |]; by destruct (afterExpression_fields tk m') as (-> & -> & _).
Qed.

(** A call of [processText] that fails: it fails in the call of
    [feedTextToBlockStatement] for the statement that is open, or for a
    fresh statement and a text that [getTag] takes for a tag. *)
Lemma processText_fails fuel : forall tk text e,
  processText fuel tk text = Err e ->
  length text < fuel -> oneStatement td tk ->
  (exists b, blockStatement tk = Some b /\ tagFailure td b text e)
  \/ (exists tk1 rem tag,
        classifies tk text tk1 rem
        /\ getTag tk1 rem = Some tag
        /\ truthy (TagDefinition.escaped tag) = false
        /\ tagFailure td
             (TagStatement.new (line tk1) (default true (TagDefinition.seekable tag)))
             (replace_TRIM_TAG_REGEX (trim rem)) e).
Proof.
  induction fuel as [|fuel IH]; intros tk text e H Hlen (Htd & Hblock & Hmust); [lia|].
  assert (Hright : forall m m',
            blockStatement tk = None ->
            wfm m -> MustacheStatement.ended m = false ->
            (let* m' := MustacheStatement.feed m text in
             if MustacheStatement.seeking m' then Ok (set_mustacheStatement (Some m') tk)
             else match MustacheProp.textRight (MustacheStatement.props m') with
                  | [] => Ok (emit (afterExpression tk m') [Newline (line tk)])
                  | _ :: _ => processText fuel (afterExpression tk m')
                                (MustacheProp.textRight (MustacheStatement.props m'))
                  end) = Err e ->
            MustacheStatement.feed m text = Ok m' ->
            MustacheStatement.seeking m' = false
            /\ MustacheProp.textRight (MustacheStatement.props m') <> []
            /\ exists tk1 rem tag,
                 classifies (afterExpression tk m')
                   (MustacheProp.textRight (MustacheStatement.props m')) tk1 rem
                 /\ getTag tk1 rem = Some tag
                 /\ truthy (TagDefinition.escaped tag) = false
                 /\ tagFailure td
                      (TagStatement.new (line tk1)
                         (default true (TagDefinition.seekable tag)))
                      (replace_TRIM_TAG_REGEX (trim rem)) e).
  { intros m m' Hb Hwf He Hrun Hfeed.
    destruct (feed_wfm m text Hwf He)
      as (m1 & Hfeed1 & _ & [(Hs & _)|(Hs & _ & _ & Hl)]);
      rewrite Hfeed in Hfeed1; simplify_eq;
      rewrite Hfeed in Hrun; cbn [bind] in Hrun; rewrite Hs in Hrun; [done|].
    split; [done|].
    destruct (MustacheProp.textRight (MustacheStatement.props m1)) as [|r rs] eqn:Hr;
      [done|].
    split; [done|].
    destruct (afterExpression_fields tk m1) as (Htd1 & Hln1 & Hb1 & Hm1).
    apply IH in Hrun as [(b & Hsome & _)|Hfound].
    - congruence.
    - exact Hfound.
    - specialize (Hl ltac:(done)). simpl in Hl |- *. lia.
    - apply oneStatement_closed; congruence. }
  cbn [processText] in H.
  destruct (isSeekingBlock tk) eqn:Hsb.
  { unfold isSeekingBlock in Hsb. destruct (blockStatement tk) as [b|] eqn:Hb; [|done].
    destruct (Hblock b eq_refl) as (Hr & _ & _).
    left. exists b. split; [done|].
    by apply (feedTextToBlockStatement_fails tk text b e). }
  assert (blockStatement tk = None) as Hb.
  { unfold isSeekingBlock in Hsb. destruct (blockStatement tk) as [b|]; [|done].
    destruct (Hblock b eq_refl) as (_ & Hs & _). congruence. }
  right.
  destruct (isSeekingMustache tk) eqn:Hsm.
  { unfold isSeekingMustache in Hsm.
    destruct (mustacheStatement tk) as [m|] eqn:Hm; [|done].
    destruct (Hmust m eq_refl) as (Hwf & Hs & _).
    assert (MustacheStatement.ended m = false) as He.
    { unfold MustacheStatement.seeking in Hs. apply andb_true_iff in Hs as [_ Hs'].
      by apply negb_true_iff in Hs'. }
    rewrite (feedTextToMustacheStatement_eq _ tk text m Hm) in H.
    destruct (feed_wfm m text Hwf He) as (m' & Hfeed & _).
    destruct (Hright m m' Hb Hwf He H Hfeed)
      as (Hs' & Hne & tk1 & rem & tag & Hcl & Htag & Hesc & Hfail).
    exists tk1, rem, tag. split; [|done].
    by apply (classifies_right_open tk text m m'). }
  assert (mustacheStatement tk = None) as Hm.
  { unfold isSeekingMustache in Hsm. destruct (mustacheStatement tk) as [m|]; [|done].
    destruct (Hmust m eq_refl) as (_ & Hs & _). congruence. }
  destruct (getTag tk text) as [tag|] eqn:Htag.
  - destruct (truthy (TagDefinition.escaped tag)) eqn:Hesc; [done|].
    exists tk, text, tag. split; [by apply classifies_text|].
    repeat (split; [done|]).
    replace (default true (TagDefinition.seekable tag))
      with (match TagDefinition.seekable tag with Some b => b | None => true end)
      by by destruct (TagDefinition.seekable tag).
    apply (feedTextToBlockStatement_fails
             (set_blockStatement
                (Some (TagStatement.new (line tk)
                         match TagDefinition.seekable tag with
                         | Some b => b
                         | None => true
                         end)) tk) _ _ _ Htd eq_refl (tag_reach_new _ _) H).
  - destruct (isClosingTag tk text) eqn:Hc.
    { unfold isClosingTag in Hc. by destruct (openedTags tk). }
    destruct (MUSTACHE_REGEX text) eqn:Hre; [|done].
    set (tk2 := set_mustacheStatement (Some (MustacheStatement.new (line tk))) tk) in H.
    rewrite (feedTextToMustacheStatement_eq _ tk2 text (MustacheStatement.new (line tk))
               eq_refl) in H.
    assert (forall m, afterExpression tk2 m = afterExpression tk m) as Hafter.
    { intros m. unfold afterExpression, tk2.
      by rewrite emit_set_mustacheStatement. }
    destruct (feed_wfm (MustacheStatement.new (line tk)) text (wfm_left _ _ _ _) eq_refl)
      as (m' & Hfeed & _).
    rewrite Hfeed in H. cbn [bind] in H.
    destruct (MustacheStatement.seeking m') eqn:Hs'; [done|].
    rewrite Hafter in H.
    destruct (Hright (MustacheStatement.new (line tk)) m' Hb (wfm_left _ _ _ _) eq_refl)
      as (_ & Hne & tk1 & rem & tag & Hcl & Htag' & Hesc & Hfail); [|done|].
    { rewrite Hfeed. cbn [bind]. rewrite Hs'.
      destruct (MustacheProp.textRight (MustacheStatement.props m')); [done|].
      exact H. }
    exists tk1, rem, tag. split; [|done].
    by apply (classifies_right_new tk text m').
Qed.

(** The line on which [processLines] fails. *)
Lemma processLines_fails lines : forall tk e,
  processLines tk lines = Err e ->
  exists l1 text l2 tk1,
    lines = l1 ++ text :: l2
    /\ processLines tk l1 = Ok tk1
    /\ processLine tk1 text = Err e.
Proof.
  induction lines as [|text lines IH]; intros tk e H; simpl in H; [done|].
  destruct (processLine tk text) as [tk1|e1] eqn:H1; cbn [bind] in H.
  - apply IH in H as (l1 & text' & l2 & tk2 & -> & Hrun & Hfail).
    exists (text :: l1), text', l2, tk2. split; [done|]. split; [|done].
    simpl. by rewrite H1.
  - simplify_eq. by exists [], text, lines, tk.
Qed.

End Failures.

(** X19. When [parse] fails, it fails while it reads one of the lines,
    in [feedTextToBlockStatement]: for the tag statement that is open and
    the line, or for a fresh statement and a text that [getTag] took for a
    tag that is not escaped, the line or what is right of its expressions.
    [TagStatement.feed] raises "Write in a new line" or "Wrap statement
    inside ()" for a closing parenthesis, or it returns a statement that
    has ended and the TypeError is that of reading [.block] under a name
    that the table does not have. The calls of [MustacheStatement.feed] on
    the way to the failure have all returned. *)
Theorem X19_parse_errors (template : str) (tagsDef : gmap str TagDefinition.t)
    (e : Error) :
  Tokenizer.parse template tagsDef = Err e ->
  exists l1 text l2 tk,
    splitEOL template = l1 ++ text :: l2
    /\ Tokenizer.processLines (Tokenizer.new tagsDef) l1 = Ok tk
    /\ Tokenizer.processLine tk text = Err e
    /\ ((exists b,
           Tokenizer.blockStatement tk = Some b /\ tagFailure tagsDef b text e)
        \/ (exists tk1 rem tag,
              classifies (Tokenizer.set_line (Tokenizer.line tk + 1) tk) text tk1 rem
              /\ Tokenizer.getTag tk1 rem = Some tag
              /\ truthy (TagDefinition.escaped tag) = false
              /\ tagFailure tagsDef
                   (TagStatement.new (Tokenizer.line tk + 1)
                      (default true (TagDefinition.seekable tag)))
                   (replace_TRIM_TAG_REGEX (trim rem)) e)).
Proof.
  unfold Tokenizer.parse. intros H.
  destruct (Tokenizer.processLines (Tokenizer.new tagsDef) (splitEOL template))
    as [tk0|e0] eqn:Hrun; [done|].
  cbn [bind] in H. simplify_eq.
  apply processLines_fails in Hrun as (l1 & text & l2 & tk & Hsplit & Hrun & Hfail).
  exists l1, text, l2, tk. repeat (split; [done|]).
  pose proof (processLines_step tagsDef l1 (Tokenizer.new tagsDef)
                (oneStatement_closed tagsDef (Tokenizer.new tagsDef)
                   eq_refl eq_refl eq_refl)) as Hstep.
  rewrite Hrun in Hstep. simpl in Hstep.
  unfold Tokenizer.processLine in Hfail.
  apply (processText_fails tagsDef) in Hfail as [Hopen|Hnew].
  - by left.
  - right. destruct Hnew as (tk1 & rem & tag & Hcl & Htag & Hesc & Hfailure).
    exists tk1, rem, tag. repeat (split; [done|]).
    apply classifies_fields in Hcl as [_ Hln]. simpl in Hln. by rewrite <- Hln.
  - lia.
  - destruct Hstep as (Htd & Hb & Hm). by split.
Qed.

(** A template that fails right of an expression of its second line. *)
Definition failingTemplate : str := js "a" ++ EOL :: js "{{ b }}@if(x) then".

Lemma X19_parse_errors_witness :
  Tokenizer.parse failingTemplate ifDef = Err (WriteInNewLine (js " then"))
  /\ exists l1 text l2 tk,
       splitEOL failingTemplate = l1 ++ text :: l2
       /\ Tokenizer.processLines (Tokenizer.new ifDef) l1 = Ok tk
       /\ Tokenizer.processLine tk text = Err (WriteInNewLine (js " then"))
       /\ ((exists b,
              Tokenizer.blockStatement tk = Some b
              /\ tagFailure ifDef b text (WriteInNewLine (js " then")))
           \/ (exists tk1 rem tag,
                 classifies (Tokenizer.set_line (Tokenizer.line tk + 1) tk) text tk1 rem
                 /\ Tokenizer.getTag tk1 rem = Some tag
                 /\ truthy (TagDefinition.escaped tag) = false
                 /\ tagFailure ifDef
                      (TagStatement.new (Tokenizer.line tk + 1)
                         (default true (TagDefinition.seekable tag)))
                      (replace_TRIM_TAG_REGEX (trim rem))
                      (WriteInNewLine (js " then")))).
Proof.
  assert (Tokenizer.parse failingTemplate ifDef = Err (WriteInNewLine (js " then")))
    as H by (vm_compute; reflexivity).
  split; [exact H|].
  exact (X19_parse_errors failingTemplate ifDef _ H).
Defined.

(** ** Tokenizer: a line with one expression *)

Section ExpressionLine.

Import Tokenizer.

Lemma MUSTACHE_REGEX_opener L escaped rest :
  MUSTACHE_REGEX (L ++ opener escaped ++ rest) = true.
Proof.
  induction L as [|c L IH].
  - by destruct escaped.
  - cbn [app MUSTACHE_REGEX]. rewrite IH. apply orb_true_r.
Qed.

Lemma processText_plain fuel td toks ln text :
  plainLine td text ->
  processText (S fuel) (mk td toks None None ln []) text
  = Ok (mk td (toks ++ [Raw text ln; Newline ln]) None None ln []).
Proof.
  intros [Htag Hm]. cbn [processText].
  unfold isSeekingBlock, isSeekingMustache. simpl.
  rewrite getTag_tagsDef. simpl. rewrite Htag, Hm.
  unfold isClosingTag, consumeNode. simpl.
  by rewrite <- app_assoc.
Qed.

End ExpressionLine.

(** The raw node of a text, when there is any. *)
Definition rawIf (text : str) (lineno : nat) : list Node :=
  match text with
  | [] => []
  | _ :: _ => [Raw text lineno]
  end.

(** An expression of a line with the text before it. *)
Record Segment := mkSegment {
  seg_left : str;
  seg_escaped : bool;
  seg_arg : str
}.

(** The line with the expressions [segs], one after the other, and the
    text [textRight] after the last one. *)
Fixpoint exprLine (segs : list Segment) (textRight : str) : str :=
  match segs with
  | [] => textRight
  | g :: segs =>
      seg_left g ++ opener (seg_escaped g) ++ seg_arg g ++ closer (seg_escaped g)
        ++ exprLine segs textRight
  end.

(** The nodes of an expression: a raw node for the text before it, if
    there is any, and a mustache node. *)
Definition segNodes (lineno : nat) (g : Segment) : list Node :=
  rawIf (seg_left g) lineno
  ++ [Mustache (Props.mk (kind (seg_escaped g)) (collapseRuns (seg_arg g))
                  (opener (seg_escaped g) ++ seg_arg g ++ closer (seg_escaped g)))
        lineno].

Definition lineNodes (lineno : nat) (segs : list Segment) (textRight : str)
  : list Node :=
  flat_map (segNodes lineno) segs ++ rawIf textRight lineno ++ [Newline lineno].

(** The texts before the expressions hold no brace, the braces inside
    each expression match, what is left of the line is at no point the
    line of a tag, and the text after the last expression is plain. *)
Fixpoint goodLine (tagsDef : gmap str TagDefinition.t) (segs : list Segment)
    (textRight : str) : Prop :=
  match segs with
  | [] => plainLine tagsDef textRight
  | g :: segs' =>
      forallb noBrace (seg_left g) = true
      /\ braceDepth 0 (seg_arg g) = Some 0%Z
      /\ afterOpener (seg_escaped g) (seg_arg g)
      /\ Tokenizer.getTag (Tokenizer.new tagsDef) (exprLine segs textRight) = None
      /\ goodLine tagsDef segs' textRight
  end.

Section ExpressionLines.

Import Tokenizer.

Lemma exprLine_length g segs textRight :
  length segs + 1 < length (exprLine (g :: segs) textRight).
Proof.
  revert g. induction segs as [|g' segs IH]; intros g.
  - cbn [exprLine]. rewrite !length_app. destruct (seg_escaped g); simpl; lia.
  - specialize (IH g'). cbn [exprLine] in *. rewrite !length_app in *.
    destruct (seg_escaped g); simpl in *; lia.
Qed.

Lemma processText_exprs td ln textRight segs : forall g toks fuel,
  length segs < fuel ->
  goodLine td (g :: segs) textRight ->
  processText (S fuel) (mk td toks None None ln []) (exprLine (g :: segs) textRight)
  = Ok (mk td (toks ++ lineNodes ln (g :: segs) textRight) None None ln []).
Proof.
  induction segs as [|g' segs IH]; intros g toks fuel Hfuel Hgood.
  all: destruct Hgood as (HL & Harg & Hafter & Htag & Hgood).
  - destruct (feed_expression ln (seg_escaped g) (seg_left g) (seg_arg g)
                textRight HL Harg Hafter) as (m & Hfeed & Hprops & He & Hs & Hpos).
    cbn [exprLine] in *.
    cbn [processText line tagsDef tokens blockStatement mustacheStatement openedTags].
    unfold isSeekingBlock, isSeekingMustache.
    cbn [blockStatement mustacheStatement].
    rewrite getTag_tagsDef. cbn [tagsDef]. rewrite Htag.
    unfold isClosingTag. cbn [openedTags].
    rewrite MUSTACHE_REGEX_opener.
    unfold feedTextToMustacheStatement, set_mustacheStatement.
    cbn [line tagsDef tokens blockStatement mustacheStatement openedTags].
    rewrite Hfeed. cbn [bind]. rewrite Hs, Hprops, Hpos.
    cbn [MustacheProp.textLeft MustacheProp.textRight].
    unfold getMustacheNode, getBlankLineNode.
    cbn [MustacheProp.name MustacheProp.jsArg MustacheProp.raw].
    unfold lineNodes, segNodes. cbn [flat_map].
    destruct fuel as [|fuel]; [lia|].
    destruct (seg_left g) as [|l textLeft], textRight as [|r textRight];
      unfold consumeNode, set_tokens;
      cbn [line tagsDef tokens blockStatement mustacheStatement openedTags];
      rewrite ?processText_plain by done; unfold rawIf; simpl;
      by rewrite <- ?app_assoc.
  - destruct (feed_expression ln (seg_escaped g) (seg_left g) (seg_arg g)
                (exprLine (g' :: segs) textRight) HL Harg Hafter)
      as (m & Hfeed & Hprops & He & Hs & Hpos).
    assert (exists c rest, exprLine (g' :: segs) textRight = c :: rest)
      as (c & rest & Hrest).
    { pose proof (exprLine_length g' segs textRight) as Hlen.
      destruct (exprLine (g' :: segs) textRight) as [|c rest]; [simpl in Hlen; lia|].
      by eexists _, _. }
    specialize (IH g'). simpl in Hfuel.
    change (exprLine (g :: g' :: segs) textRight)
      with (seg_left g ++ opener (seg_escaped g) ++ seg_arg g
              ++ closer (seg_escaped g) ++ exprLine (g' :: segs) textRight) in *.
    cbn [processText line tagsDef tokens blockStatement mustacheStatement openedTags].
    unfold isSeekingBlock, isSeekingMustache.
    cbn [blockStatement mustacheStatement].
    rewrite getTag_tagsDef. cbn [tagsDef]. rewrite Htag.
    unfold isClosingTag. cbn [openedTags].
    rewrite MUSTACHE_REGEX_opener.
    unfold feedTextToMustacheStatement, set_mustacheStatement.
    cbn [line tagsDef tokens blockStatement mustacheStatement openedTags].
    rewrite Hfeed. cbn [bind]. rewrite Hs, Hprops, Hpos.
    cbn [MustacheProp.textLeft MustacheProp.textRight].
    unfold getMustacheNode, getBlankLineNode.
    cbn [MustacheProp.name MustacheProp.jsArg MustacheProp.raw].
    rewrite Hrest. rewrite <- Hrest.
    unfold lineNodes, segNodes. cbn [flat_map].
    destruct fuel as [|fuel]; [lia|].
    destruct (seg_left g) as [|l textLeft];
      unfold consumeNode, set_tokens;
      cbn [line tagsDef tokens blockStatement mustacheStatement openedTags];
      (rewrite IH; [|lia|done]); unfold lineNodes, segNodes, rawIf; simpl;
      by rewrite <- ?app_assoc.
Qed.

End ExpressionLines.

(** X20. A line with one or more expressions, read while no statement
    and no block is open, gives for each expression a raw node for the text
    before it, if there is any, and a mustache node with the name of the
    kind of braces, the expression with its runs of whitespace cut down, and
    the raw text with the braces; then a raw node for the text after the
    last expression, if there is any, and one newline node. All the nodes
    have the number of the line. The texts before the expressions hold no
    brace, the braces inside each expression match, neither the line nor
    what is left of it after an expression begins with a tag, and the text
    after the last expression is plain. *)
Theorem X20_expression_line (tagsDef : gmap str TagDefinition.t) (toks : list Node)
    (ln : nat) (segs : list Segment) (textRight : str) :
  segs <> [] ->
  goodLine tagsDef segs textRight ->
  Tokenizer.processLine (Tokenizer.mk tagsDef toks None None ln [])
    (exprLine segs textRight)
  = Ok (Tokenizer.mk tagsDef (toks ++ lineNodes (ln + 1) segs textRight)
          None None (ln + 1) []).
Proof.
  intros Hne Hgood. destruct segs as [|g segs]; [done|].
  unfold Tokenizer.processLine, Tokenizer.set_line.
  cbn [Tokenizer.line Tokenizer.tagsDef Tokenizer.tokens
    Tokenizer.blockStatement Tokenizer.mustacheStatement Tokenizer.openedTags].
  apply processText_exprs; [|done].
  pose proof (exprLine_length g segs textRight). lia.
Qed.

Lemma X20_expression_line_witness :
  Tokenizer.processLine (Tokenizer.mk ifDef [] None None 0 [])
    (js "Hi {{ user.name }}, you have {{{ f({n:  1}) }}} new messages")
  = Ok (Tokenizer.mk ifDef
          [Raw (js "Hi ") 1;
           Mustache (Props.mk (js "mustache") (js " user.name ") (js "{{ user.name }}")) 1;
           Raw (js ", you have ") 1;
           Mustache (Props.mk (js "emustache") (js " f({n: 1}) ")
                       (js "{{{ f({n:  1}) }}}")) 1;
           Raw (js " new messages") 1;
           Newline 1]
          None None 1 []).
Proof.
  pose proof (X20_expression_line ifDef [] 0
                [mkSegment (js "Hi ") false (js " user.name ");
                 mkSegment (js ", you have ") true (js " f({n:  1}) ")]
                (js " new messages")) as H.
  etrans; [apply H|].
  - discriminate.
  - repeat split; try (vm_compute; reflexivity); discriminate.
  - vm_compute. reflexivity.
Defined.

(** X21. An expression may begin on one line and end on the next. The
    first line gives no node of its own, not even a newline node: the line
    break is part of the raw text of the mustache node. The raw node for the
    text before the braces and the mustache node have the number of the
    first line; the raw node for the text after the braces and the newline
    node have the number of the second. *)
Theorem X21_expression_two_lines (tagsDef : gmap str TagDefinition.t)
    (toks : list Node) (ln : nat) (escaped : bool)
    (textLeft arg1 arg2 textRight : str) (d : Z) :
  forallb noBrace textLeft = true ->
  braceDepth 0 arg1 = Some d ->
  braceDepth d arg2 = Some 0%Z ->
  afterOpener escaped arg1 ->
  Tokenizer.getTag (Tokenizer.new tagsDef) (textLeft ++ opener escaped ++ arg1) = None ->
  plainLine tagsDef textRight ->
  Tokenizer.processLines (Tokenizer.mk tagsDef toks None None ln [])
    [textLeft ++ opener escaped ++ arg1; arg2 ++ closer escaped ++ textRight]
  = Ok (Tokenizer.mk tagsDef
          (toks ++ rawIf textLeft (ln + 1)
             ++ [Mustache (Props.mk (kind escaped) (collapseRuns (arg1 ++ arg2))
                             (opener escaped ++ arg1 ++ EOL :: arg2 ++ closer escaped))
                   (ln + 1)]
             ++ rawIf textRight (ln + 1 + 1) ++ [Newline (ln + 1 + 1)])
          None None (ln + 1 + 1) []).
Proof.
  intros HL H1 H2 Hafter Htag Hplain.
  destruct (feed_expression_cut (ln + 1) escaped textLeft arg1 arg2 textRight d
              HL H1 H2 Hafter)
    as (m1 & m2 & Hfeed1 & Hs1 & Hfeed2 & Hprops & He & Hs2 & Hpos).
  cbn [Tokenizer.processLines].
  unfold Tokenizer.processLine at 1, Tokenizer.set_line.
  cbn [Tokenizer.processText Tokenizer.line Tokenizer.tagsDef Tokenizer.tokens
    Tokenizer.blockStatement Tokenizer.mustacheStatement Tokenizer.openedTags].
  unfold Tokenizer.isSeekingBlock, Tokenizer.isSeekingMustache.
  cbn [Tokenizer.blockStatement Tokenizer.mustacheStatement].
  rewrite getTag_tagsDef. cbn [Tokenizer.tagsDef]. rewrite Htag.
  unfold Tokenizer.isClosingTag. cbn [Tokenizer.openedTags].
  rewrite MUSTACHE_REGEX_opener.
  unfold Tokenizer.feedTextToMustacheStatement at 1, Tokenizer.set_mustacheStatement.
  cbn [Tokenizer.line Tokenizer.tagsDef Tokenizer.tokens
    Tokenizer.blockStatement Tokenizer.mustacheStatement Tokenizer.openedTags].
  rewrite Hfeed1. cbn [bind]. rewrite Hs1. cbn [bind].
  unfold Tokenizer.processLine, Tokenizer.set_line.
  cbn [Tokenizer.processText Tokenizer.line Tokenizer.tagsDef Tokenizer.tokens
    Tokenizer.blockStatement Tokenizer.mustacheStatement Tokenizer.openedTags].
  unfold Tokenizer.isSeekingBlock, Tokenizer.isSeekingMustache.
  cbn [Tokenizer.blockStatement Tokenizer.mustacheStatement]. rewrite Hs1.
  unfold Tokenizer.feedTextToMustacheStatement, Tokenizer.set_mustacheStatement.
  cbn [Tokenizer.line Tokenizer.tagsDef Tokenizer.tokens
    Tokenizer.blockStatement Tokenizer.mustacheStatement Tokenizer.openedTags].
  rewrite Hfeed2. cbn [bind]. rewrite Hs2, Hprops, Hpos.
  cbn [MustacheProp.textLeft MustacheProp.textRight].
  unfold Tokenizer.getMustacheNode, Tokenizer.getBlankLineNode.
  cbn [MustacheProp.name MustacheProp.jsArg MustacheProp.raw].
  assert (exists n, length (arg2 ++ closer escaped ++ textRight) = S n) as [n Hn].
  { destruct (length (arg2 ++ closer escaped ++ textRight)) as [|n] eqn:Hn;
      [|by exists n].
    exfalso. rewrite !length_app in Hn. destruct escaped; simpl in Hn; lia. }
  rewrite Hn.
  destruct textLeft as [|l textLeft], textRight as [|r textRight];
    unfold Tokenizer.consumeNode, Tokenizer.set_tokens;
    cbn [Tokenizer.line Tokenizer.tagsDef Tokenizer.tokens
      Tokenizer.blockStatement Tokenizer.mustacheStatement Tokenizer.openedTags];
    rewrite ?processText_plain by done; unfold rawIf; simpl;
    by rewrite <- ?app_assoc.
Qed.

Lemma X21_expression_two_lines_witness :
  Tokenizer.processLines (Tokenizer.mk ifDef [] None None 0 [])
    [js "total: {{ sum("; js "  a, b) }} items"]
  = Ok (Tokenizer.mk ifDef
          [Raw (js "total: ") 1;
           Mustache (Props.mk (js "mustache") (js " sum( a, b) ")
                       (js "{{ sum(" ++ EOL :: js "  a, b) }}")) 1;
           Raw (js " items") 2;
           Newline 2]
          None None 2 []).
Proof.
  pose proof (X21_expression_two_lines ifDef [] 0 false (js "total: ") (js " sum(")
                (js "  a, b) ") (js " items") 0%Z) as H.
  etrans; [apply H|].
  - reflexivity.
  - reflexivity.
  - reflexivity.
  - intros _. reflexivity.
  - vm_compute. reflexivity.
  - split; vm_compute; reflexivity.
  - vm_compute. reflexivity.
Defined.

(** ** Tokenizer: the line numbers of the nodes *)

(** The line numbers in a node: its own, and those in its children. *)
Fixpoint linenos (node : Node) : list nat :=
  match node with
  | Raw _ lineno => [lineno]
  | Newline lineno => [lineno]
  | Mustache _ lineno => [lineno]
  | Block _ lineno children =>
      lineno :: foldr (fun child rest => linenos child ++ rest) [] children
  end.

(** Every line number in [nodes] is one of the lines 1 to [hi]. *)
Definition within (hi : nat) (nodes : list Node) : Prop :=
  Forall (fun node => Forall (fun n => 1 <= n <= hi) (linenos node)) nodes.

Section LineNumbers.

Import Tokenizer.

Variable hi : nat.

(** The tokenizer has read no line beyond [hi], and every line number
    it holds, in a node or in a statement, is one of the lines 1 to [hi]. *)
Definition numbered (tk : Tokenizer.t) : Prop :=
  line tk <= hi
  /\ within hi (tokens tk)
  /\ Forall (fun b => 1 <= BlockNode.lineno b <= hi /\ within hi (BlockNode.children b))
       (openedTags tk)
  /\ (forall b, blockStatement tk = Some b ->
        1 <= TagStatement.startPosition b <= hi)
  /\ (forall m, mustacheStatement tk = Some m ->
        1 <= MustacheStatement.startPosition m <= hi).

Lemma linenos_block p n children :
  Forall (fun k => 1 <= k <= hi) (linenos (Block p n children))
  <-> 1 <= n <= hi /\ within hi children.
Proof.
  simpl. rewrite Forall_cons. apply and_iff_compat_l. unfold within.
  induction children as [|c children IH]; simpl.
  - split; intros; constructor.
  - by rewrite Forall_app, Forall_cons, IH.
Qed.

Lemma consumeNode_numbered tk node :
  numbered tk -> Forall (fun n => 1 <= n <= hi) (linenos node) ->
  numbered (consumeNode tk node).
Proof.
  intros (Hl & Ht & Ho & Hb & Hm) Hnode. unfold consumeNode.
  destruct (openedTags tk) as [|top outer] eqn:Hot.
  - split; [done|]. split; [|split; [simpl; by rewrite Hot|done]]. simpl.
    apply Forall_app. split; [done|]. by constructor.
  - split; [done|]. split; [done|]. split; [|done]. simpl.
    apply Forall_cons in Ho as [[Hn Hc] Ho]. constructor; [|done].
    split; [done|]. simpl. apply Forall_app. split; [done|]. by constructor.
Qed.

Lemma emit_numbered nodes : forall tk,
  numbered tk -> within hi nodes -> numbered (emit tk nodes).
Proof.
  induction nodes as [|n nodes IH]; intros tk Hnum Hw; [done|].
  apply Forall_cons in Hw as [Hn Hw]. rewrite emit_cons.
  apply IH; [|done]. by apply consumeNode_numbered.
Qed.

Lemma set_statement_numbered tk b m :
  numbered tk ->
  (forall b', b = Some b' -> 1 <= TagStatement.startPosition b' <= hi) ->
  (forall m', m = Some m' -> 1 <= MustacheStatement.startPosition m' <= hi) ->
  numbered (mk (tagsDef tk) (tokens tk) b m (line tk) (openedTags tk)).
Proof.
  intros (Hl & Ht & Ho & _ & _) Hb Hm.
  split; [done|]. split; [done|]. split; [done|]. split; simpl; auto.
Qed.

Lemma drop_block_numbered tk : numbered tk -> numbered (set_blockStatement None tk).
Proof.
  intros (Hl & Ht & Ho & _ & Hm).
  split; [done|]. split; [done|]. split; [done|]. by split.
Qed.

Lemma drop_mustache_numbered tk :
  numbered tk -> numbered (set_mustacheStatement None tk).
Proof.
  intros (Hl & Ht & Ho & Hb & _).
  split; [done|]. split; [done|]. split; [done|]. by split.
Qed.

Lemma open_tag_numbered tk props n :
  numbered tk -> 1 <= n <= hi ->
  numbered (set_openedTags (getTagNode props n :: openedTags tk) tk).
Proof.
  intros (Hl & Ht & Ho & Hb & Hm) Hn.
  split; [done|]. split; [done|]. split; [|by split].
  simpl. constructor; [|done]. split; [done|]. constructor.
Qed.

Lemma close_tag_numbered tk top outer :
  numbered tk -> openedTags tk = top :: outer ->
  numbered (set_openedTags outer tk)
  /\ Forall (fun n => 1 <= n <= hi) (linenos (BlockNode.node top)).
Proof.
  intros (Hl & Ht & Ho & Hb & Hm) Hot. rewrite Hot in Ho.
  apply Forall_cons in Ho as [[Hn Hc] Ho]. split.
  - split; [done|]. split; [done|]. split; [done|]. by split.
  - by apply linenos_block.
Qed.

Lemma set_line_numbered tk n :
  numbered tk -> n <= hi -> numbered (set_line n tk).
Proof.
  intros (Hl & Ht & Ho & Hb & Hm) Hn.
  split; [done|]. split; [done|]. split; [done|]. by split.
Qed.

Lemma getName_startPosition s chars code n chars' s' :
  MustacheStatement.getName s chars code = (n, chars', s') ->
  MustacheStatement.startPosition s' = MustacheStatement.startPosition s.
Proof.
  unfold MustacheStatement.getName. intros H. repeat case_match; by simplify_eq.
Qed.

Lemma isClosing_startPosition s chars code b chars' s' :
  MustacheStatement.isClosing s chars code = (b, chars', s') ->
  MustacheStatement.startPosition s' = MustacheStatement.startPosition s.
Proof.
  unfold MustacheStatement.isClosing. intros H. repeat case_match; by simplify_eq.
Qed.

Lemma setProp_startPosition s s' :
  MustacheStatement.setProp s = Ok s' ->
  MustacheStatement.startPosition s' = MustacheStatement.startPosition s.
Proof.
  unfold MustacheStatement.setProp. intros H. repeat case_match; by simplify_eq.
Qed.

Lemma feedBucket_startPosition s c s' :
  MustacheStatement.feedBucket s c = Ok s' ->
  MustacheStatement.startPosition s' = MustacheStatement.startPosition s.
Proof.
  unfold MustacheStatement.feedBucket. intros H. repeat case_match; by simplify_eq.
Qed.

Lemma processChar_startPosition s chars c s' chars' :
  MustacheStatement.processChar s chars c = Ok (s', chars') ->
  MustacheStatement.startPosition s' = MustacheStatement.startPosition s.
Proof.
  unfold MustacheStatement.processChar.
  set (s0 := match MustacheStatement.currentProp s with
             | MustacheStatement.jsArg => MustacheStatement.appendRaw [c] s
             | _ => s
             end).
  assert (MustacheStatement.startPosition s0 = MustacheStatement.startPosition s) as <-
    by (unfold s0; by destruct (MustacheStatement.currentProp s)).
  assert (forall s1 n cs1 r,
            match n with
            | Some name0 =>
                let s2 := MustacheStatement.set_started true
                            (MustacheStatement.set_props
                               (MustacheStatement.set_name name0
                                  (MustacheStatement.props s1)) s1) in
                let* s3 := MustacheStatement.setProp s2 in
                Ok (MustacheStatement.set_currentProp MustacheStatement.jsArg s3, cs1)
            | None =>
                let '(closing, chars0, s2) :=
                  if MustacheStatement.started s1 && negb (MustacheStatement.ended s1)
                  then MustacheStatement.isClosing s1 cs1 (nat_of_ascii c)
                  else (false, cs1, s1) in
                if closing then
                  let* s3 := MustacheStatement.setProp s2 in
                  Ok (MustacheStatement.set_ended true
                        (MustacheStatement.set_currentProp MustacheStatement.textRight s3),
                      chars0)
                else
                  let s3 := if nat_of_ascii c =? MustacheStatement.OPENING_BRACE
                            then MustacheStatement.set_internalBraces
                                   (MustacheStatement.internalBraces s2 + 1)%Z s2
                            else s2 in
                  let s4 := if nat_of_ascii c =? MustacheStatement.CLOSING_BRACE
                            then MustacheStatement.set_internalBraces
                                   (MustacheStatement.internalBraces s3 - 1)%Z s3
                            else s3 in
                  let* s5 := MustacheStatement.feedBucket s4 c in Ok (s5, chars0)
            end = Ok r ->
            MustacheStatement.startPosition r.1 = MustacheStatement.startPosition s1)
    as Hrest.
  { intros s1 n cs1 r. destruct n as [n|].
    - cbv zeta. destruct (MustacheStatement.setProp _) as [s3|] eqn:H3; [|done].
      apply setProp_startPosition in H3. cbn [bind]. intros. by simplify_eq.
    - destruct (MustacheStatement.started s1 && negb (MustacheStatement.ended s1)).
      + destruct (MustacheStatement.isClosing s1 cs1 _) as [[b cs2] s2] eqn:Hc.
        apply isClosing_startPosition in Hc. destruct b.
        * destruct (MustacheStatement.setProp _) as [s3|] eqn:H3; [|done].
          apply setProp_startPosition in H3. cbn [bind]. intros. simplify_eq.
          simpl. congruence.
        * cbv zeta. destruct (MustacheStatement.feedBucket _ _) as [s5|] eqn:H5; [|done].
          apply feedBucket_startPosition in H5. cbn [bind]. intros. simplify_eq.
          simpl. rewrite H5, <- Hc. by repeat case_match.
      + cbv zeta. destruct (MustacheStatement.feedBucket _ _) as [s5|] eqn:H5; [|done].
        apply feedBucket_startPosition in H5. cbn [bind]. intros. simplify_eq.
        simpl. rewrite H5. by repeat case_match. }
  destruct (negb (MustacheStatement.started s0)).
  - destruct (MustacheStatement.getName s0 chars _) as [[n cs1] s1] eqn:Hn.
    apply getName_startPosition in Hn. intros H.
    apply (Hrest s1 n cs1) in H. simpl in H. congruence.
  - intros H. by apply (Hrest s0 None chars) in H.
Qed.

Lemma feedChars_startPosition n : forall chars s s',
  length chars <= n ->
  MustacheStatement.feedChars s chars = Ok s' ->
  MustacheStatement.startPosition s' = MustacheStatement.startPosition s.
Proof.
  induction n as [|n IH]; intros chars s s' Hlen H.
  - destruct chars; [|simpl in Hlen; lia]. rewrite feedChars_nil in H. by simplify_eq.
  - destruct chars as [|c chars]; [rewrite feedChars_nil in H; by simplify_eq|].
    rewrite feedChars_cons in H.
    destruct (MustacheStatement.processChar s chars c) as [[s1 chars1]|] eqn:H1; [|done].
    pose proof (MustacheStatement.processChar_length _ _ _ _ _ H1). simpl in Hlen.
    apply IH in H; [|lia]. apply processChar_startPosition in H1. congruence.
Qed.

Lemma mustache_feed_startPosition m text m' :
  MustacheStatement.feed m text = Ok m' ->
  MustacheStatement.startPosition m' = MustacheStatement.startPosition m.
Proof.
  unfold MustacheStatement.feed. destruct (MustacheStatement.ended m); [done|].
  destruct (MustacheStatement.feedChars _ text) as [s|] eqn:Hs; [|done].
  apply (feedChars_startPosition (length text)) in Hs; [|done]. cbn [bind].
  assert (MustacheStatement.startPosition s = MustacheStatement.startPosition m) as <-.
  { rewrite Hs. by destruct (MustacheProp.raw _). }
  destruct (negb (MustacheStatement.seeking s)).
  - destruct (MustacheStatement.setProp s) as [s1|] eqn:H1; [|done].
    apply setProp_startPosition in H1. cbn [bind]. intros. by simplify_eq.
  - intros. by simplify_eq.
Qed.

Lemma feedTextToBlockStatement_numbered tk text tk' :
  feedTextToBlockStatement tk text = Ok tk' ->
  1 <= line tk -> numbered tk ->
  numbered tk' /\ line tk' = line tk.
Proof.
  intros H Hline Hnum.
  pose proof Hnum as (Hl & Ht & Ho & Hb & Hm).
  apply feedTextToBlockStatement_cases in H
    as (b & b' & Hsome & Hfeed & [[Hs ->]|[Hs (def & Hdef & ->)]]);
    apply feed_frame in Hfeed as (Hpos & _).
  - split; [|done]. apply (set_statement_numbered tk (Some b')); [done| |done].
    intros b0 H0. simplify_eq. rewrite Hpos. by apply Hb.
  - assert (1 <= TagStatement.startPosition b' <= hi) as Hb'
      by (rewrite Hpos; by apply Hb).
    assert (forall tk0, numbered tk0 -> line tk0 = line tk ->
              numbered (set_blockStatement None (emit tk0 [Newline (line tk)]))
              /\ line (set_blockStatement None (emit tk0 [Newline (line tk)])) = line tk)
      as Hend.
    { intros tk0 H0 Hl0. split; [|simpl; by rewrite line_emit].
      assert (numbered (emit tk0 [Newline (line tk)])) as H1.
      { apply emit_numbered; [done|]. repeat constructor; [done|lia]. }
      by apply drop_block_numbered. }
    simpl. destruct (truthy (TagDefinition.block def)).
    + apply Hend; [|done]. by apply open_tag_numbered.
    + apply Hend; [|by rewrite line_emit].
      apply emit_numbered; [done|]. constructor; [|constructor].
      apply linenos_block. split; [done|]. constructor.
Qed.

Lemma mustacheNodes_within m :
  1 <= MustacheStatement.startPosition m <= hi -> within hi (mustacheNodes m).
Proof.
  intros H. unfold mustacheNodes, getMustacheNode.
  destruct (MustacheProp.textLeft _); repeat constructor; simpl; lia.
Qed.

Lemma feedTextToMustacheStatement_numbered k tk text tk' :
  (forall tk1 text1 tk2, k tk1 text1 = Ok tk2 -> 1 <= line tk1 -> numbered tk1 ->
     numbered tk2 /\ line tk2 = line tk1) ->
  feedTextToMustacheStatement k tk text = Ok tk' ->
  1 <= line tk -> numbered tk ->
  numbered tk' /\ line tk' = line tk.
Proof.
  intros Hk H Hline Hnum.
  pose proof Hnum as (Hl & Ht & Ho & Hb & Hm).
  apply feedTextToMustacheStatement_cases in H
    as (m & m' & Hsome & Hfeed & [[Hs ->]|[Hs Hc]]);
    apply mustache_feed_startPosition in Hfeed.
  - split; [|done]. apply (set_statement_numbered tk _ (Some m')); [done|done|].
    intros m0 H0. simplify_eq. rewrite Hfeed. by apply Hm.
  - assert (numbered (set_mustacheStatement None (emit tk (mustacheNodes m')))) as H1.
    { apply drop_mustache_numbered, emit_numbered; [done|].
      apply mustacheNodes_within. rewrite Hfeed. by apply Hm. }
    simpl in Hc. destruct Hc as [[_ ->]|[_ Hrun]].
    + split; [|by rewrite line_emit; simpl; rewrite line_emit].
      apply emit_numbered; [done|]. repeat constructor; [done|lia].
    + apply Hk in Hrun as [H2 H3]; [|simpl; by rewrite line_emit|done].
      split; [done|]. rewrite H3. simpl. by rewrite line_emit.
Qed.

Lemma processText_numbered fuel : forall tk text tk',
  processText fuel tk text = Ok tk' ->
  1 <= line tk -> numbered tk ->
  numbered tk' /\ line tk' = line tk.
Proof.
  induction fuel as [|fuel IH]; intros tk text tk' H Hline Hnum; [done|].
  pose proof Hnum as (Hl & Ht & Ho & Hb & Hm).
  assert (forall nodes, within hi nodes ->
            numbered (emit tk nodes) /\ line (emit tk nodes) = line tk) as Hemit.
  { intros nodes Hw. split; [by apply emit_numbered|by rewrite line_emit]. }
  assert (forall v, Forall (fun n => 1 <= n <= hi) (linenos (Raw v (line tk)))) as Hraw
    by (intros v; repeat constructor; [done|lia]).
  assert (Forall (fun n => 1 <= n <= hi) (linenos (Newline (line tk)))) as Hnl
    by (repeat constructor; [done|lia]).
  apply processText_cases in H
    as [[_ H]|[(_ & _ & H)|(_ & _ & [H|[H|[H|[H|H]]]])]].
  - by apply feedTextToBlockStatement_numbered in H.
  - by apply (feedTextToMustacheStatement_numbered _ _ _ _ (IH)) in H.
  - destruct H as (tag & _ & _ & ->). apply Hemit. by repeat constructor.
  - destruct H as (tag & _ & _ & H).
    apply feedTextToBlockStatement_numbered in H; [done|done|].
    apply (set_statement_numbered tk (Some _) (mustacheStatement tk)); [done| |done].
    intros b0 H0. simplify_eq. simpl. lia.
  - destruct H as (_ & _ & top & outer & Hot & ->).
    destruct (close_tag_numbered tk top outer Hnum Hot) as [Hclose Htop].
    split; [|by rewrite line_emit]. apply emit_numbered; [done|].
    constructor; [done|]. by repeat constructor.
  - destruct H as (_ & _ & _ & H).
    apply (feedTextToMustacheStatement_numbered _ _ _ _ (IH)) in H; [done|done|].
    apply (set_statement_numbered tk (blockStatement tk) (Some _)); [done|done|].
    intros m0 H0. simplify_eq. simpl. lia.
  - destruct H as (_ & _ & _ & ->). apply Hemit. by repeat constructor.
Qed.

Lemma processLines_numbered lines : forall tk tk',
  processLines tk lines = Ok tk' ->
  numbered tk -> line tk + length lines <= hi ->
  numbered tk' /\ line tk' = line tk + length lines.
Proof.
  induction lines as [|text lines IH]; intros tk tk' H Hnum Hlen; simpl in H.
  - simplify_eq. split; [done|]. simpl. lia.
  - destruct (processLine tk text) as [tk1|] eqn:H1; [|done]. cbn [bind] in H.
    simpl in Hlen. unfold processLine in H1.
    apply processText_numbered in H1 as [Hnum1 Hline1]; [|simpl; lia|].
    + apply IH in H as [H2 H3]; [|done|rewrite Hline1; simpl; lia].
      split; [done|]. rewrite H3, Hline1. simpl. lia.
    + apply set_line_numbered; [done|lia].
Qed.

Lemma flush_numbered tk :
  1 <= line tk -> numbered tk ->
  numbered (flushMustacheStatement (flushBlockStatement tk)).
Proof.
  intros Hline Hnum.
  assert (forall tk0 v, numbered tk0 -> line tk0 = line tk ->
            numbered (consumeNode (consumeNode tk0 (Raw v (line tk))) (Newline (line tk))))
    as Htwo.
  { intros tk0 v H0 Hl0. destruct H0 as (Hl & H0).
    do 2 (apply consumeNode_numbered; [|repeat constructor; [done|lia]]).
    done. }
  assert (numbered (flushBlockStatement tk)
          /\ line (flushBlockStatement tk) = line tk) as [H1 Hl1].
  { unfold flushBlockStatement. destruct (blockStatement tk) as [b|] eqn:Hb; [|done].
    unfold getRawNode, getBlankLineNode.
    destruct (consumeNode_fields tk
                (Raw ("@"%char :: Props.raw (TagStatement.props b)) (line tk)))
      as (_ & Hline1 & _).
    cbn [line set_blockStatement]. rewrite Hline1.
    assert (forall tk0 node, consumeNode (set_blockStatement None tk0) node
                             = set_blockStatement None (consumeNode tk0 node)) as Hcomm.
    { intros tk0 node. unfold consumeNode. simpl. by destruct (openedTags tk0). }
    rewrite Hcomm. split.
    - by apply drop_block_numbered, Htwo.
    - simpl. by destruct (consumeNode_fields
                            (consumeNode tk
                               (Raw ("@"%char :: Props.raw (TagStatement.props b))
                                  (line tk))) (Newline (line tk))) as (_ & -> & _). }
  unfold flushMustacheStatement.
  destruct (mustacheStatement (flushBlockStatement tk)) as [m|] eqn:Hm; [|done].
  unfold getRawNode, getBlankLineNode.
  destruct (consumeNode_fields (set_mustacheStatement None (flushBlockStatement tk))
              (Raw (MustacheProp.textLeft (MustacheStatement.props m)
                    ++ MustacheProp.raw (MustacheStatement.props m)
                    ++ MustacheProp.textRight (MustacheStatement.props m))
                 (line (set_mustacheStatement None (flushBlockStatement tk)))))
    as (_ & Hline2 & _).
  rewrite Hline2. cbn [line set_mustacheStatement]. rewrite Hl1.
  apply Htwo; [|done]. by apply drop_mustache_numbered.
Qed.

End LineNumbers.

(** X22. Every node of the output of [parse], at any depth, carries a
    line number of the template: a number from 1 to the number of lines. *)
Theorem X22_line_numbers (template : str) (tagsDef : gmap str TagDefinition.t)
    (tk : Tokenizer.t) :
  Tokenizer.parse template tagsDef = Ok tk ->
  Forall (fun node =>
            Forall (fun n => 1 <= n <= length (splitEOL template)) (linenos node))
    (Tokenizer.tokens tk).
Proof.
  unfold Tokenizer.parse. intros H.
  destruct (Tokenizer.processLines _ _) as [tk1|] eqn:H1; [|done].
  cbn [bind] in H. simplify_eq.
  apply (processLines_numbered (length (splitEOL template))) in H1 as [Hnum Hline];
    [| |simpl; lia].
  - apply flush_numbered in Hnum as (_ & Hw & _); [done|].
    rewrite Hline. simpl. destruct template; simpl; [lia|].
    destruct (Ascii.eqb _ _); [simpl; lia|]. destruct (splitEOL template); simpl; lia.
  - repeat split; try done; simpl; try lia; constructor.
Qed.

Lemma X22_line_numbers_witness :
  Forall (fun node => Forall (fun n => 1 <= n <= 3) (linenos node))
    [Block (Props.mk (js "if") (js "x") (js "if(x)")) 1
       [Newline 1; Raw (js "a") 2; Newline 2]; Newline 3].
Proof.
  apply (X22_line_numbers (js "@if(x)" ++ EOL :: js "a" ++ EOL :: js "@endif") ifDef
           (Tokenizer.mk ifDef
              [Block (Props.mk (js "if") (js "x") (js "if(x)")) 1
                 [Newline 1; Raw (js "a") 2; Newline 2]; Newline 3]
              None None 3 [])).
  vm_compute. reflexivity.
Defined.

(** * The end of the template, and the template read back *)

(** ** Tokenizer: the text of a statement that the end of the input finds open *)




Section Tracking.

Import Tokenizer.

Variable td : gmap str TagDefinition.t.




(** The line of a tag that is not escaped begins, once trimmed, with
    [@] and at least one more character. *)
Lemma getTag_at_sign tk text tag :
  getTag tk text = Some tag -> truthy (TagDefinition.escaped tag) = false ->
  exists fed, trim text = "@"%char :: fed /\ fed <> []
              /\ replace_TRIM_TAG_REGEX (trim text) = fed.
Proof.
  unfold getTag, TAG_REGEX. intros H Hesc.
  destruct (trim text) as [|c rest] eqn:Htrim; [done|].
  destruct (Ascii.eqb_spec c "\") as [->|Hc].
  - destruct rest as [|c' rest']; [done|].
    destruct (Ascii.eqb c' "@"); [|done].
    destruct (takeWord _); [done|].
    destruct (tagsDef tk !! _); [|done]. by simplify_eq.
  - destruct (Ascii.eqb_spec c "@") as [->|]; [|done].
    exists rest. split; [done|]. split; [|done].
    intros ->. by simpl in H.
Qed.








(** What [feed_wfm] calls [before], for a statement that is seeking. *)
Lemma before_seeking m :
  wfm m -> MustacheStatement.seeking m = true ->
  accounted m ++ match MustacheProp.raw (MustacheStatement.props m) with
                 | [] => []
                 | _ :: _ => [EOL]
                 end
  = (MustacheProp.textLeft (MustacheStatement.props m)
     ++ MustacheProp.raw (MustacheStatement.props m)) ++ [EOL].
Proof.
  intros Hwf Hs. destruct Hwf as [|pos nm ja R L br bj bl HR|]; [done| |done].
  destruct R; [done|]. unfold accounted, rightText. simpl. by rewrite app_nil_r.
Qed.



Variable ls : list str.
Variable cur : str.


End Tracking.

Section TrackedLines.

Import Tokenizer.



Variable td : gmap str TagDefinition.t.





End TrackedLines.






(** The same for one line, for an expression, and under a block that is
    open, whose children [parse] does not return. *)
Example unterminated_ex :
  (let* t := Tokenizer.parse (js "@if(username") ifDef in Ok (Tokenizer.tokens t))
  = Ok [Raw (js "@if(username") 1; Newline 1]
  /\ (let* t := Tokenizer.parse (js "x {{ a" ++ EOL :: js "b") ifDef in
      Ok (Tokenizer.tokens t))
     = Ok [Raw (js "x {{ a" ++ EOL :: js "b") 2; Newline 2]
  /\ (let* t := Tokenizer.parse (js "@if(x)" ++ EOL :: js "@if(y") ifDef in
      Ok (Tokenizer.tokens t, Tokenizer.openedTags t))
     = Ok ([], [BlockNode.mk (Props.mk (js "if") (js "x") (js "if(x)")) 1
                  [Newline 1; Raw (js "@if(y") 2; Newline 2]]).
Proof. repeat split; vm_compute; reflexivity. Qed.

(** ** Tokenizer: the templates that read back from their tokens *)

(** What the tokenizer is reading between two lines: nothing, an
    expression, or the call of a tag. *)
Inductive Reading :=
| Closed
| InExpression (m : MustacheStatement.t)
| InTag (b : TagStatement.t).

(** One more text for a mustache statement: the statement goes on, or it
    has ended and [k] reads the text right of it, if there is any. No text
    is lost. *)
Definition readExpression (k : str -> option Reading) (m : MustacheStatement.t)
    (text : str) : option Reading :=
  match MustacheStatement.feed m text with
  | Ok m' =>
      if MustacheStatement.seeking m' then Some (InExpression m')
      else match MustacheProp.textRight (MustacheStatement.props m') with
           | [] => Some Closed
           | _ :: _ => k (MustacheProp.textRight (MustacheStatement.props m'))
           end
  | Err _ => None
  end.

(** One more text for a tag statement: text is lost unless the statement
    goes on. *)
Definition readTag (b : TagStatement.t) (text : str) : option Reading :=
  match TagStatement.feed b text with
  | Ok b' => if TagStatement.seeking b' then Some (InTag b') else None
  | Err _ => None
  end.

(** The course of [processText] on [text] as long as no text is lost:
    [None] when a tag statement ends or fails, when an escaped tag loses
    its backslash, and when the line of a tag loses whitespace to [trim];
    else what the tokenizer is reading afterwards. A text that [getTag]
    does not take for a tag loses nothing. *)
Fixpoint losslessText (fuel : nat) (tagsDef : gmap str TagDefinition.t)
    (reading : Reading) (ln : nat) (text : str) : option Reading :=
  match fuel with
  | 0 => None
  | S fuel =>
      match reading with
      | InTag b => readTag b text
      | InExpression m =>
          readExpression (losslessText fuel tagsDef Closed ln) m text
      | Closed =>
          match Tokenizer.getTag (Tokenizer.new tagsDef) text with
          | Some tag =>
              if truthy (TagDefinition.escaped tag) then
                if bool_decide (replace_ESCAPE_REGEX text = text) then Some Closed
                else None
              else if bool_decide (trim text = text) then
                readTag (TagStatement.new ln
                           match TagDefinition.seekable tag with
                           | Some b => b
                           | None => true
                           end)
                  (replace_TRIM_TAG_REGEX (trim text))
              else None
          | None =>
              if MUSTACHE_REGEX text then
                readExpression (losslessText fuel tagsDef Closed ln)
                  (MustacheStatement.new ln) text
              else Some Closed
          end
      end
  end.

(** Line after line, as [parse] calls [processText]. *)
Fixpoint losslessLines (tagsDef : gmap str TagDefinition.t) (reading : Reading)
    (ln : nat) (lines : list str) : option Reading :=
  match lines with
  | [] => Some reading
  | text :: lines =>
      match losslessText (S (length text)) tagsDef reading (ln + 1) text with
      | Some reading => losslessLines tagsDef reading (ln + 1) lines
      | None => None
      end
  end.

(** The templates of which [parse] loses no text: no text that the
    tokenizer looks at for a tag, a line or what is right of an expression,
    begins with a tag of the table, or the only such texts are tags that
    the table itself marks as escaped, and one last call of a tag that
    stands at the very beginning of such a text and is still open at the
    end of the template. *)
Definition lossless (tagsDef : gmap str TagDefinition.t) (template : str) : bool :=
  match losslessLines tagsDef Closed 0 (splitEOL template) with
  | Some _ => true
  | None => false
  end.

Section ReadBack.

Import Tokenizer.

Variable td : gmap str TagDefinition.t.

(** The text that the statement being read holds back from the tokens. *)
Definition pending (reading : Reading) : str :=
  match reading with
  | Closed => []
  | InExpression m =>
      MustacheProp.textLeft (MustacheStatement.props m)
      ++ MustacheProp.raw (MustacheStatement.props m)
  | InTag b => "@"%char :: Props.raw (TagStatement.props b)
  end.

Definition blockOf (reading : Reading) : option TagStatement.t :=
  match reading with
  | InTag b => Some b
  | _ => None
  end.

Definition mustacheOf (reading : Reading) : option MustacheStatement.t :=
  match reading with
  | InExpression m => Some m
  | _ => None
  end.

Definition wellRead (reading : Reading) : Prop :=
  match reading with
  | Closed => True
  | InExpression m =>
      wfm m /\ MustacheStatement.seeking m = true
      /\ MustacheProp.textRight (MustacheStatement.props m) = []
  | InTag b =>
      TagStatement.seeking b = true /\ Props.raw (TagStatement.props b) <> []
  end.

(** No block is open, the tokenizer holds the statement being read, and
    the tokens, with what the statement holds back, read back as [text]. *)
Definition readAt (ln : nat) (text : str) (reading : Reading) (tk : Tokenizer.t)
  : Prop :=
  exists toks,
    tk = mk td toks (blockOf reading) (mustacheOf reading) ln []
    /\ wellRead reading
    /\ renderAll toks ++ pending reading = text.

(** The text read so far, when the tokens with the statement read back
    as [text]: a statement that is open has not seen the line break of its
    last line. *)
Definition consumed (reading : Reading) (text : str) : str :=
  match reading with
  | Closed => text
  | _ => text ++ [EOL]
  end.

Lemma readTag_readAt toks ln b fed reading tk :
  tk = mk td toks (Some b) None ln [] ->
  readTag b fed = Some reading ->
  exists b',
    reading = InTag b'
    /\ TagStatement.feed b fed = Ok b'
    /\ TagStatement.seeking b' = true
    /\ feedTextToBlockStatement tk fed = Ok (mk td toks (Some b') None ln [])
    /\ Props.raw (TagStatement.props b')
       = match Props.raw (TagStatement.props b) with
         | [] => fed
         | r => r ++ EOL :: fed
         end.
Proof.
  intros -> H. unfold readTag in H.
  destruct (TagStatement.feed b fed) as [b'|] eqn:Hfeed; [|done].
  destruct (TagStatement.seeking b') eqn:Hs; [|done]. simplify_eq.
  exists b'. repeat (split; [done|]). split.
  - unfold feedTextToBlockStatement. simpl. rewrite Hfeed. simpl. by rewrite Hs.
  - by apply feed_frame in Hfeed as (_ & _ & ?).
Qed.

(** Reading on in an expression, when [k] and [kl] go together for the
    text right of it. *)
Lemma readExpression_readAt (k : Tokenizer.t -> str -> result Tokenizer.t)
    (kl : str -> option Reading) toks m ln text reading :
  (forall toks' text' reading',
     kl text' = Some reading' ->
     exists tk' P',
       k (mk td toks' None None ln []) text' = Ok tk'
       /\ readAt ln P' reading' tk'
       /\ consumed reading' P' = renderAll toks' ++ text' ++ [EOL]) ->
  wfm m -> MustacheStatement.ended m = false ->
  readExpression kl m text = Some reading ->
  let before := accounted m ++ match MustacheProp.raw (MustacheStatement.props m) with
                               | [] => []
                               | _ :: _ => [EOL]
                               end in
  exists tk' P',
    feedTextToMustacheStatement k (mk td toks None (Some m) ln []) text = Ok tk'
    /\ readAt ln P' reading tk'
    /\ consumed reading P' = renderAll toks ++ before ++ text ++ [EOL].
Proof.
  intros Hk Hwf He H before. unfold readExpression in H.
  rewrite (feedTextToMustacheStatement_eq k (mk td toks None (Some m) ln []) text m
             eq_refl).
  destruct (feed_wfm m text Hwf He)
    as (m' & Hfeed & Hpos & [(Hs & Hwf' & Htr & Heq)|(Hs & Heq & Hsuf & Hlen)]);
    fold before in Heq; rewrite Hfeed in H |- *; cbn [bind]; rewrite Hs in H |- *.
  - simplify_eq. eexists _, _. split; [reflexivity|]. split.
    + exists toks. split; [done|]. split; [done|]. reflexivity.
    + simpl. rewrite Heq. by rewrite <- !app_assoc.
  - assert (afterExpression (mk td toks None (Some m) ln []) m'
            = mk td (toks ++ mustacheNodes m') None None ln []) as Hafter.
    { unfold afterExpression, emit. generalize (mustacheNodes m'). intros nodes.
      revert toks. induction nodes as [|n nodes IH]; intros toks; simpl.
      - by rewrite app_nil_r.
      - unfold consumeNode at 2. simpl. unfold set_tokens. simpl.
        rewrite IH. by rewrite <- app_assoc. }
    rewrite Hafter.
    destruct (MustacheProp.textRight (MustacheStatement.props m')) as [|r rs] eqn:Hr.
    + simplify_eq. eexists _, _. split; [reflexivity|]. split.
      * unfold emit. simpl. unfold consumeNode, set_tokens. simpl.
        exists ((toks ++ mustacheNodes m') ++ [Newline ln]).
        split; [done|]. split; [done|]. reflexivity.
      * simpl. rewrite !renderAll_app, renderAll_mustacheNodes. simpl.
        rewrite app_nil_r in Heq. rewrite !app_nil_r, Heq.
        by rewrite <- !app_assoc.
    + destruct (Hk (toks ++ mustacheNodes m') (r :: rs) reading H)
        as (tk' & P' & Hrun & Hat & Hcons).
      exists tk', P'. split; [done|]. split; [done|].
      rewrite Hcons, renderAll_app, renderAll_mustacheNodes.
      rewrite (app_assoc before text), <- Heq. by rewrite <- !app_assoc.
Qed.

(** A call of [processText] that loses no text. *)
Lemma processText_lossless fuel : forall ln text reading tk P reading',
  readAt ln P reading tk ->
  losslessText fuel td reading ln text = Some reading' ->
  exists tk' P',
    processText fuel tk text = Ok tk'
    /\ readAt ln P' reading' tk'
    /\ consumed reading' P' = consumed reading P ++ text ++ [EOL].
Proof.
  induction fuel as [|fuel IH]; intros ln text reading tk P reading' Hat H; [done|].
  assert (Hk : forall toks' text' reading'',
     losslessText fuel td Closed ln text' = Some reading'' ->
     exists tk' P',
       processText fuel (mk td toks' None None ln []) text' = Ok tk'
       /\ readAt ln P' reading'' tk'
       /\ consumed reading'' P' = renderAll toks' ++ text' ++ [EOL]).
  { intros toks' text' reading'' Hl.
    apply (IH ln text' Closed (mk td toks' None None ln []) (renderAll toks')) in Hl;
      [done|].
    exists toks'. split; [done|]. split; [done|]. simpl. apply app_nil_r. }
  destruct Hat as (toks & -> & Hwell & <-).
  cbn [losslessText] in H. cbn [processText].
  unfold isSeekingBlock, isSeekingMustache. cbn [blockStatement mustacheStatement].
  destruct reading as [|m|b]; cbn [blockOf mustacheOf pending consumed].
  - (* nothing is open *)
    rewrite getTag_tagsDef. cbn [tagsDef].
    destruct (getTag (new td) text) as [tag|] eqn:Htag.
    + destruct (truthy (TagDefinition.escaped tag)) eqn:Hesc.
      * destruct (bool_decide (replace_ESCAPE_REGEX text = text)) eqn:Hsame; [|done].
        apply bool_decide_eq_true in Hsame. simplify_eq. rewrite Hsame.
        eexists _, _. split; [reflexivity|]. split.
        -- unfold consumeNode, getRawNode, getBlankLineNode, set_tokens. simpl.
           eexists. split; [reflexivity|]. split; [done|]. reflexivity.
        -- simpl. rewrite !renderAll_app. simpl. by rewrite !app_nil_r, <- !app_assoc.
      * destruct (bool_decide (trim text = text)) eqn:Hsame; [|done].
        apply bool_decide_eq_true in Hsame.
        destruct (getTag_at_sign _ _ _ Htag Hesc) as (fed & Htrim & Hfed & Hrep).
        destruct (readTag_readAt toks ln _ _ _ _ eq_refl H)
          as (b' & -> & Hfeed & Hs & Hrun & Hraw).
        unfold set_blockStatement.
        cbn [line tagsDef tokens blockStatement mustacheStatement openedTags].
        rewrite Hrun.
        simpl in Hraw. rewrite Hrep in Hraw.
        eexists _, _. split; [reflexivity|]. split.
        -- exists toks. split; [done|]. split; [|reflexivity].
           split; [done|]. by rewrite Hraw.
        -- simpl. rewrite Hraw, <- Htrim, Hsame, app_nil_r.
           by rewrite <- !app_assoc.
    + unfold isClosingTag. cbn [openedTags].
      destruct (MUSTACHE_REGEX text).
      * destruct (readExpression_readAt (processText fuel) _ toks
                    (MustacheStatement.new ln) ln text reading' Hk
                    (wfm_left _ _ _ _) eq_refl H)
          as (tk' & P' & Hrun & Hat & Hcons).
        exists tk', P'. split; [exact Hrun|]. split; [done|].
        rewrite Hcons. simpl. by rewrite !app_nil_r.
      * simplify_eq. eexists _, _. split; [reflexivity|]. split.
        -- unfold consumeNode, getRawNode, getBlankLineNode, set_tokens. simpl.
           eexists. split; [reflexivity|]. split; [done|]. reflexivity.
        -- simpl. rewrite !renderAll_app. simpl. by rewrite !app_nil_r, <- !app_assoc.
  - (* an expression is open *)
    destruct Hwell as (Hwf & Hs & Htr). rewrite Hs.
    assert (MustacheStatement.ended m = false) as He.
    { unfold MustacheStatement.seeking in Hs. apply andb_true_iff in Hs as [_ Hs'].
      by apply negb_true_iff in Hs'. }
    destruct (readExpression_readAt (processText fuel) _ toks m ln text reading' Hk
                Hwf He H) as (tk' & P' & Hrun & Hat & Hcons).
    exists tk', P'. split; [exact Hrun|]. split; [done|].
    rewrite Hcons, before_seeking by done. by rewrite <- !app_assoc.
  - (* the call of a tag is open *)
    destruct Hwell as (Hs & Hne). rewrite Hs.
    destruct (readTag_readAt toks ln b text reading' _ eq_refl H)
      as (b' & -> & Hfeed & Hs' & Hrun & Hraw).
    rewrite Hrun.
    destruct (Props.raw (TagStatement.props b)) as [|r rs] eqn:Hr; [done|].
    eexists _, _. split; [reflexivity|]. split.
    + exists toks. split; [done|]. split; [|reflexivity].
      split; [done|]. rewrite Hraw. done.
    + simpl. rewrite Hraw. simpl. rewrite <- !app_assoc. simpl.
      by rewrite <- !app_assoc.
Qed.

Lemma processLines_lossless lines : forall ln reading tk P reading',
  readAt ln P reading tk ->
  losslessLines td reading ln lines = Some reading' ->
  exists tk' P',
    processLines tk lines = Ok tk'
    /\ readAt (ln + length lines) P' reading' tk'
    /\ consumed reading' P' = consumed reading P ++ withBreaks lines.
Proof.
  induction lines as [|text lines IH]; intros ln reading tk P reading' Hat H;
    cbn [losslessLines] in H.
  - simplify_eq. exists tk, P. split; [done|].
    rewrite Nat.add_0_r. split; [done|]. simpl. by rewrite app_nil_r.
  - destruct (losslessText _ td reading (ln + 1) text) as [reading1|] eqn:H1; [|done].
    assert (readAt (ln + 1) P reading (set_line (line tk + 1) tk)) as Hat1.
    { destruct Hat as (toks & -> & Hwell & HP). by exists toks. }
    destruct (processText_lossless _ _ _ _ _ _ _ Hat1 H1)
      as (tk1 & P1 & Hrun1 & Hat2 & Hcons1).
    destruct (IH _ _ _ _ _ Hat2 H) as (tk' & P' & Hrun & Hat' & Hcons).
    exists tk', P'. cbn [processLines]. unfold processLine. rewrite Hrun1. cbn [bind].
    split; [done|]. split.
    + by replace (ln + length (text :: lines)) with (ln + 1 + length lines)
        by (simpl; lia).
    + rewrite Hcons, Hcons1. simpl. by rewrite <- !app_assoc.
Qed.

End ReadBack.

(** C2 (as amended). When [parse] loses no text of the template, it
    returns without an error and the values of the raw nodes and the raw
    texts of the mustache nodes, in order, with one line break for every
    newline node, give the template followed by one line break. [parse]
    loses no text when no text that it looks at for a tag, a line or what
    is right of an expression, begins with a tag of the table; and also
    when such a tag is marked as escaped by the table and has no
    backslash, or is a call at the very beginning of the text that is
    still open when the template ends. *)
Theorem C2_read_back (template : str) (tagsDef : gmap str TagDefinition.t) :
  lossless tagsDef template = true ->
  exists tk,
    Tokenizer.parse template tagsDef = Ok tk
    /\ renderAll (Tokenizer.tokens tk) = template ++ [EOL]
    /\ Tokenizer.openedTags tk = []
    /\ Tokenizer.blockStatement tk = None
    /\ Tokenizer.mustacheStatement tk = None.
Proof.
  unfold lossless. intros H.
  destruct (losslessLines tagsDef Closed 0 (splitEOL template)) as [reading|] eqn:Hl;
    [|done].
  destruct (processLines_lossless tagsDef (splitEOL template) 0 Closed
              (Tokenizer.new tagsDef) [] reading) as (tk & P & Hrun & Hat & Hcons);
    [by exists []|done|].
  simpl in Hcons. rewrite withBreaks_splitEOL in Hcons.
  unfold Tokenizer.parse. rewrite Hrun. cbn [bind].
  destruct Hat as (toks & -> & Hwell & HP).
  eexists. split; [reflexivity|].
  destruct reading as [|m|b]; simpl in *.
  - rewrite app_nil_r in HP. by subst.
  - destruct Hwell as (_ & _ & Htr).
    unfold Tokenizer.flushMustacheStatement, Tokenizer.consumeNode,
      Tokenizer.set_tokens. simpl.
    rewrite !renderAll_app, Htr. simpl. rewrite !app_nil_r, <- Hcons, <- HP.
    by rewrite <- !app_assoc.
  - unfold Tokenizer.flushMustacheStatement, Tokenizer.flushBlockStatement,
      Tokenizer.consumeNode, Tokenizer.set_tokens. simpl.
    rewrite !renderAll_app. simpl. rewrite !app_nil_r, <- Hcons, <- HP.
    by rewrite <- !app_assoc.
Qed.

(** A template with an [@if] that begins no line, two expressions, and
    a call that is open when the template ends. *)
Definition looseTemplate : str :=
  js "hello @if(x)" ++ EOL :: js "Hi {{ a }}!" ++ EOL :: js "{{ b }}@if(y".

Lemma C2_read_back_witness :
  exists tk,
    Tokenizer.parse looseTemplate ifDef = Ok tk
    /\ renderAll (Tokenizer.tokens tk) = looseTemplate ++ [EOL]
    /\ Tokenizer.openedTags tk = []
    /\ Tokenizer.blockStatement tk = None
    /\ Tokenizer.mustacheStatement tk = None.
Proof.
  apply (C2_read_back looseTemplate ifDef). vm_compute. reflexivity.
Defined.

Section TagFree.

Variable td : gmap str TagDefinition.t.

(** Nothing is open, or an expression is. *)
Definition noCall (reading : Reading) : Prop :=
  match reading with
  | Closed => True
  | InExpression m => wfm m /\ MustacheStatement.ended m = false
  | InTag _ => False
  end.

Lemma tagFree_end text rest : tagFree td text -> rest `suffix_of` text -> tagFree td rest.
Proof. intros H Hs r Hr. apply H. by etrans. Qed.

Lemma losslessText_tagFree fuel : forall ln text reading,
  length text < fuel -> tagFree td text -> noCall reading ->
  exists reading',
    losslessText fuel td reading ln text = Some reading' /\ noCall reading'.
Proof.
  induction fuel as [|fuel IH]; intros ln text reading Hlen Hfree Hno; [lia|].
  assert (Hexpr : forall m, wfm m -> MustacheStatement.ended m = false ->
            exists reading',
              readExpression (losslessText fuel td Closed ln) m text = Some reading'
              /\ noCall reading').
  { intros m Hwf He. unfold readExpression.
    destruct (feed_wfm m text Hwf He)
      as (m' & -> & _ & [(Hs & Hwf' & _)|(Hs & _ & Hsuf & Hl)]); rewrite Hs.
    - eexists. split; [reflexivity|]. split; [done|].
      unfold MustacheStatement.seeking in Hs. apply andb_true_iff in Hs as [_ Hs].
      by apply negb_true_iff in Hs.
    - destruct (MustacheProp.textRight (MustacheStatement.props m')) as [|r rs] eqn:Hr.
      + by exists Closed.
      + apply IH; [|by apply (tagFree_end text)|done].
        specialize (Hl ltac:(done)). simpl in Hl |- *. lia. }
  cbn [losslessText]. destruct reading as [|m|b]; [|by apply Hexpr; apply Hno|done].
  rewrite (Hfree text) by done.
  destruct (MUSTACHE_REGEX text); [|by exists Closed].
  apply Hexpr; [apply wfm_left|done].
Qed.

Lemma losslessLines_tagFree lines : forall ln reading,
  Forall (tagFree td) lines -> noCall reading ->
  exists reading', losslessLines td reading ln lines = Some reading'.
Proof.
  induction lines as [|text lines IH]; intros ln reading Hall Hno; cbn [losslessLines].
  - by exists reading.
  - inversion Hall as [|? ? Hfree Hrest]; subst.
    destruct (losslessText_tagFree (S (length text)) (ln + 1) text reading
                (Nat.lt_succ_diag_r _) Hfree Hno) as (reading1 & -> & Hno1).
    by apply IH.
Qed.

End TagFree.

(** A template of which no line, and no end of a line, begins with a
    known tag loses no text; so does every template when the table is
    empty. *)
Lemma lossless_tagFree tagsDef template :
  Forall (tagFree tagsDef) (splitEOL template) -> lossless tagsDef template = true.
Proof.
  intros Hall. unfold lossless.
  by destruct (losslessLines_tagFree tagsDef (splitEOL template) 0 Closed Hall I)
    as (reading & ->).
Qed.

Lemma lossless_empty template : lossless ∅ template = true.
Proof.
  apply lossless_tagFree, Forall_forall. intros text _. apply tagFree_empty.
Qed.
